(** * OpenAlex API client: the digestion engine and the pagination loop

    A shallow embedding of [openalex_api_client/client.py]:
    [OpenAlexParser] (merge_and_deduplicate, find_display_names,
    extract_unique_country_codes, convert_publication_date, extract_abstract,
    parse_work) and the requests of [OpenAlexClient] (_build_params,
    get_resource, list_resources, get_total_count, list_all_resources).

    Conventions of the embedding.
    - A Python [str] is a [string]; each [ascii] stands for one character
      with code point below 256.  On that range the regular expression
      class [\d] is exactly ['0'..'9'].
    - A Python [dict] is an association list in insertion order; looking up
      and storing go through [dict_get] and [dict_set].
    - A decoded JSON document is a [value].  Python floats are kept
      abstract (type [F]); the program only copies them, tests them for
      truth and compares them for equality.
    - A Python call that can raise returns a [res]; [try/except] is a match
      on it.  Logging is not modelled. *)

From Stdlib Require Import ZArith List String Ascii Bool Arith Lia.
From Stdlib Require Import Numbers.DecimalString.
From Stdlib Require Numbers.DecimalNat Numbers.DecimalFacts.
From Stdlib Require Import Sorting.Permutation Sorting.Sorted.
Import ListNotations.

Open Scope string_scope.
Open Scope list_scope.

Set Warnings "-abstract-large-number".

(** ** Exceptions *)

Inductive exn : Type :=
| TypeError
| ValueError
| AttributeError
| IndexError
| ZeroDivisionError
| StopIteration
| OpenAlexClientError.

Inductive res (A : Type) : Type :=
| Ok (a : A)
| Raise (e : exn).

Arguments Ok {A} a.
Arguments Raise {A} e.

Definition bind {A B : Type} (m : res A) (k : A -> res B) : res B :=
  match m with
  | Ok a => k a
  | Raise e => Raise e
  end.

Notation "x <- m ;; k" := (bind m (fun x => k))
  (at level 61, m at next level, right associativity).

(** ** Strings *)

(** [sub in s] *)
Fixpoint contains (sub s : string) : bool :=
  prefix sub s ||
  match s with
  | EmptyString => false
  | String _ s' => contains sub s'
  end.

(** [s.replace(".", "_")] *)
Fixpoint replace_dots (s : string) : string :=
  match s with
  | EmptyString => EmptyString
  | String c s' =>
      String (if Ascii.eqb c "."%char then "_"%char else c) (replace_dots s')
  end.

(** [str(n)] for a non-negative index *)
Definition str_of_nat (n : nat) : string :=
  NilEmpty.string_of_uint (Nat.to_uint n).

Definition is_digit (c : ascii) : bool :=
  Ascii.leb "0"%char c && Ascii.leb c "9"%char.

(** The pattern [\[\d+\]].  [digits_close s seen] reads the rest of a match
    after the opening bracket and [seen] digits, and returns how many
    characters it consumed in all after the bracket. *)
Fixpoint digits_close (s : string) (seen : nat) : option nat :=
  match s with
  | EmptyString => None
  | String c s' =>
      if is_digit c then digits_close s' (S seen)
      else if Ascii.eqb c "]"%char && Nat.ltb 0 seen then Some (S seen)
      else None
  end.

(** Length of the match of [\[\d+\]] anchored at the start of [s]. *)
Definition index_match (s : string) : option nat :=
  match s with
  | String c s' =>
      if Ascii.eqb c "["%char then option_map S (digits_close s' 0) else None
  | EmptyString => None
  end.

(** [re.search(r'\[\d+\]', s)], as a truth value *)
Fixpoint has_index (s : string) : bool :=
  match index_match s with
  | Some _ => true
  | None =>
      match s with
      | EmptyString => false
      | String _ s' => has_index s'
      end
  end.

(** [re.sub(r'\[\d+\]', '', s)]: the matches are found from left to right
    and do not overlap.  [skip] counts the characters of the current match
    that are still to be dropped. *)
Fixpoint strip_from (skip : nat) (s : string) : string :=
  match s with
  | EmptyString => EmptyString
  | String c s' =>
      match skip with
      | S k => strip_from k s'
      | O =>
          match index_match s with
          | Some (S k) => strip_from k s'
          | _ => String c (strip_from 0 s')
          end
      end
  end.

Definition strip_indices (s : string) : string := strip_from 0 s.

(** [sorted] on a list of [str]: code-point lexicographic order. *)
Fixpoint insert_sorted (x : string) (l : list string) : list string :=
  match l with
  | [] => [x]
  | y :: l' => if String.leb x y then x :: l else y :: insert_sorted x l'
  end.

Fixpoint sort_strings (l : list string) : list string :=
  match l with
  | [] => []
  | x :: l' => insert_sorted x (sort_strings l')
  end.

(** ** Dictionaries *)

Section Dict.
Context {V : Type}.

Definition dict := list (string * V).

(** [d.get(k)] as an option; the first binding of [k]. *)
Fixpoint dict_get (k : string) (d : dict) : option V :=
  match d with
  | [] => None
  | (k', v) :: d' => if String.eqb k' k then Some v else dict_get k d'
  end.

(** [d[k] = v]: an existing key keeps its place, a new key goes last. *)
Fixpoint dict_set (k : string) (v : V) (d : dict) : dict :=
  match d with
  | [] => [(k, v)]
  | (k', v') :: d' =>
      if String.eqb k' k then (k, v) :: d' else (k', v') :: dict_set k v d'
  end.

Definition keys (d : dict) : list string := map fst d.
End Dict.

Arguments dict V : clear implicits.

(** ** State and exceptions *)

(** A block of statements runs on a mutable state and can stop with an
    exception; what it did to the state before stays done. *)
Definition stm (St A : Type) : Type := St -> res A * St.

Definition sret {St A : Type} (a : A) : stm St A := fun st => (Ok a, st).

Definition sbind {St A B : Type} (m : stm St A) (k : A -> stm St B) : stm St B :=
  fun st =>
    match m st with
    | (Ok a, st') => k a st'
    | (Raise e, st') => (Raise e, st')
    end.

Notation "x <~ m ;; k" := (sbind m (fun x => k))
  (at level 61, m at next level, right associativity).
Notation "m ;;; k" := (sbind m (fun _ => k))
  (at level 61, right associativity).

(** A Python expression that can raise, evaluated inside a block *)
Definition eval {St A : Type} (r : res A) : stm St A := fun st => (r, st).

(** [for x in l: body(x)] *)
Fixpoint for_each {St A : Type} (l : list A) (body : A -> stm St unit)
  : stm St unit :=
  match l with
  | [] => sret tt
  | x :: l' => body x ;;; for_each l' body
  end.

(** [try: body / except Exception: logging.warning(...)] *)
Definition try_except {St : Type} (body : stm St unit) (st : St) : St :=
  snd (body st).

Section OpenAlex.

(** Python floats and the two comparisons the program makes on them. *)
Variable F : Type.
Variable F_eqb : F -> F -> bool.
Variable F_eq_int : F -> Z -> bool.

(** ** JSON values *)

#[warnings="-register-all"]
Inductive value : Type :=
| VNone
| VBool (b : bool)
| VInt (z : Z)
| VFloat (f : F)
| VStr (s : string)
| VList (l : list value)
| VDict (d : list (string * value)).

Definition int_of_bool (b : bool) : Z := if b then 1%Z else 0%Z.

(** [hash(v)] succeeds. *)
Definition hashable (v : value) : bool :=
  match v with
  | VList _ | VDict _ => false
  | _ => true
  end.

(** [a == b] when one side at least is a scalar ([bool] is a subclass of
    [int]; a scalar never equals a list or a dict). *)
Definition py_eq (a b : value) : bool :=
  match a, b with
  | VNone, VNone => true
  | VBool x, VBool y => Bool.eqb x y
  | VBool x, VInt z | VInt z, VBool x => Z.eqb (int_of_bool x) z
  | VBool x, VFloat f | VFloat f, VBool x => F_eq_int f (int_of_bool x)
  | VInt x, VInt y => Z.eqb x y
  | VInt z, VFloat f | VFloat f, VInt z => F_eq_int f z
  | VFloat f, VFloat g => F_eqb f g
  | VStr s, VStr t => String.eqb s t
  | _, _ => false
  end.

(** [bool(v)] *)
Definition truthy (v : value) : bool :=
  match v with
  | VNone => false
  | VBool b => b
  | VInt z => negb (Z.eqb z 0)
  | VFloat f => negb (F_eq_int f 0)
  | VStr s => negb (String.eqb s "")
  | VList l => match l with [] => false | _ => true end
  | VDict d => match d with [] => false | _ => true end
  end.

(** [obj.get(k, default)]: only a dict has the method. *)
Definition py_get (obj : value) (k : string) (default : value) : res value :=
  match obj with
  | VDict d =>
      Ok (match dict_get k d with Some v => v | None => default end)
  | _ => Raise AttributeError
  end.

(** [iter(obj)]: what a [for] loop sees. *)
Definition py_iter (obj : value) : res (list value) :=
  match obj with
  | VList l => Ok l
  | VDict d => Ok (map (fun kv => VStr (fst kv)) d)
  | VStr s => Ok (map (fun c => VStr (String c "")) (list_ascii_of_string s))
  | _ => Raise TypeError
  end.

(** ** Sets of values: [set()], [s.add(v)] *)

Definition pyset := list value.

Definition set_add (v : value) (s : pyset) : res pyset :=
  if hashable v
  then Ok (if existsb (py_eq v) s then s else s ++ [v])
  else Raise TypeError.

Fixpoint set_update (vs : list value) (s : pyset) : res pyset :=
  match vs with
  | [] => Ok s
  | v :: vs' => s' <- set_add v s ;; set_update vs' s'
  end.

(** The elements of a list if all of them are [str]. *)
Fixpoint all_strs (l : list value) : option (list string) :=
  match l with
  | [] => Some []
  | VStr s :: l' => option_map (cons s) (all_strs l')
  | _ :: _ => None
  end.

(** ['|'.join(items)]: a [TypeError] unless every item is a [str]. *)
Definition join_pipe (items : list value) : res string :=
  match all_strs items with
  | Some ss => Ok (concat "|" ss)
  | None => Raise TypeError
  end.

(** ['|'.join(sorted(s))] on a set: [sorted] raises [TypeError] when two
    elements cannot be ordered, [join] raises it when an element is not a
    [str]; a set of [str] goes through both. *)
Definition join_sorted (s : pyset) : res string :=
  match all_strs s with
  | Some ss => Ok (concat "|" (sort_strings ss))
  | None => Raise TypeError
  end.

(** ** OpenAlexParser.merge_and_deduplicate *)

(** The [for] loop that fills [merged_data], a [defaultdict(set)]. *)
Fixpoint merge_loop (data : dict value) (merged_data : dict pyset)
  : res (dict pyset) :=
  match data with
  | [] => Ok merged_data
  | (key, value) :: data' =>
      if has_index key then
        let normalized_key := strip_indices key in
        let old := match dict_get normalized_key merged_data with
                   | Some s => s
                   | None => []
                   end in
        s <- set_add value old ;;
        merge_loop data' (dict_set normalized_key s merged_data)
      else
        s <- set_add value [] ;;
        merge_loop data' (dict_set key s merged_data)
  end.

(** ['|'.join(sorted(v)) if len(v) > 1 else next(iter(v))] *)
Definition merged_value (v : pyset) : res value :=
  if Nat.ltb 1 (List.length v) then
    s <- join_sorted v ;; Ok (VStr s)
  else
    match v with
    | x :: _ => Ok x
    | [] => Raise StopIteration
    end.

(** The dict comprehension of the [return]. *)
Fixpoint merge_finish (merged_data : dict pyset) : res (dict value) :=
  match merged_data with
  | [] => Ok []
  | (k, v) :: rest =>
      x <- merged_value v ;;
      out <- merge_finish rest ;;
      Ok ((k, x) :: out)
  end.

Definition merge_and_deduplicate (data : dict value) : res (dict value) :=
  merged_data <- merge_loop data [] ;;
  merge_finish merged_data.


(** ** OpenAlexParser.find_display_names *)

(** [f"{path}.{key}" if path else key] *)
Definition key_path (path key : string) : string :=
  if String.eqb path "" then key else path ++ "." ++ key.

(** [f"{path}[{index}]"] *)
Definition index_path (path : string) (index : nat) : string :=
  path ++ "[" ++ str_of_nat index ++ "]".

(** The generator, as the list of the pairs it yields, in order. *)
Fixpoint find_display_names (obj : value) (path : string)
  : list (string * value) :=
  match obj with
  | VDict d =>
      (fix items (d : list (string * value)) : list (string * value) :=
         match d with
         | [] => []
         | (key, value) :: d' =>
             let new_path := key_path path key in
             (if contains "display_name" key
              then [(new_path, value)]
              else find_display_names value new_path) ++ items d'
         end) d
  | VList l =>
      (fix items (l : list value) (index : nat) : list (string * value) :=
         match l with
         | [] => []
         | item :: l' =>
             find_display_names item (index_path path index)
               ++ items l' (S index)
         end) l 0
  | _ => []
  end.

(** ** OpenAlexParser.extract_unique_country_codes *)

Fixpoint country_codes_loop (authors : list value) (country_codes : pyset)
  : res pyset :=
  match authors with
  | [] => Ok country_codes
  | author :: authors' =>
      countries <- py_get author "countries" (VList []) ;;
      codes <- py_iter countries ;;
      country_codes' <- set_update codes country_codes ;;
      country_codes_loop authors' country_codes'
  end.

Definition extract_unique_country_codes (authorships : value) : res string :=
  authors <- py_iter authorships ;;
  country_codes <- country_codes_loop authors [] ;;
  join_sorted country_codes.

(** ** OpenAlexParser.convert_publication_date *)

(** [datetime.strptime(s, '%Y-%m-%d')] follows CPython's [_strptime]: the
    format becomes the regular expression
    [(\d\d\d\d)-(1[0-2]|0[1-9]|[1-9])-(3[0-1]|[1-2]\d|0[1-9]|[1-9]| [1-9])],
    matched at the start of the string; text left over after the match, a
    year 0 or a day the month does not have raise [ValueError]. *)

Definition digit_val (c : ascii) : nat := nat_of_ascii c - 48.

Definition in_range (lo hi c : ascii) : bool :=
  Ascii.leb lo c && Ascii.leb c hi.

(** [(\d\d\d\d)] *)
Definition parse_year (s : string) : option (nat * string) :=
  match s with
  | String a (String b (String c (String d rest))) =>
      if is_digit a && is_digit b && is_digit c && is_digit d
      then Some (1000 * digit_val a + 100 * digit_val b
                 + 10 * digit_val c + digit_val d, rest)
      else None
  | _ => None
  end.

(** [(1[0-2]|0[1-9]|[1-9])], the alternatives tried in this order *)
Definition parse_month (s : string) : option (nat * string) :=
  match s with
  | String a rest =>
      match rest with
      | String b rest' =>
          if Ascii.eqb a "1" && in_range "0" "2" b
          then Some (10 + digit_val b, rest')
          else if Ascii.eqb a "0" && in_range "1" "9" b
          then Some (digit_val b, rest')
          else if in_range "1" "9" a then Some (digit_val a, rest)
          else None
      | EmptyString =>
          if in_range "1" "9" a then Some (digit_val a, rest) else None
      end
  | EmptyString => None
  end.

(** [(3[0-1]|[1-2]\d|0[1-9]|[1-9]| [1-9])], the alternatives tried in this
    order *)
Definition parse_day (s : string) : option (nat * string) :=
  match s with
  | String a rest =>
      match rest with
      | String b rest' =>
          if Ascii.eqb a "3" && in_range "0" "1" b
          then Some (30 + digit_val b, rest')
          else if in_range "1" "2" a && is_digit b
          then Some (10 * digit_val a + digit_val b, rest')
          else if Ascii.eqb a "0" && in_range "1" "9" b
          then Some (digit_val b, rest')
          else if in_range "1" "9" a then Some (digit_val a, rest)
          else if Ascii.eqb a " " && in_range "1" "9" b
          then Some (digit_val b, rest')
          else None
      | EmptyString =>
          if in_range "1" "9" a then Some (digit_val a, rest) else None
      end
  | EmptyString => None
  end.

Definition expect_dash (s : string) : option string :=
  match s with
  | String c rest => if Ascii.eqb c "-" then Some rest else None
  | EmptyString => None
  end.

Definition is_leap (year : nat) : bool :=
  (year mod 4 =? 0)%nat && (negb (year mod 100 =? 0)%nat || (year mod 400 =? 0)%nat).

Definition days_in_month (year month : nat) : nat :=
  match month with
  | 2 => if is_leap year then 29 else 28
  | 4 | 6 | 9 | 11 => 30
  | _ => 31
  end.

(** A [datetime] at midnight. *)
Record datetime : Type := mk_datetime { dt_year : nat; dt_month : nat; dt_day : nat }.

Definition strptime_ymd (arg : value) : res datetime :=
  match arg with
  | VStr s =>
      match parse_year s with
      | None => Raise ValueError
      | Some (year, s1) =>
          match expect_dash s1 with
          | None => Raise ValueError
          | Some s2 =>
              match parse_month s2 with
              | None => Raise ValueError
              | Some (month, s3) =>
                  match expect_dash s3 with
                  | None => Raise ValueError
                  | Some s4 =>
                      match parse_day s4 with
                      | None => Raise ValueError
                      | Some (day, s5) =>
                          if negb (String.eqb s5 "") then Raise ValueError
                          else if (year =? 0)%nat then Raise ValueError
                          else if (days_in_month year month <? day)%nat
                          then Raise ValueError
                          else Ok (mk_datetime year month day)
                      end
                  end
              end
          end
      end
  | _ => Raise TypeError
  end.

Definition digit_char (n : nat) : ascii := ascii_of_nat (48 + n mod 10).

Definition pad2 (n : nat) : string :=
  String (digit_char (n / 10)) (String (digit_char n) "").

Definition pad4 (n : nat) : string :=
  String (digit_char (n / 1000)) (String (digit_char (n / 100))
    (String (digit_char (n / 10)) (String (digit_char n) ""))).

(** [dt.isoformat()] of a midnight [datetime] *)
Definition isoformat (dt : datetime) : string :=
  pad4 (dt_year dt) ++ "-" ++ pad2 (dt_month dt) ++ "-" ++ pad2 (dt_day dt)
    ++ "T00:00:00".

Definition convert_publication_date (publication_date_str : value) : res value :=
  match strptime_ymd publication_date_str with
  | Ok dt => Ok (VStr (isoformat dt ++ "Z"))
  | Raise ValueError => Ok VNone
  | Raise e => Raise e
  end.


(** ** OpenAlexParser.extract_abstract *)

(** The argument is an abstract inverted index, a dict from words to lists
    of integer positions, or [None]. *)
Definition inverted_index := dict (list Z).

(** [max(pos)] on a list of ints *)
Definition max_list (pos : list Z) : res Z :=
  match pos with
  | [] => Raise ValueError
  | p :: pos' => Ok (fold_left Z.max pos' p)
  end.

(** [max(max(pos) for pos in index.values())] on a non-empty index; the
    generator computes the inner maxima one after the other. *)
Fixpoint max_positions (values : list (list Z)) (best : Z) : res Z :=
  match values with
  | [] => Ok best
  | pos :: values' => m <- max_list pos ;; max_positions values' (Z.max best m)
  end.

Fixpoint set_nth {A : Type} (n : nat) (x : A) (l : list A) : list A :=
  match l, n with
  | [], _ => []
  | _ :: l', O => x :: l'
  | y :: l', S n' => y :: set_nth n' x l'
  end.

(** [words[pos] = word]: a negative subscript counts from the end. *)
Definition list_assign (words : list string) (pos : Z) (word : string)
  : res (list string) :=
  let len := Z.of_nat (List.length words) in
  if ((0 <=? pos) && (pos <? len))%Z then Ok (set_nth (Z.to_nat pos) word words)
  else if ((- len <=? pos) && (pos <? 0))%Z
  then Ok (set_nth (Z.to_nat (len + pos)) word words)
  else Raise IndexError.

Fixpoint place_word (word : string) (positions : list Z) (words : list string)
  : res (list string) :=
  match positions with
  | [] => Ok words
  | pos :: positions' =>
      words' <- list_assign words pos word ;;
      place_word word positions' words'
  end.

Fixpoint place_words (items : inverted_index) (words : list string)
  : res (list string) :=
  match items with
  | [] => Ok words
  | (word, positions) :: items' =>
      words' <- place_word word positions words ;;
      place_words items' words'
  end.

Definition non_empty (word : string) : bool := negb (String.eqb word "").

Definition extract_abstract (abstract_inverted_index : option inverted_index)
  : res string :=
  match abstract_inverted_index with
  | None | Some [] => Ok "No abstract available"
  | Some (((_, pos0) :: rest) as index) =>
      m0 <- max_list pos0 ;;
      m <- max_positions (map snd rest) m0 ;;
      let abstract_length := (m + 1)%Z in
      let abstract_words := repeat "" (Z.to_nat abstract_length) in
      abstract_words' <- place_words index abstract_words ;;
      Ok (concat " " (filter non_empty abstract_words'))
  end.

(** A JSON value read as an inverted index: a dict whose values are lists
    of ints ([bool] being a subclass of [int]). *)
Definition as_position (v : value) : option Z :=
  match v with
  | VInt z => Some z
  | VBool b => Some (int_of_bool b)
  | _ => None
  end.

Fixpoint as_positions (l : list value) : option (list Z) :=
  match l with
  | [] => Some []
  | v :: l' =>
      match as_position v, as_positions l' with
      | Some z, Some zs => Some (z :: zs)
      | _, _ => None
      end
  end.

Fixpoint as_index_items (d : list (string * value)) : option inverted_index :=
  match d with
  | [] => Some []
  | (word, VList l) :: d' =>
      match as_positions l, as_index_items d' with
      | Some zs, Some items => Some ((word, zs) :: items)
      | _, _ => None
      end
  | _ :: _ => None
  end.

(** [extract_abstract] called on an arbitrary JSON value, as [parse_work]
    does.  A falsy value gives the sentinel.  A truthy value that is not an
    inverted index makes the Python function raise: no [values] method, or
    a [max], a [+ 1], a list repetition or a subscript on operands they do
    not accept.  The class of that exception is not tracked: the only
    caller catches [Exception]. *)
Definition extract_abstract_of (v : value) : option string :=
  if negb (truthy v) then Some "No abstract available"
  else
    match v with
    | VDict d =>
        match as_index_items d with
        | Some index =>
            match extract_abstract (Some index) with
            | Ok s => Some s
            | Raise _ => None
            end
        | None => None
        end
    | _ => None
    end.

(** ** OpenAlexParser.parse_work *)

(** In [parse_work] the state is [parsed_data]. *)

(** [parsed_data[k] = v] *)
Definition store (k : string) (v : value) : stm (dict value) unit :=
  fun pd => (Ok tt, dict_set k v pd).

(** [enumerate(l)] *)
Definition enumerate {A : Type} (l : list A) : list (nat * A) :=
  combine (seq 0 (List.length l)) l.

Definition basic_fields : list string :=
  ["id"; "doi"; "title"; "publication_year"; "language"; "type"].

Definition count_fields : list string :=
  ["referenced_works_count"; "cited_by_count"; "countries_distinct_count";
   "institutions_distinct_count"; "locations_count"; "fwci"].

Section ParseWork.
Variable work_data : value.

Definition parse_basic_field (field : string) : stm (dict value) unit :=
  if String.eqb field "doi" then
    v <~ eval (py_get work_data field (VStr "")) ;; store field v
  else
    v <~ eval (py_get work_data field VNone) ;; store field v.

Definition parse_ids : stm (dict value) unit :=
  ids <~ eval (py_get work_data "ids" (VDict [])) ;;
  pmid <~ eval (py_get ids "pmid" (VStr "")) ;;
  store "pmid" pmid ;;;
  mag <~ eval (py_get ids "mag" (VStr "")) ;;
  store "mag" mag.

Definition parse_apc_paid : stm (dict value) unit :=
  apc_paid_value <~ eval (py_get work_data "apc_paid" VNone) ;;
  match apc_paid_value with
  | VDict _ =>
      v <~ eval (py_get apc_paid_value "value_usd" VNone) ;;
      store "apc_paid" v
  | _ => store "apc_paid" apc_paid_value
  end.

Definition parse_count_field (field : string) : stm (dict value) unit :=
  v <~ eval (py_get work_data field VNone) ;; store field v.

Definition parse_primary_location : stm (dict value) unit :=
  location <~ eval (py_get work_data "primary_location" (VDict [])) ;;
  primary_location <~ eval (py_get location "source" (VDict [])) ;;
  display_name <~ eval (py_get primary_location "display_name" VNone) ;;
  store "primary_location_display_name" display_name ;;;
  host <~ eval (py_get primary_location "host_organization_name" VNone) ;;
  store "primary_location_host_organization_name" host.

Definition parse_publication_date : stm (dict value) unit :=
  publication_date <~ eval (py_get work_data "publication_date" VNone) ;;
  if truthy publication_date then
    v <~ eval (convert_publication_date publication_date) ;;
    store "publication_date" v
  else sret tt.

(** [percentiles.items()] *)
Definition py_items (obj : value) : res (list (string * value)) :=
  match obj with
  | VDict d => Ok d
  | _ => Raise AttributeError
  end.

Definition parse_percentiles : stm (dict value) unit :=
  percentiles <~ eval (py_get work_data "citation_normalized_percentile" (VDict [])) ;;
  items <~ eval (py_items percentiles) ;;
  for_each items (fun kv => store ("percentiles_" ++ fst kv) (snd kv)).

Definition parse_open_access : stm (dict value) unit :=
  open_access <~ eval (py_get work_data "open_access" (VDict [])) ;;
  is_oa <~ eval (py_get open_access "is_oa" VNone) ;;
  store "open_access_is_oa" is_oa ;;;
  oa_status <~ eval (py_get open_access "oa_status" VNone) ;;
  store "open_access_oa_status" oa_status.

Definition grant_key (i : nat) : string :=
  "grants[" ++ str_of_nat i ++ "]_funder_display_name".

Definition parse_grants : stm (dict value) unit :=
  grants <~ eval (py_get work_data "grants" (VList [])) ;;
  items <~ eval (py_iter grants) ;;
  for_each (enumerate items) (fun ig =>
    v <~ eval (py_get (snd ig) "funder_display_name" VNone) ;;
    store (grant_key (fst ig)) v).

Definition parse_countries_codes : stm (dict value) unit :=
  authorships <~ eval (py_get work_data "authorships" (VList [])) ;;
  codes <~ eval (extract_unique_country_codes authorships) ;;
  store "countries_codes" (VStr codes).

(** The test on a path yielded by [find_display_names] *)
Definition retained (path : string) : bool :=
  (contains "authorships" path || contains "topics" path
   || contains "keywords" path
   || contains "sustainable_development_goals" path)
  && contains "display_name" path.

(** The first loop: [display_names[path].append(value)] *)
Fixpoint collect_display_names (found : list (string * value))
  (display_names : dict (list value)) : dict (list value) :=
  match found with
  | [] => display_names
  | (path, value) :: found' =>
      if retained path then
        let old := match dict_get path display_names with
                   | Some vs => vs
                   | None => []
                   end in
        collect_display_names found' (dict_set path (old ++ [value]) display_names)
      else collect_display_names found' display_names
  end.

(** The second loop: keep the first 10 values of a path. *)
Definition cap_display_names (display_names : dict (list value))
  : dict (list value) :=
  map (fun pv =>
         if Nat.ltb 10 (List.length (snd pv))
         then (fst pv, firstn 10 (snd pv))
         else pv) display_names.

Definition parse_display_names : stm (dict value) unit :=
  let display_names :=
    cap_display_names (collect_display_names (find_display_names work_data "") []) in
  for_each display_names (fun pv =>
    s <~ eval (join_pipe (snd pv)) ;;
    store (replace_dots (fst pv)) (VStr s)).

Definition parse_abstract : stm (dict value) unit :=
  v <~ eval (py_get work_data "abstract_inverted_index" VNone) ;;
  match extract_abstract_of v with
  | Some s => store "abstract" (VStr s)
  | None => eval (Raise TypeError)
  end.

(** The [try] blocks of the function, in the order in which they run *)
Definition blocks (include_abstract : bool) : list (stm (dict value) unit) :=
  map parse_basic_field basic_fields
  ++ [parse_ids; parse_apc_paid]
  ++ map parse_count_field count_fields
  ++ [parse_primary_location; parse_publication_date; parse_percentiles;
      parse_open_access; parse_grants; parse_countries_codes;
      parse_display_names]
  ++ (if include_abstract then [parse_abstract] else []).

(** [parsed_data] when the final merge is reached *)
Definition parsed_fields (include_abstract : bool) : dict value :=
  fold_left (fun parsed_data block => try_except block parsed_data)
    (blocks include_abstract) [].

Definition parse_work (include_abstract : bool) : res (dict value) :=
  merge_and_deduplicate (parsed_fields include_abstract).

End ParseWork.


(** ** OpenAlexClient *)

(** The fields of [self], and its session: a GET on a URL with query
    parameters gives the decoded JSON body ([_request] followed by
    [response.json()]), or raises; [_request] turns every transport failure
    into [OpenAlexClientError]. *)
Record OpenAlexClient : Type := {
  base_url : string;
  email : value;
  default_per_page : Z;
  transport : string -> dict value -> res value
}.

Definition WORKS : string := "works".

(** In the client the state is the log of the requests sent so far. *)
Definition request : Type := string * dict value.

Definition io (A : Type) : Type := stm (list request) A.

(** [_build_params], on its keyword arguments *)
Definition is_none (v : value) : bool :=
  match v with
  | VNone => true
  | _ => false
  end.

Definition _build_params (self : OpenAlexClient) (kwargs : dict value)
  : dict value :=
  fold_left (fun params kv =>
               if is_none (snd kv) then params
               else dict_set (fst kv) (snd kv) params)
    kwargs [("mailto", email self)].

(** [self._request('GET', url, params=params).json()] *)
Definition get_json (self : OpenAlexClient) (url : string)
  (params : dict value) : io value :=
  fun log => (transport self url params, log ++ [(url, params)]).

(** [[parse_work(work, include_abstract=abstract) for work in works]] *)
Fixpoint digest_all (works : list value) (abstract : bool) : res (list value) :=
  match works with
  | [] => Ok []
  | work :: works' =>
      d <- parse_work work abstract ;;
      ds <- digest_all works' abstract ;;
      Ok (VDict d :: ds)
  end.

Definition get_resource (self : OpenAlexClient) (api_endpoint resource_id : string)
  (digest abstract : bool) : io value :=
  let url := (base_url self ++ "/" ++ api_endpoint ++ "/" ++ resource_id)%string in
  let params := _build_params self [] in
  data <~ get_json self url params ;;
  if digest && String.eqb api_endpoint WORKS then
    d <~ eval (parse_work data abstract) ;; sret (VDict d)
  else sret data.

Definition list_resources (self : OpenAlexClient) (api_endpoint : string)
  (digest abstract : bool) (kwargs : dict value) : io value :=
  let url := (base_url self ++ "/" ++ api_endpoint)%string in
  let kwargs :=
    match dict_get "per_page" kwargs with
    | Some _ => kwargs
    | None => dict_set "per_page" (VInt (default_per_page self)) kwargs
    end in
  let params := _build_params self kwargs in
  data <~ get_json self url params ;;
  if digest && String.eqb api_endpoint WORKS then
    results <~ eval (py_get data "results" (VList [])) ;;
    works <~ eval (py_iter results) ;;
    digested <~ eval (digest_all works abstract) ;;
    (* data['results'] = digested; data is a dict here, and the final
       data.get('results', []) reads back what was stored *)
    sret (VList digested)
  else eval (py_get data "results" (VList [])).

Definition get_total_count (self : OpenAlexClient) (api_endpoint : string)
  (kwargs : dict value) : io value :=
  let url := (base_url self ++ "/" ++ api_endpoint)%string in
  let kwargs := dict_set "per_page" (VInt 1) kwargs in
  let params := _build_params self kwargs in
  fun log =>
    match (data <~ get_json self url params ;;
           meta <~ eval (py_get data "meta" (VDict [])) ;;
           eval (py_get meta "count" (VInt 0))) log with
    | (Raise OpenAlexClientError, log') => (Ok (VInt 0), log')
    | r => r
    end.

(** [kwargs.pop('page', None)] *)
Fixpoint dict_pop {V : Type} (k : string) (d : dict V) : dict V :=
  match d with
  | [] => []
  | (k', v) :: d' => if String.eqb k' k then d' else (k', v) :: dict_pop k d'
  end.

(** [(total_count + per_page - 1) // per_page], then [range(1, n + 1)]
    accepts the quotient: both operands are ints (or bools). *)
Definition total_pages_of (total_count : value) (per_page : Z) : res Z :=
  match total_count with
  | VInt _ | VBool _ =>
      let t := match total_count with
               | VInt z => z
               | VBool b => int_of_bool b
               | _ => 0%Z
               end in
      if (per_page =? 0)%Z then Raise ZeroDivisionError
      else Ok ((t + per_page - 1) / per_page)%Z
  | VFloat _ =>
      if (per_page =? 0)%Z then Raise ZeroDivisionError else Raise TypeError
  | _ => Raise TypeError
  end.

(** [range(1, total_pages + 1)] *)
Definition page_range (total_pages : Z) : list Z :=
  map Z.of_nat (seq 1 (Z.to_nat total_pages)).

(** [page=page, per_page=per_page, **kwargs] *)
Definition page_kwargs (page per_page : Z) (kwargs : dict value) : dict value :=
  ("page", VInt page) :: ("per_page", VInt per_page) :: kwargs.

(** The [for] loop over the pages, [break] included. *)
Fixpoint fetch_pages (self : OpenAlexClient) (api_endpoint : string)
  (digest abstract : bool) (per_page : Z) (kwargs : dict value) (pages : list Z)
  (all_records : list value) : io (list value) :=
  match pages with
  | [] => sret all_records
  | page :: pages' =>
      fun log =>
        match list_resources self api_endpoint digest abstract
                (page_kwargs page per_page kwargs) log with
        | (Ok response, log') =>
            if truthy response then
              match py_iter response with
              | Ok records =>
                  fetch_pages self api_endpoint digest abstract per_page kwargs
                    pages' (all_records ++ records) log'
              | Raise e => (Raise e, log')
              end
            else (Ok all_records, log')
        | (Raise OpenAlexClientError, log') => (Ok all_records, log')
        | (Raise e, log') => (Raise e, log')
        end
  end.

Definition list_all_resources (self : OpenAlexClient) (api_endpoint : string)
  (digest abstract : bool) (per_page : option Z) (kwargs : dict value)
  : io (list value) :=
  let per_page := match per_page with
                  | None => default_per_page self
                  | Some n => n
                  end in
  let kwargs := dict_pop "page" kwargs in
  total_count <~ get_total_count self api_endpoint kwargs ;;
  if py_eq total_count (VInt 0) then sret []
  else
    total_pages <~ eval (total_pages_of total_count per_page) ;;
    fetch_pages self api_endpoint digest abstract per_page kwargs
      (page_range total_pages) [].


(** * Specification vocabulary *)

(** The distinct elements of a list of values, in the order of their first
    occurrence: what a set holds after the values were added one by one. *)
Definition add_distinct (s : pyset) (v : value) : pyset :=
  if existsb (py_eq v) s then s else s ++ [v].

Definition distinct (vs : list value) : pyset := fold_left add_distinct vs [].

(** The values of the raw fields whose key normalizes to [K], in order. *)
Definition group_values (data : dict value) (K : string) : list value :=
  map snd (filter (fun kv => String.eqb (strip_indices (fst kv)) K) data).

(** What the claim on the merge asks of an output key [K] that some raw key
    normalizes to: the join of the sorted distinct values when there are
    several, the value itself when there is one. *)
Definition merged_as_claimed (data out : dict value) (K : string) : Prop :=
  match distinct (group_values data K) with
  | [] => True
  | [v] => dict_get K out = Some v
  | vs => exists ss, all_strs vs = Some ss
                     /\ dict_get K out = Some (VStr (concat "|" (sort_strings ss)))
  end.

(** C5 as the specification states it: the merge returns a mapping with
    unique, index-free keys, in which the raw keys of one name are merged. *)
Definition merge_claim (data : dict value) : Prop :=
  exists out,
    merge_and_deduplicate data = Ok out
    /\ NoDup (keys out)
    /\ (forall K, In K (keys out) -> has_index K = false)
    /\ (forall K, merged_as_claimed data out K).

(** How one raw field changes the set kept under the name [K]: an indexed
    key adds its value, an index-free key starts the set afresh. *)
Definition merge_step (K : string) (cur : option pyset) (kv : string * value)
  : option pyset :=
  if String.eqb (strip_indices (fst kv)) K then
    Some (add_distinct
            (if has_index (fst kv)
             then match cur with Some s => s | None => [] end
             else [])
            (snd kv))
  else cur.

Definition str_le (s t : string) : Prop := String.leb s t = true.

(** The value the merge gives to a set of at least one element, when it
    gives one: the element of a singleton; for a larger set, which must
    then hold strings only, these strings sorted and joined by pipes. *)
Definition merged_of (s : pyset) (x : value) : Prop :=
  match s with
  | [] => False
  | [v] => x = v
  | _ => exists ss sorted,
           all_strs s = Some ss
           /\ Permutation ss sorted /\ Sorted str_le sorted
           /\ x = VStr (concat "|" sorted)
  end.

Definition is_str (v : value) : bool :=
  match v with
  | VStr _ => true
  | _ => false
  end.

(** A block stores under keys that satisfy [P] only. *)
Definition stores_only {A : Type} (P : string -> Prop)
  (m : stm (dict value) A) : Prop :=
  forall pd,
    (forall k, ~ P k -> dict_get k (snd (m pd)) = dict_get k pd)
    /\ (forall k, In k (keys (snd (m pd))) -> In k (keys pd) \/ P k)
    /\ (NoDup (keys pd) -> NoDup (keys (snd (m pd)))).

(** The keys that [parse_work] writes by name *)
Definition fixed_keys : list string :=
  basic_fields ++ ["pmid"; "mag"; "apc_paid"] ++ count_fields
  ++ ["primary_location_display_name";
      "primary_location_host_organization_name"; "publication_date";
      "open_access_is_oa"; "open_access_oa_status"; "countries_codes";
      "abstract"].

(** The keys of [parsed_data]: the fixed ones, one per percentile, one per
    grant, one per retained display-name path. *)
Inductive field_key : string -> Prop :=
| fk_fixed (k : string) : In k fixed_keys -> field_key k
| fk_percentile (x : string) : field_key ("percentiles_" ++ x)
| fk_grant (i : nat) : field_key (grant_key i)
| fk_display (p : string) : retained p = true -> field_key (replace_dots p).

(** The letter s occurs in the string. *)
Fixpoint has_s (s : string) : bool :=
  match s with
  | EmptyString => false
  | String c s' => Ascii.eqb c "s"%char || has_s s'
  end.

(** The first [k] characters of the string are not the letter s. *)
Fixpoint no_s_prefix (k : nat) (s : string) : Prop :=
  match k, s with
  | O, _ => True
  | S k', String c s' => Ascii.eqb c "s"%char = false /\ no_s_prefix k' s'
  | S _, EmptyString => True
  end.

(** A key that the display-name, percentile and grant fields cannot be
    confused with, before or after the removal of index groups. *)
Definition plain_key (t : string) : Prop :=
  In t fixed_keys /\ has_s t = false
  /\ prefix "percentiles_" t = false /\ prefix "g" t = false.

(** What [work_data.get(field)] gives for a missing basic field *)
Definition basic_default (field : string) : value :=
  if String.eqb field "doi" then VStr "" else VNone.


(** The text YYYY-MM-DD of a date, and the dates of the calendar *)
Definition date_string (year month day : nat) : string :=
  pad4 year ++ "-" ++ pad2 month ++ "-" ++ pad2 day.

Definition valid_date (year month day : nat) : Prop :=
  (1 <= year < 100 * 100 /\ 1 <= month <= 12
   /\ 1 <= day <= days_in_month year month)%nat.

(** What the publication-date block leaves under [publication_date] when
    the record holds [v] there. *)
Definition publication_date_of (v : value) : option value :=
  if truthy v then
    match convert_publication_date v with
    | Ok x => Some x
    | Raise _ => None
    end
  else None.

(** C8 as the specification states it: a basic field of the input is
    copied, a missing one is absent from the output. *)
Definition basic_fields_claim (wd : list (string * value))
  (include_abstract : bool) : Prop :=
  forall out field,
    parse_work (VDict wd) include_abstract = Ok out ->
    In field basic_fields ->
    dict_get field out = dict_get field wd.

(** C4 as the specification states it: a date written YYYY-MM-DD gets its
    suffix, a string that does not parse leaves the field absent. *)
Definition publication_date_claim (wd : list (string * value))
  (include_abstract : bool) : Prop :=
  forall out s,
    parse_work (VDict wd) include_abstract = Ok out ->
    dict_get "publication_date" wd = Some (VStr s) ->
    ((exists y m d, valid_date y m d /\ s = date_string y m d) ->
     dict_get "publication_date" out = Some (VStr (s ++ "T00:00:00Z")))
    /\ (strptime_ymd (VStr s) = Raise ValueError ->
        dict_get "publication_date" out = None).

(** A record with a list of authors, each with a display name *)
Definition author (name : string) : value :=
  VDict [("author", VDict [("display_name", VStr name)])].

Definition authors_record (names : list string) : value :=
  VDict [("authorships", VList (map author names))].

(** A record with a list of grants *)
Definition grant (funder_display_name : value) : value :=
  VDict [("funder_display_name", funder_display_name)].

Definition grants_record (funders : list value) : value :=
  VDict [("grants", VList (map grant funders))].

(** ** Abstract inverted indexes *)

Definition all_positions (index : inverted_index) : list Z :=
  List.concat (map snd index).

(** An inverted index encodes a text: every word has a position, and
    positions count from 0. *)
Definition well_formed_index (index : inverted_index) : Prop :=
  Forall (fun wp => snd wp <> [] /\ Forall (fun p => (0 <= p)%Z) (snd wp)) index.

Definition occurs_at (i : Z) (wp : string * list Z) : bool :=
  existsb (Z.eqb i) (snd wp).

(** The word of the text at position [i]: the last word of the index, in
    its order, that lists [i]; the empty string when no word does. *)
Definition word_at (index : inverted_index) (i : Z) : string :=
  fold_left (fun cur wp => if occurs_at i wp then fst wp else cur) index "".

(** No position is listed by two entries of the index. *)
Definition disjoint_positions (index : inverted_index) : Prop :=
  forall pre wp post i,
    index = pre ++ wp :: post -> occurs_at i wp = true ->
    Forall (fun wp' => occurs_at i wp' = false) post.

(** ** Positions in a record tree *)

(** One step down a tree: into the value of a key, or into an item. *)
Inductive step : Type :=
| Key (k : string)
| Index (i : nat).

Definition child (obj : value) (s : step) (v : value) : Prop :=
  match obj, s with
  | VDict d, Key k => In (k, v) d
  | VList l, Index i => nth_error l i = Some v
  | _, _ => False
  end.

(** [v] is the value found in [obj] by following [steps]. *)
Fixpoint reaches (obj : value) (steps : list step) (v : value) : Prop :=
  match steps with
  | [] => v = obj
  | s :: steps' => exists mid, child obj s mid /\ reaches mid steps' v
  end.

(** The field path of a position, as the traversal writes it *)
Definition render_step (path : string) (s : step) : string :=
  match s with
  | Key k => key_path path k
  | Index i => index_path path i
  end.

Definition render (path : string) (steps : list step) : string :=
  fold_left render_step steps path.

(** The step goes through a key whose name contains display_name. *)
Definition names_display (s : step) : bool :=
  match s with
  | Key k => contains "display_name" k
  | Index _ => false
  end.

(** Induction on values, with the items of lists and dicts *)
Definition value_ind_nested (P : value -> Prop)
  (HNone : P VNone) (HBool : forall b, P (VBool b)) (HInt : forall z, P (VInt z))
  (HFloat : forall f, P (VFloat f)) (HStr : forall s, P (VStr s))
  (HList : forall l, Forall P l -> P (VList l))
  (HDict : forall d, Forall (fun kv => P (snd kv)) d -> P (VDict d))
  : forall v, P v :=
  fix go (v : value) : P v :=
    match v with
    | VNone => HNone
    | VBool b => HBool b
    | VInt z => HInt z
    | VFloat f => HFloat f
    | VStr s => HStr s
    | VList l =>
        HList l ((fix items (l : list value) : Forall P l :=
                    match l with
                    | [] => Forall_nil P
                    | x :: l' => Forall_cons x (go x) (items l')
                    end) l)
    | VDict d =>
        HDict d ((fix items (d : list (string * value))
                    : Forall (fun kv => P (snd kv)) d :=
                    match d with
                    | [] => Forall_nil _
                    | kv :: d' => Forall_cons kv (go (snd kv)) (items d')
                    end) d)
    end.

(** ** Requests of the pagination *)

Definition endpoint_url (self : OpenAlexClient) (api_endpoint : string) : string :=
  base_url self ++ "/" ++ api_endpoint.

(** The request of the count query *)
Definition count_request (self : OpenAlexClient) (api_endpoint : string)
  (kwargs : dict value) : request :=
  (endpoint_url self api_endpoint,
   _build_params self (dict_set "per_page" (VInt 1) kwargs)).

(** The request of one page *)
Definition page_request (self : OpenAlexClient) (api_endpoint : string)
  (per_page : Z) (kwargs : dict value) (page : Z) : request :=
  (endpoint_url self api_endpoint,
   _build_params self (page_kwargs page per_page kwargs)).

(** The pages 1 to [k] *)
Definition pages_upto (k : nat) : list Z := map Z.of_nat (seq 1 k).

(** A server with 25 records, served as ten per page; the page
    [fail_page], if any, answers with an error. *)
Definition example_record (i : nat) : value := VDict [("id", VInt (Z.of_nat i))].

Definition example_page (page : Z) : list value :=
  if Z.eqb page 1 then map example_record (seq 1 10)
  else if Z.eqb page 2 then map example_record (seq 11 10)
  else if Z.eqb page 3 then map example_record (seq 21 5)
  else [].

Definition example_transport (fail_page : option Z) (url : string)
  (params : dict value) : res value :=
  match dict_get "page" params with
  | None => Ok (VDict [("meta", VDict [("count", VInt 25)])])
  | Some (VInt page) =>
      match fail_page with
      | Some failing =>
          if Z.eqb page failing then Raise OpenAlexClientError
          else Ok (VDict [("results", VList (example_page page))])
      | None => Ok (VDict [("results", VList (example_page page))])
      end
  | Some _ => Raise OpenAlexClientError
  end.

Definition example_client (fail_page : option Z) : OpenAlexClient :=
  {| base_url := "https://api.openalex.org";
     email := VNone;
     default_per_page := 10;
     transport := example_transport fail_page |}.

(** ** Display names *)

(** The values that the traversal yields with the path [p], in the order
    in which it yields them *)
Definition path_values (w : value) (p : string) : list value :=
  map snd (filter (fun pv => String.eqb (fst pv) p) (find_display_names w "")).

(** The paths under which the record yields a value that is retained *)
Definition retained_path (w : value) (p : string) : Prop :=
  retained p = true /\ path_values w p <> [].

(** The values of the display-name family that end under the output key
    [K], in encounter order *)
Definition family_values (w : value) (K : string) : list value :=
  map snd
    (filter (fun pv => retained (fst pv)
                       && String.eqb (strip_indices (replace_dots (fst pv))) K)
       (find_display_names w "")).

(** C2 as the specification states it: the fields of the display-name
    family hold their values joined in encounter order. *)
Definition display_names_claim (w : value) (include_abstract : bool) : Prop :=
  forall out K ss,
    parse_work w include_abstract = Ok out ->
    all_strs (family_values w K) = Some ss -> ss <> [] ->
    dict_get K out = Some (VStr (concat "|" ss)).

(** The path and the flat key of the display name of the author at index
    [i] of [authorships] *)
Definition author_path (i : nat) : string :=
  "authorships[" ++ str_of_nat i ++ "].author.display_name".

Definition author_key (i : nat) : string :=
  "authorships[" ++ str_of_nat i ++ "]_author_display_name".

Fixpoint all_digits (s : string) : bool :=
  match s with
  | EmptyString => true
  | String c s' => is_digit c && all_digits s'
  end.

(** What [parse_work] stores for a record that has none of the fields
    with a fixed name *)
Definition default_fields : dict value :=
  [("id", VNone); ("doi", VStr ""); ("title", VNone);
   ("publication_year", VNone); ("language", VNone); ("type", VNone);
   ("pmid", VStr ""); ("mag", VStr ""); ("apc_paid", VNone);
   ("referenced_works_count", VNone); ("cited_by_count", VNone);
   ("countries_distinct_count", VNone);
   ("institutions_distinct_count", VNone); ("locations_count", VNone);
   ("fwci", VNone); ("primary_location_display_name", VNone);
   ("primary_location_host_organization_name", VNone);
   ("open_access_is_oa", VNone); ("open_access_oa_status", VNone);
   ("countries_codes", VStr "")].

(** The fields that the display-name block stores for a list of authors *)
Definition author_fields (names : list string) : dict value :=
  map (fun iv => (author_key (fst iv), VStr (snd iv))) (enumerate names).

(** The distinct strings of a list, in the order of their first occurrence *)
Definition distinct_strings (l : list string) : list string :=
  fold_left (fun seen x => if existsb (String.eqb x) seen then seen else seen ++ [x])
    l [].

(** ** More specification vocabulary *)

(** A character that the removal of index groups and the replacement of
    dots both leave alone *)
Definition plain_char (c : ascii) : bool :=
  negb (Ascii.eqb c "[" || Ascii.eqb c "]" || is_digit c || Ascii.eqb c ".").

Fixpoint plain (s : string) : bool :=
  match s with
  | EmptyString => true
  | String c s' => plain_char c && plain s'
  end.

(** The first [k] characters of the string are not plain. *)
Fixpoint skipped_prefix (k : nat) (s : string) : Prop :=
  match k, s with
  | O, _ => True
  | S k', String c s' => plain_char c = false /\ skipped_prefix k' s'
  | S _, EmptyString => True
  end.

(** The mapping that a projection block of [parse_work] reads its fields
    from: the value under [k], the empty mapping when [k] is missing, and
    nothing when the value is not a mapping (the [get] on it raises). *)
Definition sub_mapping (d : list (string * value)) (k : string)
  : option (list (string * value)) :=
  match dict_get k d with
  | None => Some []
  | Some (VDict m) => Some m
  | Some _ => None
  end.

(** [m.get(k, default)] *)
Definition get_or (m : list (string * value)) (k : string) (default : value)
  : value :=
  match dict_get k m with
  | Some v => v
  | None => default
  end.

(** The source of the primary location of a record *)
Definition primary_source (wd : list (string * value))
  : option (list (string * value)) :=
  match sub_mapping wd "primary_location" with
  | Some location => sub_mapping location "source"
  | None => None
  end.


(** The country codes of an authorship whose [countries], when it has the
    key, is a list of strings *)
Definition countries_of (author : value) : option (list string) :=
  match author with
  | VDict d =>
      match dict_get "countries" d with
      | None => Some []
      | Some (VList l) => all_strs l
      | Some _ => None
      end
  | _ => None
  end.

(** A JSON value that is neither a list nor a mapping *)
Definition scalar (v : value) : bool :=
  match v with
  | VList _ | VDict _ => false
  | _ => true
  end.

(** The items that the percentile block of [parse_work] goes through:
    those of [citation_normalized_percentile], none when the record has
    no such mapping (the [items] on another value raises). *)
Definition percentile_items (wd : list (string * value))
  : list (string * value) :=
  match sub_mapping wd "citation_normalized_percentile" with
  | Some percentiles => percentiles
  | None => []
  end.

(** The keys of [parsed_data] for a record whose percentile mapping has
    the keys [pc] *)
Inductive record_key (pc : list string) : string -> Prop :=
| rk_fixed (k : string) : In k fixed_keys -> record_key pc k
| rk_percentile (x : string) : In x pc -> record_key pc ("percentiles_" ++ x)
| rk_grant (i : nat) : record_key pc (grant_key i)
| rk_display (p : string) : retained p = true -> record_key pc (replace_dots p).

(** What the grants block iterates on: the items of [grants], none when
    the value cannot be iterated on. *)
Definition grant_items (wd : list (string * value)) : list value :=
  match py_iter (get_or wd "grants" (VList [])) with
  | Ok grants => grants
  | Raise _ => []
  end.

(** The funder names that the grants block stores, in order: the block
    stops at the first grant that is not a mapping. *)
Fixpoint stored_funders (grants : list value) : list value :=
  match grants with
  | VDict grant :: grants' =>
      get_or grant "funder_display_name" VNone :: stored_funders grants'
  | _ => []
  end.

(** The fields that the grants block stores, the first of them under the
    index [i] *)
Fixpoint stored_grants (i : nat) (grants : list value) : dict value :=
  match grants with
  | VDict grant :: grants' =>
      (grant_key i, get_or grant "funder_display_name" VNone)
        :: stored_grants (S i) grants'
  | _ => []
  end.

(** A block leaves the fields of the output name [K] as they are. *)
Definition keeps_group {A : Type} (K : string) (m : stm (dict value) A) : Prop :=
  forall pd, group_values (snd (m pd)) K = group_values pd K.

(** The request that [list_resources] sends *)
Definition list_request (self : OpenAlexClient) (api_endpoint : string)
  (kwargs : dict value) : request :=
  (endpoint_url self api_endpoint,
   _build_params self
     match dict_get "per_page" kwargs with
     | Some _ => kwargs
     | None => dict_set "per_page" (VInt (default_per_page self)) kwargs
     end).

(** The request that [get_resource] sends *)
Definition resource_request (self : OpenAlexClient)
  (api_endpoint resource_id : string) : request :=
  ((base_url self ++ "/" ++ api_endpoint ++ "/" ++ resource_id)%string,
   [("mailto", email self)]).

(** What the abstract block of [parse_work] stores, if anything *)
Definition stored_abstract (w : value) : option string :=
  match py_get w "abstract_inverted_index" VNone with
  | Ok v => extract_abstract_of v
  | Raise _ => None
  end.

(** A date written without zero padding of the month and the day *)
Definition unpadded_date_string (year month day : nat) : string :=
  pad4 year ++ "-" ++ str_of_nat month ++ "-" ++ str_of_nat day.

(** A client whose requests all get the same answer *)
Definition constant_client (answer : res value) : OpenAlexClient :=
  {| base_url := "https://api.openalex.org";
     email := VNone;
     default_per_page := 10;
     transport := fun _ _ => answer |}.

(** A record without nesting: every value is a scalar, and no key
    contains display_name. *)
Definition flat_record (wd : list (string * value)) : Prop :=
  Forall (fun kv => scalar (snd kv) = true
                    /\ contains "display_name" (fst kv) = false) wd.


(** C6 as the specification states it: on an index that is not empty, the
    function fills a sequence of length (maximum position) + 1 in which
    every word is at each of its positions, and returns its non-empty
    slots joined by spaces. *)
Definition abstract_claim (index : inverted_index) : Prop :=
  index <> [] ->
  exists m words,
    In m (all_positions index)
    /\ (forall p, In p (all_positions index) -> (p <= m)%Z)
    /\ List.length words = Z.to_nat (m + 1)
    /\ (forall word positions p,
          In (word, positions) index -> In p positions ->
          nth (Z.to_nat p) words "" = word)
    /\ extract_abstract (Some index)
       = Ok (concat " " (filter (fun word => negb (String.eqb word "")) words)).

(** The server of [example_client], except that the page [bad_page]
    fails with the exception [e]. *)
Definition faulty_client (e : exn) (bad_page : Z) : OpenAlexClient :=
  {| base_url := "https://api.openalex.org";
     email := VNone;
     default_per_page := 10;
     transport := fun url params =>
       match dict_get "page" params with
       | Some (VInt page) =>
           if Z.eqb page bad_page then Raise e
           else example_transport None url params
       | _ => example_transport None url params
       end |}.

(** C7 as the specification states it, for its part on failures: when the
    pages 1 to [k] answer with records and the request of the page [k + 1]
    fails, the records of the pages 1 to [k] are returned. *)
Definition partial_results_claim (self : OpenAlexClient) (api_endpoint : string)
  (per_page : Z) : Prop :=
  forall (recs : Z -> list value) (k : nat) (e : exn),
    (forall page, In page (pages_upto k) ->
       fst (list_resources self api_endpoint false false
              (page_kwargs page per_page []) [])
       = Ok (VList (recs page)) /\ recs page <> []) ->
    fst (list_resources self api_endpoint false false
           (page_kwargs (Z.of_nat (S k)) per_page []) []) = Raise e ->
    fst (list_all_resources self api_endpoint false false (Some per_page) [] [])
    = Ok (flat_map recs (pages_upto k)).

(** * Properties *)

(** ** sorted() on strings *)

Lemma insert_sorted_perm (x : string) (l : list string) :
  Permutation (x :: l) (insert_sorted x l).
Proof.
  induction l as [|y l IH]; simpl; [reflexivity|].
  destruct (String.leb x y); [reflexivity|].
  rewrite perm_swap. now constructor.
Qed.

Lemma sort_strings_perm (l : list string) : Permutation l (sort_strings l).
Proof.
  induction l as [|x l IH]; simpl; [constructor|].
  rewrite <- insert_sorted_perm. now constructor.
Qed.

Lemma insert_sorted_sorted (x : string) (l : list string) :
  Sorted str_le l -> Sorted str_le (insert_sorted x l).
Proof.
  induction 1 as [|y l Hs IH Hhd]; simpl.
  - repeat constructor.
  - destruct (String.leb x y) eqn:E.
    + constructor; [now constructor | now constructor].
    + constructor; [exact IH|].
      assert (Hyx : str_le y x).
      { destruct (String.leb_total x y) as [H|H]; [congruence | exact H]. }
      destruct l as [|z l]; simpl.
      * now constructor.
      * inversion Hhd; subst. destruct (String.leb x z); now constructor.
Qed.

Lemma sort_strings_sorted (l : list string) : Sorted str_le (sort_strings l).
Proof.
  induction l as [|x l IH]; simpl; [constructor | now apply insert_sorted_sorted].
Qed.


(** ** Dictionaries *)

Lemma dict_get_set_same {V : Type} (k : string) (v : V) (d : dict V) :
  dict_get k (dict_set k v d) = Some v.
Proof.
  induction d as [|[k' v'] d IH]; simpl.
  - now rewrite String.eqb_refl.
  - destruct (String.eqb k' k) eqn:E; simpl.
    + now rewrite String.eqb_refl.
    + now rewrite E.
Qed.

Lemma dict_get_set_other {V : Type} (k k' : string) (v : V) (d : dict V) :
  k <> k' -> dict_get k' (dict_set k v d) = dict_get k' d.
Proof.
  intros Hne. induction d as [|[k0 v0] d IH]; simpl.
  - destruct (String.eqb k k') eqn:E; [apply String.eqb_eq in E; contradiction | reflexivity].
  - destruct (String.eqb k0 k) eqn:E; simpl.
    + apply String.eqb_eq in E. subst k0.
      destruct (String.eqb k k') eqn:E'; [apply String.eqb_eq in E'; contradiction | reflexivity].
    + destruct (String.eqb k0 k'); [reflexivity | exact IH].
Qed.

Lemma keys_dict_set {V : Type} (k k' : string) (v : V) (d : dict V) :
  In k' (keys (dict_set k v d)) <-> k' = k \/ In k' (keys d).
Proof.
  unfold keys. induction d as [|[k0 v0] d IH]; simpl.
  - intuition.
  - destruct (String.eqb k0 k) eqn:E; simpl.
    + apply String.eqb_eq in E. subst k0. intuition.
    + rewrite IH. intuition.
Qed.

Lemma NoDup_keys_dict_set {V : Type} (k : string) (v : V) (d : dict V) :
  NoDup (keys d) -> NoDup (keys (dict_set k v d)).
Proof.
  unfold keys. induction d as [|[k0 v0] d IH]; simpl; intros Hnd.
  - constructor; [intros [] | constructor].
  - inversion Hnd as [|? ? Hnin Hnd']; subst.
    destruct (String.eqb k0 k) eqn:E; simpl.
    + apply String.eqb_eq in E. subst k0. now constructor.
    + constructor; [|now apply IH].
      intros Hin. apply (keys_dict_set k k0 v d) in Hin.
      destruct Hin as [->|Hin]; [now rewrite String.eqb_refl in E | contradiction].
Qed.

Lemma dict_get_None {V : Type} (k : string) (d : dict V) :
  dict_get k d = None <-> ~ In k (keys d).
Proof.
  unfold keys. induction d as [|[k0 v0] d IH]; simpl.
  - intuition.
  - destruct (String.eqb k0 k) eqn:E.
    + apply String.eqb_eq in E. subst. split; [discriminate | intros H; exfalso; apply H; now left].
    + apply String.eqb_neq in E. rewrite IH. intuition.
Qed.

Lemma dict_get_In {V : Type} (k : string) (v : V) (d : dict V) :
  dict_get k d = Some v -> In (k, v) d.
Proof.
  induction d as [|[k0 v0] d IH]; simpl; [discriminate|].
  destruct (String.eqb k0 k) eqn:E.
  - apply String.eqb_eq in E. intros [= ->]. subst. now left.
  - intros H. right. now apply IH.
Qed.

Lemma dict_set_fresh {V : Type} (k : string) (v : V) (d : dict V) :
  ~ In k (keys d) -> dict_set k v d = d ++ [(k, v)].
Proof.
  unfold keys. induction d as [|[k' v'] d IH]; simpl; intros Hk; [reflexivity|].
  destruct (String.eqb k' k) eqn:E.
  - apply String.eqb_eq in E. tauto.
  - rewrite IH; tauto.
Qed.

Lemma keys_app {V : Type} (d d' : dict V) : keys (d ++ d') = keys d ++ keys d'.
Proof. apply map_app. Qed.

(** ** Index groups in keys *)

Lemma has_index_false_inv (c : ascii) (s : string) :
  has_index (String c s) = false ->
  index_match (String c s) = None /\ has_index s = false.
Proof.
  cbn [has_index]. destruct (index_match (String c s)); [discriminate | auto].
Qed.

Lemma strip_index_free (s : string) :
  has_index s = false -> strip_indices s = s.
Proof.
  unfold strip_indices. induction s as [|c s IH]; [reflexivity|].
  intros H. apply has_index_false_inv in H. destruct H as [Hm Hs].
  cbn [strip_from]. rewrite Hm. now rewrite IH.
Qed.

(** ** The loop of merge_and_deduplicate *)

Lemma set_add_Ok (v : value) (s s' : pyset) :
  set_add v s = Ok s' -> hashable v = true /\ s' = add_distinct s v.
Proof.
  unfold set_add, add_distinct. destruct (hashable v); [|discriminate].
  intros [= <-]. auto.
Qed.

Lemma set_add_hashable (v : value) (s : pyset) :
  hashable v = true -> set_add v s = Ok (add_distinct s v).
Proof. unfold set_add, add_distinct. now intros ->. Qed.

Lemma set_add_Raise (v : value) (s : pyset) (e : exn) :
  set_add v s = Raise e -> e = TypeError /\ hashable v = false.
Proof.
  unfold set_add. destruct (hashable v); [discriminate|]. now intros [= <-].
Qed.

Lemma merge_loop_get (data : dict value) :
  forall md md', merge_loop data md = Ok md' ->
  forall K, dict_get K md' = fold_left (merge_step K) data (dict_get K md).
Proof.
  induction data as [|[key v] data IH]; intros md md' H K; simpl in H.
  - now injection H as <-.
  - cbn [fold_left]. unfold merge_step at 2. cbn [fst snd].
    destruct (has_index key) eqn:Hidx.
    + destruct (set_add v _) as [s|e] eqn:Hadd; simpl in H; [|discriminate].
      apply set_add_Ok in Hadd. destruct Hadd as [_ ->].
      rewrite (IH _ _ H K). f_equal.
      destruct (String.eqb (strip_indices key) K) eqn:E.
      * apply String.eqb_eq in E. subst K. rewrite dict_get_set_same.
        now destruct (dict_get (strip_indices key) md).
      * apply String.eqb_neq in E. now rewrite dict_get_set_other.
    + destruct (set_add v []) as [s|e] eqn:Hadd; simpl in H; [|discriminate].
      apply set_add_Ok in Hadd. destruct Hadd as [_ ->].
      rewrite (IH _ _ H K). f_equal.
      rewrite (strip_index_free key Hidx).
      destruct (String.eqb key K) eqn:E.
      * apply String.eqb_eq in E. subst K. now rewrite dict_get_set_same.
      * apply String.eqb_neq in E. now rewrite dict_get_set_other.
Qed.

Lemma merge_loop_keys (data : dict value) :
  forall md md', merge_loop data md = Ok md' ->
  (forall K, In K (keys md') <->
             In K (keys md) \/ exists k, In k (keys data) /\ strip_indices k = K)
  /\ (NoDup (keys md) -> NoDup (keys md')).
Proof.
  induction data as [|[key v] data IH]; intros md md' H; simpl in H.
  - injection H as <-. split; [|auto].
    intros K. split; [auto | intros [?|[k [[] _]]]; auto].
  - assert (Hstep : exists s, merge_loop data (dict_set (strip_indices key) s md) = Ok md').
    { destruct (has_index key) eqn:Hidx.
      - destruct (set_add v _) as [s|e]; simpl in H; [eauto | discriminate].
      - destruct (set_add v []) as [s|e]; simpl in H; [|discriminate].
        rewrite (strip_index_free key Hidx). eauto. }
    destruct Hstep as [s Hs]. destruct (IH _ _ Hs) as [Hk Hnd]. split.
    + intros K. rewrite Hk, keys_dict_set. unfold keys. simpl. split.
      * intros [[->|?]|[k [Hin Hst]]]; eauto 6.
      * intros [?|[k [[<-|Hin] Hst]]]; eauto 6.
    + intros Hmd. apply Hnd. now apply NoDup_keys_dict_set.
Qed.

Lemma merge_loop_nonempty (data : dict value) :
  forall md md', merge_loop data md = Ok md' ->
  (forall K s, dict_get K md = Some s -> s <> []) ->
  forall K s, dict_get K md' = Some s -> s <> [].
Proof.
  intros md md' H Hmd K s Hget.
  rewrite (merge_loop_get data md md' H K) in Hget.
  assert (Hgen : forall cur : option pyset,
             (forall s0, cur = Some s0 -> s0 <> []) ->
             fold_left (merge_step K) data cur = Some s -> s <> []).
  { clear. induction data as [|kv data IH]; simpl; intros cur Hcur Hf.
    - now apply Hcur.
    - apply (IH (merge_step K cur kv)); [|exact Hf].
      intros s0. unfold merge_step.
      destruct (String.eqb (strip_indices (fst kv)) K); [|apply Hcur].
      intros [= <-]. unfold add_distinct.
      destruct (existsb _ _) eqn:E.
      + intros Hnil. rewrite Hnil in E. discriminate.
      + intros Hnil. apply app_eq_nil in Hnil. destruct Hnil; discriminate. }
  apply (Hgen (dict_get K md)); [apply Hmd | exact Hget].
Qed.

Lemma merge_loop_total (data : dict value) :
  Forall (fun kv => hashable (snd kv) = true) data ->
  forall md, exists md', merge_loop data md = Ok md'.
Proof.
  induction 1 as [|[key v] data Hv Hd IH]; intros md; simpl.
  - eauto.
  - simpl in Hv. destruct (has_index key).
    + rewrite (set_add_hashable v _ Hv). simpl. apply IH.
    + rewrite (set_add_hashable v _ Hv). simpl. apply IH.
Qed.

Lemma merge_loop_raises (data : dict value) :
  forall md e, merge_loop data md = Raise e -> e = TypeError.
Proof.
  induction data as [|[key v] data IH]; intros md e H; simpl in H; [discriminate|].
  destruct (has_index key).
  - destruct (set_add v _) as [s|e'] eqn:Hadd; simpl in H.
    + eapply IH; eauto.
    + injection H as <-. now apply set_add_Raise in Hadd.
  - destruct (set_add v []) as [s|e'] eqn:Hadd; simpl in H.
    + eapply IH; eauto.
    + injection H as <-. now apply set_add_Raise in Hadd.
Qed.

(** ** The comprehension of merge_and_deduplicate *)

Lemma all_strs_is_str (l : list value) :
  Forall (fun v => is_str v = true) l -> exists ss, all_strs l = Some ss.
Proof.
  induction 1 as [|v l Hv Hl [ss IH]]; simpl; [eauto|].
  destruct v; try discriminate. rewrite IH. simpl. eauto.
Qed.

Lemma merged_value_many (a b : value) (r : pyset) :
  merged_value (a :: b :: r) =
  match all_strs (a :: b :: r) with
  | Some ss => Ok (VStr (concat "|" (sort_strings ss)))
  | None => Raise TypeError
  end.
Proof.
  unfold merged_value, join_sorted.
  change (Nat.ltb 1 (List.length (a :: b :: r))) with true. cbv iota.
  now destruct (all_strs (a :: b :: r)).
Qed.

Lemma merged_value_Ok (s : pyset) (x : value) :
  merged_value s = Ok x -> merged_of s x.
Proof.
  destruct s as [|a [|b r]].
  - discriminate.
  - cbn. now intros [= <-].
  - rewrite merged_value_many.
    change (merged_of (a :: b :: r) x)
      with (exists ss sorted,
               all_strs (a :: b :: r) = Some ss
               /\ Permutation ss sorted /\ Sorted str_le sorted
               /\ x = VStr (concat "|" sorted)).
    destruct (all_strs (a :: b :: r)) as [ss|]; [|discriminate].
    intros [= <-]. exists ss, (sort_strings ss).
    auto using sort_strings_perm, sort_strings_sorted.
Qed.

Lemma merged_value_Raise (s : pyset) (e : exn) :
  s <> [] -> merged_value s = Raise e -> e = TypeError.
Proof.
  destruct s as [|a [|b r]]; [congruence | cbn; discriminate |].
  intros _. rewrite merged_value_many.
  destruct (all_strs (a :: b :: r)); congruence.
Qed.

Lemma merged_value_total (s : pyset) :
  s <> [] -> Forall (fun v => is_str v = true) s -> exists x, merged_value s = Ok x.
Proof.
  intros Hne Hs.
  destruct s as [|a [|b r]]; [congruence | cbn; eauto |].
  rewrite merged_value_many.
  destruct (all_strs_is_str _ Hs) as [ss ->]. eauto.
Qed.

Lemma merge_finish_get (md : dict pyset) :
  forall out, merge_finish md = Ok out ->
  keys out = keys md
  /\ forall K, match dict_get K md with
               | Some s => exists x, merged_value s = Ok x /\ dict_get K out = Some x
               | None => dict_get K out = None
               end.
Proof.
  induction md as [|[k s] md IH]; intros out H; simpl in H.
  - injection H as <-. split; [reflexivity | intros K; reflexivity].
  - destruct (merged_value s) as [x|e] eqn:Hx; simpl in H; [|discriminate].
    destruct (merge_finish md) as [out'|e] eqn:Hout; simpl in H; [|discriminate].
    injection H as <-. destruct (IH out' eq_refl) as [Hk Hg]. split.
    + unfold keys in *. simpl. now rewrite Hk.
    + intros K. simpl. destruct (String.eqb k K); [eauto | apply Hg].
Qed.

Lemma merge_finish_Raise (md : dict pyset) (e : exn) :
  Forall (fun ks => snd ks <> []) md -> merge_finish md = Raise e -> e = TypeError.
Proof.
  induction 1 as [|[k s] md Hs Hmd IH]; simpl; [discriminate|].
  destruct (merged_value s) as [x|e'] eqn:Hx; simpl.
  - destruct (merge_finish md) as [out'|e'] eqn:Hout; simpl; [discriminate|].
    intros [= <-]. now apply IH.
  - intros [= <-]. eapply merged_value_Raise; eauto.
Qed.

Lemma merge_finish_total (md : dict pyset) :
  Forall (fun ks => snd ks <> [] /\ Forall (fun v => is_str v = true) (snd ks)) md ->
  exists out, merge_finish md = Ok out.
Proof.
  induction 1 as [|[k s] md [Hne Hs] Hmd [out IH]]; simpl; [eauto|].
  simpl in *. destruct (merged_value_total s Hne Hs) as [x ->]. simpl.
  rewrite IH. simpl. eauto.
Qed.

(** ** The sets of the merge, read off the input *)

Lemma fold_merge_step_indexed (K : string) (data : dict value) :
  (forall kv, In kv data -> strip_indices (fst kv) = K -> has_index (fst kv) = true) ->
  forall cur,
    fold_left (merge_step K) data cur =
    match group_values data K with
    | [] => cur
    | vs => Some (fold_left add_distinct vs match cur with Some s => s | None => [] end)
    end.
Proof.
  unfold group_values.
  induction data as [|[k v] data IH]; intros Hidx cur; simpl; [reflexivity|].
  rewrite IH by (intros kv Hin; apply Hidx; now right).
  unfold merge_step. cbn [fst snd].
  destruct (String.eqb (strip_indices k) K) eqn:E; [|reflexivity].
  apply String.eqb_eq in E.
  pose proof (Hidx (k, v) (or_introl eq_refl) E) as Hk. cbn [fst] in Hk.
  rewrite Hk. simpl.
  now destruct (map snd _).
Qed.

Lemma fold_merge_step_app (K : string) (pre post : dict value) (v : value) :
  has_index K = false -> ~ In K (keys post) ->
  forall cur,
    fold_left (merge_step K) (pre ++ (K, v) :: post) cur =
    Some (distinct (v :: group_values post K)).
Proof.
  intros Hfree Hnin cur. rewrite fold_left_app. cbn [fold_left].
  unfold merge_step at 2. cbn [fst snd].
  rewrite (strip_index_free K Hfree), String.eqb_refl, Hfree.
  rewrite fold_merge_step_indexed.
  - unfold distinct. cbn [fold_left]. now destruct (group_values post K).
  - intros [k w] Hin Hst. cbn [fst] in *.
    destruct (has_index k) eqn:Hk; [reflexivity|].
    rewrite (strip_index_free k Hk) in Hst. subst k.
    exfalso. apply Hnin. unfold keys. now apply (in_map fst) in Hin.
Qed.

Lemma merge_loop_elements (data : dict value) :
  forall md md', merge_loop data md = Ok md' ->
  forall K s x, In (K, s) md' -> In x s ->
    (exists K0 s0, In (K0, s0) md /\ In x s0) \/ In x (map snd data).
Proof.
  assert (Hset : forall (k : string) (s : pyset) (md : dict pyset) K0 s0,
             In (K0, s0) (dict_set k s md) -> In (K0, s0) md \/ s0 = s).
  { intros k s md K0 s0. induction md as [|[k1 s1] md IH]; simpl.
    - intros [[= <- <-]|[]]. now right.
    - destruct (String.eqb k1 k); simpl.
      + intros [[= <- <-]|?]; auto.
      + intros [?|?]; auto. destruct (IH H); auto. }
  assert (Hadd : forall (s : pyset) v x, In x (add_distinct s v) -> In x s \/ x = v).
  { intros s v x. unfold add_distinct. destruct (existsb _ _); [auto|].
    intros Hin. apply in_app_or in Hin. destruct Hin as [?|[<-|[]]]; auto. }
  induction data as [|[key v] data IH]; intros md md' H K s x HK Hx; simpl in H.
  - injection H as <-. left. eauto.
  - destruct (has_index key).
    + destruct (set_add v _) as [s1|e] eqn:Ha; simpl in H; [|discriminate].
      apply set_add_Ok in Ha. destruct Ha as [_ ->].
      destruct (IH _ _ H K s x HK Hx) as [[K0 [s0 [Hin Hx0]]]|Hin].
      * apply Hset in Hin. destruct Hin as [Hin| ->]; [left; eauto|].
        apply Hadd in Hx0. destruct Hx0 as [Hx0| ->]; [|right; now left].
        destruct (dict_get (strip_indices key) md) as [s2|] eqn:Hg; [|contradiction].
        left. exists (strip_indices key), s2. split; [now apply dict_get_In | exact Hx0].
      * right. now right.
    + destruct (set_add v []) as [s1|e] eqn:Ha; simpl in H; [|discriminate].
      apply set_add_Ok in Ha. destruct Ha as [_ ->].
      destruct (IH _ _ H K s x HK Hx) as [[K0 [s0 [Hin Hx0]]]|Hin].
      * apply Hset in Hin. destruct Hin as [Hin| ->]; [left; eauto|].
        apply Hadd in Hx0. destruct Hx0 as [[]| ->]. right. now left.
      * right. now right.
Qed.

(** ** merge_and_deduplicate *)

Lemma NoDup_keys_In_get {V : Type} (d : dict V) (k : string) (v : V) :
  NoDup (keys d) -> In (k, v) d -> dict_get k d = Some v.
Proof.
  unfold keys. induction d as [|[k1 v1] d IH]; simpl; [intros _ []|].
  intros Hnd [[= -> ->]|Hin].
  - now rewrite String.eqb_refl.
  - inversion Hnd as [|? ? Hnin Hnd']; subst.
    destruct (String.eqb k1 k) eqn:E; [|now apply IH].
    apply String.eqb_eq in E. subst k1. exfalso. apply Hnin.
    now apply (in_map fst) in Hin.
Qed.

Lemma merge_loop_sets_nonempty (data : dict value) (md : dict pyset) :
  merge_loop data [] = Ok md -> Forall (fun ks => snd ks <> []) md.
Proof.
  intros Hloop. apply Forall_forall. intros [K s] Hin. simpl.
  destruct (merge_loop_keys data [] md Hloop) as [_ Hnd].
  apply (merge_loop_nonempty data [] md Hloop) with (K := K).
  - discriminate.
  - apply NoDup_keys_In_get; [apply Hnd; constructor | exact Hin].
Qed.

Lemma merge_and_deduplicate_Raise (data : dict value) (e : exn) :
  merge_and_deduplicate data = Raise e -> e = TypeError.
Proof.
  unfold merge_and_deduplicate.
  destruct (merge_loop data []) as [md|e'] eqn:Hloop; simpl.
  - apply merge_finish_Raise. now apply merge_loop_sets_nonempty with (data := data).
  - intros [= <-]. eapply merge_loop_raises; eauto.
Qed.

(** The shape of a result of the merge, shared by the statements below. *)
Lemma merge_and_deduplicate_char (data out : dict value) :
  merge_and_deduplicate data = Ok out ->
  NoDup (keys out)
  /\ (forall K, In K (keys out) <->
                exists k, In k (keys data) /\ strip_indices k = K)
  /\ (forall K,
        (forall kv, In kv data -> strip_indices (fst kv) = K ->
                    has_index (fst kv) = true) ->
        group_values data K <> [] ->
        exists x, dict_get K out = Some x
                  /\ merged_of (distinct (group_values data K)) x)
  /\ (forall pre K v post,
        data = pre ++ (K, v) :: post ->
        has_index K = false -> ~ In K (keys post) ->
        exists x, dict_get K out = Some x
                  /\ merged_of (distinct (v :: group_values post K)) x).
Proof.
  unfold merge_and_deduplicate.
  destruct (merge_loop data []) as [md|e] eqn:Hloop; simpl; [|discriminate].
  intros Hfin. destruct (merge_finish_get md out Hfin) as [Hkeys Hget].
  destruct (merge_loop_keys data [] md Hloop) as [Hk Hnd].
  pose proof (merge_loop_get data [] md Hloop) as Hsets.
  repeat split.
  - rewrite Hkeys. apply Hnd. constructor.
  - rewrite Hkeys. intros HK. apply Hk in HK. destruct HK as [[]|HK]. exact HK.
  - rewrite Hkeys. intros HK. apply Hk. now right.
  - intros K Hidx Hne. specialize (Hget K). rewrite (Hsets K) in Hget.
    rewrite (fold_merge_step_indexed K data Hidx) in Hget. simpl in Hget.
    fold (distinct (group_values data K)) in Hget.
    destruct (group_values data K) as [|v0 vs] eqn:Hg; [congruence|].
    destruct Hget as [x [Hx Hd]]. exists x. split; [exact Hd|].
    now apply merged_value_Ok.
  - intros pre K v post -> Hfree Hnin. specialize (Hget K).
    rewrite (Hsets K), (fold_merge_step_app K pre post v Hfree Hnin) in Hget.
    destruct Hget as [x [Hx Hd]]. exists x. split; [exact Hd|].
    now apply merged_value_Ok.
Qed.

Lemma merge_and_deduplicate_total (data : dict value) :
  Forall (fun kv => is_str (snd kv) = true) data ->
  exists out, merge_and_deduplicate data = Ok out.
Proof.
  intros Hstr. unfold merge_and_deduplicate.
  destruct (merge_loop_total data) with (md := @nil (string * pyset)) as [md Hloop].
  { eapply Forall_impl; [|exact Hstr]. intros [k v]. simpl. now destruct v. }
  rewrite Hloop. simpl. apply merge_finish_total.
  pose proof (merge_loop_sets_nonempty data md Hloop) as Hne.
  rewrite Forall_forall in Hne. apply Forall_forall. intros [K s] Hin. split.
  - now apply Hne.
  - simpl. apply Forall_forall. intros x Hx.
    destruct (merge_loop_elements data [] md Hloop K s x Hin Hx)
      as [[K0 [s0 [[] _]]]|Hd].
    apply in_map_iff in Hd. destruct Hd as [kv [<- Hkv]].
    rewrite Forall_forall in Hstr. now apply Hstr.
Qed.

(** What the merge does.  For every input mapping on which merge_and_deduplicate
    returns, and it returns on every mapping whose values are strings, the
    keys of the result are unique and are exactly the raw keys with their
    [[digits]] groups removed.  The raw fields whose keys normalize to the
    same name are merged, an index-free raw key starting its name afresh:
    - a name that only indexed keys normalize to holds the merge of all
      their values;
    - a name that is itself a raw key holds the merge of its own value and
      of those of the indexed keys that come after it.
    The merge of values is their one distinct element itself when there is
    one, and the pipe-joined string of the sorted distinct elements when
    there are several. *)
Theorem merge_and_deduplicate_merges (data : dict value) :
  (Forall (fun kv => is_str (snd kv) = true) data ->
   exists out, merge_and_deduplicate data = Ok out)
  /\ forall out, merge_and_deduplicate data = Ok out ->
       NoDup (keys out)
       /\ (forall K, In K (keys out) <->
                     exists k, In k (keys data) /\ strip_indices k = K)
       /\ (forall K,
             (forall kv, In kv data -> strip_indices (fst kv) = K ->
                         has_index (fst kv) = true) ->
             group_values data K <> [] ->
             exists x, dict_get K out = Some x
                       /\ merged_of (distinct (group_values data K)) x)
       /\ (forall pre K v post,
             data = pre ++ (K, v) :: post ->
             has_index K = false -> ~ In K (keys post) ->
             exists x, dict_get K out = Some x
                       /\ merged_of (distinct (v :: group_values post K)) x).
Proof.
  split.
  - apply merge_and_deduplicate_total.
  - apply merge_and_deduplicate_char.
Qed.

(** ** What the blocks of parse_work store *)

Lemma stores_only_sret {A : Type} (P : string -> Prop) (a : A) :
  stores_only P (sret a).
Proof. intros pd. simpl. auto. Qed.

Lemma stores_only_eval {A : Type} (P : string -> Prop) (r : res A) :
  stores_only P (eval r).
Proof. intros pd. simpl. auto. Qed.

Lemma stores_only_store (P : string -> Prop) (k : string) (v : value) :
  P k -> stores_only P (store k v).
Proof.
  intros Hk pd. simpl. repeat split.
  - intros k' Hk'. apply dict_get_set_other. now intros ->.
  - intros k' Hin. apply keys_dict_set in Hin. destruct Hin as [->|Hin]; auto.
  - apply NoDup_keys_dict_set.
Qed.

Lemma stores_only_sbind {A B : Type} (P : string -> Prop)
  (m : stm (dict value) A) (k : A -> stm (dict value) B) :
  stores_only P m -> (forall a, stores_only P (k a)) -> stores_only P (sbind m k).
Proof.
  intros Hm Hk pd. unfold sbind. specialize (Hm pd).
  destruct (m pd) as [[a|e] pd']; simpl in *; [|exact Hm].
  specialize (Hk a pd'). destruct Hm as [Hm1 [Hm2 Hm3]].
  destruct Hk as [Hk1 [Hk2 Hk3]]. repeat split.
  - intros k0 Hk0. now rewrite Hk1, Hm1.
  - intros k0 Hin. apply Hk2 in Hin. destruct Hin as [Hin|Hin]; auto.
  - auto.
Qed.

Lemma stores_only_for_each {A : Type} (P : string -> Prop) (l : list A)
  (body : A -> stm (dict value) unit) :
  (forall x, In x l -> stores_only P (body x)) -> stores_only P (for_each l body).
Proof.
  induction l as [|x l IH]; intros Hb; simpl.
  - apply stores_only_sret.
  - apply stores_only_sbind; [apply Hb; now left|].
    intros _. apply IH. intros y Hy. apply Hb. now right.
Qed.

Lemma stores_only_weaken {A : Type} (P Q : string -> Prop)
  (m : stm (dict value) A) :
  (forall k, P k -> Q k) -> stores_only P m -> stores_only Q m.
Proof.
  intros HPQ Hm pd. destruct (Hm pd) as [H1 [H2 H3]]. split; [|split].
  - intros k Hk. apply H1. intros HP. apply Hk. auto.
  - intros k Hin. apply H2 in Hin. destruct Hin; auto.
  - exact H3.
Qed.

Ltac stores :=
  repeat first
    [ apply stores_only_sret
    | apply stores_only_eval
    | apply stores_only_store
    | apply stores_only_sbind; [|intros ?]
    | apply stores_only_for_each; intros ? ? ].

Lemma stores_only_parse_basic_field (w : value) (field : string) :
  stores_only (fun k => k = field) (parse_basic_field w field).
Proof. unfold parse_basic_field. destruct (String.eqb field "doi"); stores; reflexivity. Qed.

Lemma stores_only_parse_ids (w : value) :
  stores_only (fun k => k = "pmid" \/ k = "mag") (parse_ids w).
Proof. unfold parse_ids. stores; auto. Qed.

Lemma stores_only_parse_apc_paid (w : value) :
  stores_only (fun k => k = "apc_paid") (parse_apc_paid w).
Proof.
  unfold parse_apc_paid. stores.
  match goal with |- stores_only _ (match ?v with _ => _ end) => destruct v end;
    stores; reflexivity.
Qed.

Lemma stores_only_parse_count_field (w : value) (field : string) :
  stores_only (fun k => k = field) (parse_count_field w field).
Proof. unfold parse_count_field. stores; reflexivity. Qed.

Lemma stores_only_parse_primary_location (w : value) :
  stores_only (fun k => k = "primary_location_display_name"
                        \/ k = "primary_location_host_organization_name")
    (parse_primary_location w).
Proof. unfold parse_primary_location. stores; auto. Qed.

Lemma stores_only_parse_publication_date (w : value) :
  stores_only (fun k => k = "publication_date") (parse_publication_date w).
Proof.
  unfold parse_publication_date. stores.
  match goal with |- stores_only _ (if ?b then _ else _) => destruct b end;
    stores; reflexivity.
Qed.

Lemma stores_only_parse_percentiles (w : value) :
  stores_only (fun k => exists x, k = ("percentiles_" ++ x)%string) (parse_percentiles w).
Proof. unfold parse_percentiles. stores. eauto. Qed.

Lemma stores_only_parse_open_access (w : value) :
  stores_only (fun k => k = "open_access_is_oa" \/ k = "open_access_oa_status")
    (parse_open_access w).
Proof. unfold parse_open_access. stores; auto. Qed.

Lemma stores_only_parse_grants (w : value) :
  stores_only (fun k => exists i, k = grant_key i) (parse_grants w).
Proof. unfold parse_grants. stores. eauto. Qed.

Lemma stores_only_parse_countries_codes (w : value) :
  stores_only (fun k => k = "countries_codes") (parse_countries_codes w).
Proof. unfold parse_countries_codes. stores; reflexivity. Qed.

Lemma collect_display_names_keys (found : list (string * value)) :
  forall display_names p,
    In p (keys (collect_display_names found display_names)) ->
    In p (keys display_names) \/ retained p = true.
Proof.
  induction found as [|[path v] found IH]; intros dn p Hin; simpl in Hin; [auto|].
  destruct (retained path) eqn:Hr; [|now apply IH].
  apply IH in Hin. destruct Hin as [Hin|Hin]; [|auto].
  apply keys_dict_set in Hin. destruct Hin as [->|Hin]; auto.
Qed.

Lemma cap_display_names_keys (display_names : dict (list value)) :
  keys (cap_display_names display_names) = keys display_names.
Proof.
  unfold keys, cap_display_names. rewrite map_map. apply map_ext.
  intros [p vs]. simpl. now destruct (Nat.ltb 10 (List.length vs)).
Qed.

Lemma stores_only_parse_display_names (w : value) :
  stores_only (fun k => exists p, retained p = true /\ k = replace_dots p)
    (parse_display_names w).
Proof.
  unfold parse_display_names. apply stores_only_for_each. intros [p vs] Hin.
  stores. exists p. split; [|reflexivity].
  apply (in_map fst) in Hin. change (In p (keys (cap_display_names
    (collect_display_names (find_display_names w "") [])))) in Hin.
  rewrite cap_display_names_keys in Hin.
  apply collect_display_names_keys in Hin. now destruct Hin as [[]|Hin].
Qed.

Lemma stores_only_parse_abstract (w : value) :
  stores_only (fun k => k = "abstract") (parse_abstract w).
Proof.
  unfold parse_abstract. stores.
  match goal with |- stores_only _ (match ?v with _ => _ end) => destruct v end;
    stores; reflexivity.
Qed.

Lemma try_except_frame (P : string -> Prop) (block : stm (dict value) unit)
  (pd : dict value) (t : string) :
  stores_only P block -> ~ P t ->
  dict_get t (try_except block pd) = dict_get t pd.
Proof. intros Hb Ht. now apply (Hb pd). Qed.

Lemma blocks_field_keys (w : value) (include_abstract : bool) :
  Forall (stores_only field_key) (blocks w include_abstract).
Proof.
  assert (Hfix : forall k, In k fixed_keys -> field_key k) by (constructor; auto).
  assert (Hone : forall (b : stm (dict value) unit) k0,
             In k0 fixed_keys -> stores_only (fun k => k = k0) b ->
             stores_only field_key b).
  { intros b k0 Hk0. apply stores_only_weaken. intros k ->. auto. }
  assert (Htwo : forall (b : stm (dict value) unit) k0 k1,
             In k0 fixed_keys -> In k1 fixed_keys ->
             stores_only (fun k => k = k0 \/ k = k1) b ->
             stores_only field_key b).
  { intros b k0 k1 Hk0 Hk1. apply stores_only_weaken. intros k [->| ->]; auto. }
  unfold blocks. repeat rewrite Forall_app. repeat split.
  - apply Forall_forall. intros b Hb. apply in_map_iff in Hb.
    destruct Hb as [f [<- Hf]].
    apply (Hone _ f); [|apply stores_only_parse_basic_field].
    unfold fixed_keys. apply in_or_app. now left.
  - repeat apply Forall_cons; try apply Forall_nil.
    + apply (Htwo _ "pmid" "mag");
        [vm_compute; tauto | vm_compute; tauto | apply stores_only_parse_ids].
    + apply (Hone _ "apc_paid"); [vm_compute; tauto | apply stores_only_parse_apc_paid].
  - apply Forall_forall. intros b Hb. apply in_map_iff in Hb.
    destruct Hb as [f [<- Hf]].
    apply (Hone _ f); [|apply stores_only_parse_count_field].
    unfold fixed_keys. apply in_or_app. right.
    apply in_or_app. right. apply in_or_app. now left.
  - repeat apply Forall_cons; try apply Forall_nil.
    + apply (Htwo _ "primary_location_display_name"
               "primary_location_host_organization_name");
        [vm_compute; tauto | vm_compute; tauto
        | apply stores_only_parse_primary_location].
    + apply (Hone _ "publication_date");
        [vm_compute; tauto | apply stores_only_parse_publication_date].
    + eapply stores_only_weaken; [|apply stores_only_parse_percentiles].
      intros k [x ->]. apply fk_percentile.
    + apply (Htwo _ "open_access_is_oa" "open_access_oa_status");
        [vm_compute; tauto | vm_compute; tauto | apply stores_only_parse_open_access].
    + eapply stores_only_weaken; [|apply stores_only_parse_grants].
      intros k [i ->]. apply fk_grant.
    + apply (Hone _ "countries_codes");
        [vm_compute; tauto | apply stores_only_parse_countries_codes].
    + eapply stores_only_weaken; [|apply stores_only_parse_display_names].
      intros k [p [Hp ->]]. now apply fk_display.
  - destruct include_abstract; repeat apply Forall_cons; try apply Forall_nil.
    apply (Hone _ "abstract"); [vm_compute; tauto | apply stores_only_parse_abstract].
Qed.

Lemma fold_blocks_keys (P : string -> Prop) (bs : list (stm (dict value) unit)) :
  Forall (stores_only P) bs ->
  forall pd,
    let pd' := fold_left (fun pd b => try_except b pd) bs pd in
    (forall k, In k (keys pd') -> In k (keys pd) \/ P k)
    /\ (NoDup (keys pd) -> NoDup (keys pd')).
Proof.
  induction 1 as [|b bs Hb Hbs IH]; intros pd; simpl; [auto|].
  destruct (IH (try_except b pd)) as [H1 H2].
  destruct (Hb pd) as [_ [Hb2 Hb3]]. split.
  - intros k Hin. apply H1 in Hin. destruct Hin as [Hin|Hin]; [|auto].
    now apply Hb2.
  - intros Hnd. apply H2. now apply Hb3.
Qed.

Lemma parsed_fields_keys (w : value) (include_abstract : bool) :
  (forall k, In k (keys (parsed_fields w include_abstract)) -> field_key k)
  /\ NoDup (keys (parsed_fields w include_abstract)).
Proof.
  destruct (fold_blocks_keys field_key _ (blocks_field_keys w include_abstract) [])
    as [H1 H2].
  split.
  - intros k Hin. apply H1 in Hin. now destruct Hin as [[]|Hin].
  - apply H2. constructor.
Qed.

(** ** Keys that cannot be confused with one another *)

Lemma digits_close_no_s (s : string) :
  forall seen n, digits_close s seen = Some n -> no_s_prefix (n - seen) s.
Proof.
  induction s as [|c s IH]; intros seen n H; simpl in H; [discriminate|].
  destruct (is_digit c) eqn:Hd.
  - pose proof (IH _ _ H) as Hs.
    assert (Hc : Ascii.eqb c "s" = false).
    { destruct (Ascii.eqb c "s") eqn:E; [|reflexivity].
      apply Ascii.eqb_eq in E. subst c. discriminate. }
    destruct (n - seen) as [|k] eqn:Hk; simpl; [exact I|]. split; [exact Hc|].
    replace k with (n - S seen) by lia. exact Hs.
  - destruct (Ascii.eqb c "]" && Nat.ltb 0 seen) eqn:E; [|discriminate].
    injection H as <-. replace (S seen - seen) with 1 by lia. simpl.
    apply andb_prop in E. destruct E as [E _]. apply Ascii.eqb_eq in E. subst c.
    auto.
Qed.

Lemma index_match_no_s (c : ascii) (s : string) (k : nat) :
  index_match (String c s) = Some (S k) ->
  Ascii.eqb c "s" = false /\ no_s_prefix k s.
Proof.
  simpl. destruct (Ascii.eqb c "[") eqn:E; [|discriminate].
  apply Ascii.eqb_eq in E. subst c.
  destruct (digits_close s 0) as [n|] eqn:Hn; simpl; [|discriminate].
  intros [= <-]. split; [reflexivity|].
  apply digits_close_no_s in Hn. now rewrite Nat.sub_0_r in Hn.
Qed.

Lemma has_s_strip_from (s : string) :
  forall k, no_s_prefix k s -> has_s (strip_from k s) = has_s s.
Proof.
  induction s as [|c s IH]; intros k Hk; [reflexivity|].
  cbn [strip_from]. destruct k as [|k].
  - destruct (index_match (String c s)) as [[|n]|] eqn:Hm.
    + simpl. f_equal. now apply IH.
    + apply index_match_no_s in Hm. destruct Hm as [Hc Hn].
      simpl. rewrite Hc. simpl. now apply IH.
    + simpl. f_equal. now apply IH.
  - simpl in Hk. destruct Hk as [Hc Hk]. simpl. rewrite Hc. simpl. now apply IH.
Qed.

Lemma has_s_strip_indices (s : string) : has_s (strip_indices s) = has_s s.
Proof. apply has_s_strip_from. exact I. Qed.

Lemma has_s_replace_dots (s : string) : has_s (replace_dots s) = has_s s.
Proof.
  induction s as [|c s IH]; simpl; [reflexivity|]. rewrite IH. f_equal.
  destruct (Ascii.eqb c ".") eqn:E; [|reflexivity].
  apply Ascii.eqb_eq in E. now subst c.
Qed.

Lemma prefix_has_s (s : string) :
  prefix "display_name" s = true -> has_s s = true.
Proof.
  intros H.
  destruct s as [|c0 [|c1 [|c2 s]]]; cbn [prefix] in H; try discriminate.
  - destruct (ascii_dec "d" c0); discriminate.
  - destruct (ascii_dec "d" c0); [|discriminate].
    destruct (ascii_dec "i" c1); discriminate.
  - destruct (ascii_dec "d" c0); [|discriminate].
    destruct (ascii_dec "i" c1); [|discriminate].
    destruct (ascii_dec "s" c2); [|discriminate].
    subst. reflexivity.
Qed.

Lemma contains_display_name_has_s (s : string) :
  contains "display_name" s = true -> has_s s = true.
Proof.
  induction s as [|c s IH]; intros H.
  - discriminate.
  - cbn [contains] in H. apply orb_prop in H. destruct H as [H|H].
    + now apply prefix_has_s.
    + simpl. rewrite (IH H). apply orb_true_r.
Qed.

Lemma retained_has_s (p : string) : retained p = true -> has_s p = true.
Proof.
  unfold retained. intros H. apply andb_prop in H.
  apply contains_display_name_has_s, H.
Qed.

Lemma fixed_keys_index_free (k : string) :
  In k fixed_keys -> has_index k = false.
Proof.
  intros H. vm_compute in H.
  repeat (destruct H as [<-|H]; [reflexivity|]). destruct H.
Qed.

Lemma field_key_normalizes (t k : string) :
  plain_key t -> field_key k -> strip_indices k = t -> k = t.
Proof.
  intros [Ht [Hs [Hp Hg]]] Hk Hst. destruct Hk as [k Hk|x|i|p Hp'].
  - now rewrite (strip_index_free k (fixed_keys_index_free k Hk)) in Hst.
  - exfalso. subst t. cbn in Hp. discriminate.
  - exfalso. subst t. cbn in Hg. discriminate.
  - exfalso. subst t.
    rewrite has_s_strip_indices, has_s_replace_dots, (retained_has_s p Hp') in Hs.
    discriminate.
Qed.

(** ** Fields that go through the final merge unchanged *)

Lemma group_values_nil (data : dict value) (K : string) :
  (forall k, In k (keys data) -> strip_indices k <> K) -> group_values data K = [].
Proof.
  unfold group_values, keys. induction data as [|[k v] data IH]; intros H; [reflexivity|].
  simpl. destruct (String.eqb (strip_indices k) K) eqn:E.
  - apply String.eqb_eq in E. exfalso. apply (H k); [now left | exact E].
  - apply IH. intros k' Hk'. apply H. now right.
Qed.

Lemma merge_keeps (data out : dict value) (t : string) :
  merge_and_deduplicate data = Ok out ->
  NoDup (keys data) -> has_index t = false ->
  (forall k, In k (keys data) -> strip_indices k = t -> k = t) ->
  dict_get t out = dict_get t data.
Proof.
  intros Hm Hnd Hfree Hnorm.
  destruct (merge_and_deduplicate_char data out Hm) as [_ [Hkeys [_ Hown]]].
  destruct (dict_get t data) as [v|] eqn:Hget.
  - apply dict_get_In in Hget. apply in_split in Hget.
    destruct Hget as [pre [post ->]].
    assert (Hpost : ~ In t (keys post)).
    { unfold keys in *. rewrite map_app in Hnd. simpl in Hnd.
      apply NoDup_remove_2 in Hnd. intros Hin. apply Hnd, in_or_app. now right. }
    destruct (Hown pre t v post eq_refl Hfree Hpost) as [x [Hx Hmerged]].
    rewrite group_values_nil in Hmerged.
    + cbn in Hmerged. now subst x.
    + intros k Hk Hst. apply Hpost. rewrite <- (Hnorm k); [exact Hk | | exact Hst].
      unfold keys. rewrite map_app. apply in_or_app. right. now right.
  - apply dict_get_None. intros Hin. apply Hkeys in Hin.
    destruct Hin as [k [Hk Hst]]. apply dict_get_None in Hget. apply Hget.
    now rewrite <- (Hnorm k Hk Hst).
Qed.

Lemma plain_key_index_free (t : string) : plain_key t -> has_index t = false.
Proof. intros [Ht _]. now apply fixed_keys_index_free. Qed.

Lemma parse_work_keeps (w : value) (include_abstract : bool)
  (out : dict value) (t : string) :
  plain_key t -> parse_work w include_abstract = Ok out ->
  dict_get t out = dict_get t (parsed_fields w include_abstract).
Proof.
  intros Ht Hout. destruct (parsed_fields_keys w include_abstract) as [Hk Hnd].
  apply merge_keeps; auto using plain_key_index_free.
  intros k Hin. apply field_key_normalizes; auto.
Qed.

Lemma parse_work_Raise (w : value) (include_abstract : bool) (e : exn) :
  parse_work w include_abstract = Raise e -> e = TypeError.
Proof. apply merge_and_deduplicate_Raise. Qed.

(** The outcome of [parse_work] on a plain key: the call raises a
    [TypeError], or the field is the one of [parsed_data]. *)
Lemma parse_work_plain_key (w : value) (include_abstract : bool) (t : string) :
  plain_key t ->
  match parse_work w include_abstract with
  | Ok out => dict_get t out = dict_get t (parsed_fields w include_abstract)
  | Raise e => e = TypeError
  end.
Proof.
  intros Ht. destruct (parse_work w include_abstract) as [out|e] eqn:H.
  - now apply parse_work_keeps.
  - now apply parse_work_Raise in H.
Qed.

(** ** The fields of parsed_data that have a fixed name *)

Ltac key_differs :=
  first
    [ intros [? [Hret Heq]];
      apply (f_equal has_s) in Heq;
      rewrite has_s_replace_dots, (retained_has_s _ Hret) in Heq;
      discriminate Heq
    | intros [? Heq]; cbn in Heq; discriminate Heq
    | intros [Heq|Heq]; discriminate Heq
    | intros Heq; discriminate Heq ].

Ltac peel_block :=
  match goal with
  | |- context [dict_get ?t (try_except (parse_abstract ?w) ?pd)] =>
      rewrite (try_except_frame _ _ pd t (stores_only_parse_abstract w)) by key_differs
  | |- context [dict_get ?t (try_except (parse_display_names ?w) ?pd)] =>
      rewrite (try_except_frame _ _ pd t (stores_only_parse_display_names w)) by key_differs
  | |- context [dict_get ?t (try_except (parse_countries_codes ?w) ?pd)] =>
      rewrite (try_except_frame _ _ pd t (stores_only_parse_countries_codes w)) by key_differs
  | |- context [dict_get ?t (try_except (parse_grants ?w) ?pd)] =>
      rewrite (try_except_frame _ _ pd t (stores_only_parse_grants w)) by key_differs
  | |- context [dict_get ?t (try_except (parse_open_access ?w) ?pd)] =>
      rewrite (try_except_frame _ _ pd t (stores_only_parse_open_access w)) by key_differs
  | |- context [dict_get ?t (try_except (parse_percentiles ?w) ?pd)] =>
      rewrite (try_except_frame _ _ pd t (stores_only_parse_percentiles w)) by key_differs
  | |- context [dict_get ?t (try_except (parse_publication_date ?w) ?pd)] =>
      rewrite (try_except_frame _ _ pd t (stores_only_parse_publication_date w)) by key_differs
  | |- context [dict_get ?t (try_except (parse_primary_location ?w) ?pd)] =>
      rewrite (try_except_frame _ _ pd t (stores_only_parse_primary_location w)) by key_differs
  | |- context [dict_get ?t (try_except (parse_count_field ?w ?f) ?pd)] =>
      rewrite (try_except_frame _ _ pd t (stores_only_parse_count_field w f)) by key_differs
  | |- context [dict_get ?t (try_except (parse_apc_paid ?w) ?pd)] =>
      rewrite (try_except_frame _ _ pd t (stores_only_parse_apc_paid w)) by key_differs
  | |- context [dict_get ?t (try_except (parse_ids ?w) ?pd)] =>
      rewrite (try_except_frame _ _ pd t (stores_only_parse_ids w)) by key_differs
  | |- context [dict_get ?t (try_except (parse_basic_field ?w ?f) ?pd)] =>
      rewrite (try_except_frame _ _ pd t (stores_only_parse_basic_field w f)) by key_differs
  end.

Ltac unfold_blocks include_abstract :=
  unfold parsed_fields, blocks; destruct include_abstract;
  cbn [fold_left map app basic_fields count_fields].

Lemma parse_basic_field_get (wd : list (string * value)) (field : string)
  (pd : dict value) :
  dict_get field (try_except (parse_basic_field (VDict wd) field) pd)
  = Some match dict_get field wd with
         | Some v => v
         | None => basic_default field
         end.
Proof.
  unfold try_except, parse_basic_field, basic_default.
  destruct (String.eqb field "doi"); cbn; apply dict_get_set_same.
Qed.

Lemma parsed_fields_basic (wd : list (string * value)) (include_abstract : bool)
  (field : string) :
  In field basic_fields ->
  dict_get field (parsed_fields (VDict wd) include_abstract)
  = Some match dict_get field wd with
         | Some v => v
         | None => basic_default field
         end.
Proof.
  intros Hin. cbn in Hin.
  unfold_blocks include_abstract;
    repeat (destruct Hin as [<-|Hin];
            [repeat peel_block; apply parse_basic_field_get|]);
    destruct Hin.
Qed.

(** ** strptime on a date written YYYY-MM-DD *)

Lemma digit_char_digit (n : nat) :
  is_digit (digit_char n) = true /\ digit_val (digit_char n) = n mod 10.
Proof.
  unfold digit_char. pose proof (Nat.mod_upper_bound n 10) as Hlt.
  destruct (n mod 10) as [|[|[|[|[|[|[|[|[|[|k]]]]]]]]]];
    try (split; reflexivity).
  lia.
Qed.

Lemma decimal4 (y : nat) :
  (y < 100 * 100)%nat ->
  (1000 * ((y / 1000) mod 10) + 100 * ((y / 100) mod 10)
   + 10 * ((y / 10) mod 10) + y mod 10 = y)%nat.
Proof.
  intros Hy.
  assert (Hall : forallb (fun y =>
            (1000 * ((y / 1000) mod 10) + 100 * ((y / 100) mod 10)
             + 10 * ((y / 10) mod 10) + y mod 10 =? y)%nat) (seq 0 (100 * 100)) = true)
    by (vm_compute; reflexivity).
  rewrite forallb_forall in Hall. apply Nat.eqb_eq, Hall, in_seq. lia.
Qed.

Lemma parse_year_pad4 (y : nat) (rest : string) :
  (y < 100 * 100)%nat -> parse_year (pad4 y ++ rest) = Some (y, rest).
Proof.
  intros Hy. unfold pad4. cbn [append]. unfold parse_year.
  destruct (digit_char_digit (y / 1000)) as [-> ->].
  destruct (digit_char_digit (y / 100)) as [-> ->].
  destruct (digit_char_digit (y / 10)) as [-> ->].
  destruct (digit_char_digit y) as [-> ->].
  cbn [andb]. now rewrite decimal4.
Qed.

Lemma parse_month_pad2 (m : nat) (rest : string) :
  (1 <= m <= 12)%nat -> parse_month (pad2 m ++ rest) = Some (m, rest).
Proof.
  intros Hm.
  do 13 (destruct m as [|m]; [first [lia | reflexivity]|]). lia.
Qed.

Lemma parse_day_pad2 (d : nat) :
  (1 <= d <= 31)%nat -> parse_day (pad2 d) = Some (d, "").
Proof.
  intros Hd.
  do 32 (destruct d as [|d]; [first [lia | reflexivity]|]). lia.
Qed.

Lemma days_in_month_le (y m : nat) : (days_in_month y m <= 31)%nat.
Proof.
  unfold days_in_month.
  do 12 (destruct m as [|m]; [try lia; destruct (is_leap y); lia|]). lia.
Qed.

Lemma expect_dash_dash (s : string) : expect_dash (String "-" s) = Some s.
Proof. reflexivity. Qed.

Lemma strptime_ymd_date_string (y m d : nat) :
  valid_date y m d ->
  strptime_ymd (VStr (date_string y m d)) = Ok (mk_datetime y m d).
Proof.
  intros [Hy [Hm Hd]]. unfold strptime_ymd, date_string.
  rewrite parse_year_pad4 by lia. cbn [append].
  rewrite expect_dash_dash, parse_month_pad2 by lia. cbn [append].
  pose proof (days_in_month_le y m) as Hle.
  rewrite expect_dash_dash, parse_day_pad2 by lia.
  cbn [String.eqb negb].
  destruct (y =? 0)%nat eqn:E0; [apply Nat.eqb_eq in E0; lia|].
  destruct (days_in_month y m <? d)%nat eqn:E1; [apply Nat.ltb_lt in E1; lia|].
  reflexivity.
Qed.

Lemma isoformat_date_string (y m d : nat) :
  (isoformat (mk_datetime y m d) ++ "Z")%string
  = (date_string y m d ++ "T00:00:00Z")%string.
Proof. reflexivity. Qed.

Lemma strptime_ymd_str (s : string) :
  (exists dt, strptime_ymd (VStr s) = Ok dt) \/ strptime_ymd (VStr s) = Raise ValueError.
Proof.
  unfold strptime_ymd.
  destruct (parse_year s) as [[year s1]|]; [|now right].
  destruct (expect_dash s1) as [s2|]; [|now right].
  destruct (parse_month s2) as [[month s3]|]; [|now right].
  destruct (expect_dash s3) as [s4|]; [|now right].
  destruct (parse_day s4) as [[day s5]|]; [|now right].
  destruct (negb (String.eqb s5 "")); [now right|].
  destruct (year =? 0)%nat; [now right|].
  destruct (days_in_month year month <? day)%nat; [now right|].
  left. eauto.
Qed.

(** ** The merge of a mapping without index groups *)

Lemma merge_loop_index_free (data : dict value) :
  (forall k, In k (keys data) -> has_index k = false) ->
  NoDup (keys data) ->
  Forall (fun kv => hashable (snd kv) = true) data ->
  forall merged_data,
    (forall k, In k (keys data) -> ~ In k (keys merged_data)) ->
    merge_loop data merged_data
    = Ok (merged_data ++ map (fun kv => (fst kv, [snd kv])) data).
Proof.
  induction data as [|[key v] data IH]; intros Hidx Hnd Hh md Hfresh.
  - simpl. now rewrite app_nil_r.
  - cbn [merge_loop]. rewrite (Hidx key) by now left.
    inversion Hh as [|? ? Hv Hh']; subst. cbn [snd] in Hv.
    unfold set_add. rewrite Hv. cbn [existsb app bind].
    rewrite dict_set_fresh by (apply Hfresh; now left).
    inversion Hnd as [|? ? Hnin Hnd']; subst.
    rewrite IH; auto.
    + cbn [map fst snd]. now rewrite <- app_assoc.
    + intros k Hk. apply Hidx. now right.
    + intros k Hk. rewrite keys_app, in_app_iff. intros [Hin|[<-|[]]].
      * apply (Hfresh k); [now right | exact Hin].
      * contradiction.
Qed.

Lemma merge_finish_singletons (data : dict value) :
  merge_finish (map (fun kv => (fst kv, [snd kv])) data) = Ok data.
Proof.
  induction data as [|[key v] data IH]; [reflexivity|].
  cbn [map merge_finish fst snd]. unfold merged_value. cbn [List.length Nat.ltb Nat.leb bind].
  rewrite IH. reflexivity.
Qed.

(** ** Records without nesting *)

Lemma flat_record_get (wd : list (string * value)) (k : string) (default : value) :
  flat_record wd -> hashable default = true ->
  hashable (match dict_get k wd with Some v => v | None => default end) = true.
Proof.
  intros Hflat Hd. destruct (dict_get k wd) as [v|] eqn:Hget; [|exact Hd].
  apply dict_get_In in Hget. unfold flat_record in Hflat.
  rewrite Forall_forall in Hflat. destruct (Hflat _ Hget) as [Hv _].
  destruct v; try discriminate Hv; reflexivity.
Qed.

Lemma flat_record_find_display_names (wd : list (string * value)) :
  flat_record wd -> forall path, find_display_names (VDict wd) path = [].
Proof.
  induction 1 as [|[key v] wd [Hv Hkey] _ IH]; intros path; [reflexivity|].
  specialize (IH path). cbn in Hv, Hkey. simpl in IH |- *.
  rewrite Hkey. rewrite IH.
  destruct v; try discriminate Hv; reflexivity.
Qed.

(** What [parsed_data] holds for a record without nesting: hashable
    values, under keys that the function writes by name. *)
Lemma dict_set_fixed_hashable (k : string) (v : value) (pd : dict value) :
  In k fixed_keys -> hashable v = true ->
  Forall (fun kv => In (fst kv) fixed_keys /\ hashable (snd kv) = true) pd ->
  Forall (fun kv => In (fst kv) fixed_keys /\ hashable (snd kv) = true)
    (dict_set k v pd).
Proof.
  intros Hk Hv Hpd. induction Hpd as [|[k' v'] pd Hkv Hpd IH]; simpl.
  - apply Forall_cons; [split; assumption | apply Forall_nil].
  - destruct (String.eqb k' k); apply Forall_cons; auto.
Qed.

Lemma convert_publication_date_hashable (v x : value) :
  convert_publication_date v = Ok x -> hashable x = true.
Proof.
  unfold convert_publication_date.
  destruct (strptime_ymd v) as [dt|e]; [now intros [= <-]|].
  destruct e; try discriminate. now intros [= <-].
Qed.

Ltac fixed_hashable :=
  repeat first
    [ assumption
    | reflexivity
    | apply dict_set_fixed_hashable
    | apply flat_record_get
    | (vm_compute; tauto) ].

Lemma flat_record_blocks (wd : list (string * value)) (include_abstract : bool) :
  flat_record wd ->
  Forall (fun kv => In (fst kv) fixed_keys /\ hashable (snd kv) = true)
    (parsed_fields (VDict wd) include_abstract).
Proof.
  intros Hflat.
  assert (Hbasic : forall field pd,
            In field fixed_keys ->
            Forall (fun kv => In (fst kv) fixed_keys /\ hashable (snd kv) = true) pd ->
            Forall (fun kv => In (fst kv) fixed_keys /\ hashable (snd kv) = true)
              (try_except (parse_basic_field (VDict wd) field) pd)).
  { intros field pd Hf Hpd. unfold try_except, parse_basic_field.
    destruct (String.eqb field "doi"); cbn; fixed_hashable. }
  assert (Hcount : forall field pd,
            In field fixed_keys ->
            Forall (fun kv => In (fst kv) fixed_keys /\ hashable (snd kv) = true) pd ->
            Forall (fun kv => In (fst kv) fixed_keys /\ hashable (snd kv) = true)
              (try_except (parse_count_field (VDict wd) field) pd)).
  { intros field pd Hf Hpd. unfold try_except, parse_count_field. cbn.
    fixed_hashable. }
  assert (Hscalar : forall k v, dict_get k wd = Some v -> hashable v = true).
  { intros k v Hget. pose proof (flat_record_get wd k VNone Hflat eq_refl) as H.
    now rewrite Hget in H. }
  assert (Hids : forall pd,
            Forall (fun kv => In (fst kv) fixed_keys /\ hashable (snd kv) = true) pd ->
            Forall (fun kv => In (fst kv) fixed_keys /\ hashable (snd kv) = true)
              (try_except (parse_ids (VDict wd)) pd)).
  { intros pd Hpd. unfold try_except, parse_ids, sbind, eval, store. cbn [py_get].
    destruct (dict_get "ids" wd) as [v|] eqn:Hget.
    - apply Hscalar in Hget. destruct v; try discriminate Hget; exact Hpd.
    - cbn. fixed_hashable. }
  assert (Hapc : forall pd,
            Forall (fun kv => In (fst kv) fixed_keys /\ hashable (snd kv) = true) pd ->
            Forall (fun kv => In (fst kv) fixed_keys /\ hashable (snd kv) = true)
              (try_except (parse_apc_paid (VDict wd)) pd)).
  { intros pd Hpd. unfold try_except, parse_apc_paid, sbind, eval, store.
    cbn [py_get].
    destruct (dict_get "apc_paid" wd) as [v|] eqn:Hget.
    - apply Hscalar in Hget. destruct v; try discriminate Hget; cbn; fixed_hashable.
    - cbn. fixed_hashable. }
  assert (Hloc : forall pd,
            Forall (fun kv => In (fst kv) fixed_keys /\ hashable (snd kv) = true) pd ->
            Forall (fun kv => In (fst kv) fixed_keys /\ hashable (snd kv) = true)
              (try_except (parse_primary_location (VDict wd)) pd)).
  { intros pd Hpd. unfold try_except, parse_primary_location, sbind, eval, store.
    cbn [py_get].
    destruct (dict_get "primary_location" wd) as [v|] eqn:Hget.
    - apply Hscalar in Hget. destruct v; try discriminate Hget; exact Hpd.
    - cbn. fixed_hashable. }
  assert (Hdate : forall pd,
            Forall (fun kv => In (fst kv) fixed_keys /\ hashable (snd kv) = true) pd ->
            Forall (fun kv => In (fst kv) fixed_keys /\ hashable (snd kv) = true)
              (try_except (parse_publication_date (VDict wd)) pd)).
  { intros pd Hpd. unfold try_except, parse_publication_date, sbind, eval, store.
    cbn [py_get fst snd].
    destruct (truthy _); [|exact Hpd].
    destruct (convert_publication_date _) as [x|e] eqn:Hx; [|exact Hpd].
    cbn [snd]. apply convert_publication_date_hashable in Hx. fixed_hashable. }
  assert (Hperc : forall pd, try_except (parse_percentiles (VDict wd)) pd = pd).
  { intros pd. unfold try_except, parse_percentiles, sbind, eval. cbn [py_get].
    destruct (dict_get "citation_normalized_percentile" wd) as [v|] eqn:Hget;
      [|reflexivity].
    apply Hscalar in Hget. destruct v; try discriminate Hget; reflexivity. }
  assert (Hoa : forall pd,
            Forall (fun kv => In (fst kv) fixed_keys /\ hashable (snd kv) = true) pd ->
            Forall (fun kv => In (fst kv) fixed_keys /\ hashable (snd kv) = true)
              (try_except (parse_open_access (VDict wd)) pd)).
  { intros pd Hpd. unfold try_except, parse_open_access, sbind, eval, store.
    cbn [py_get].
    destruct (dict_get "open_access" wd) as [v|] eqn:Hget.
    - apply Hscalar in Hget. destruct v; try discriminate Hget; exact Hpd.
    - cbn. fixed_hashable. }
  assert (Hgrants : forall pd, try_except (parse_grants (VDict wd)) pd = pd).
  { intros pd. unfold try_except, parse_grants, sbind, eval. cbn [py_get].
    destruct (dict_get "grants" wd) as [v|] eqn:Hget; [|reflexivity].
    apply Hscalar in Hget. destruct v as [| | | |s| |]; try discriminate Hget;
      try reflexivity.
    cbn [py_iter fst snd]. unfold enumerate.
    destruct (list_ascii_of_string s) as [|c l]; reflexivity. }
  assert (Hcodes : forall pd,
            Forall (fun kv => In (fst kv) fixed_keys /\ hashable (snd kv) = true) pd ->
            Forall (fun kv => In (fst kv) fixed_keys /\ hashable (snd kv) = true)
              (try_except (parse_countries_codes (VDict wd)) pd)).
  { intros pd Hpd. unfold try_except, parse_countries_codes, sbind, eval, store.
    cbn [py_get fst snd].
    destruct (extract_unique_country_codes _) as [codes|e]; [|exact Hpd].
    cbn [snd]. fixed_hashable. }
  assert (Hnames : forall pd, try_except (parse_display_names (VDict wd)) pd = pd).
  { intros pd. unfold try_except, parse_display_names.
    now rewrite (flat_record_find_display_names wd Hflat). }
  assert (Habs : forall pd,
            Forall (fun kv => In (fst kv) fixed_keys /\ hashable (snd kv) = true) pd ->
            Forall (fun kv => In (fst kv) fixed_keys /\ hashable (snd kv) = true)
              (try_except (parse_abstract (VDict wd)) pd)).
  { intros pd Hpd. unfold try_except, parse_abstract, sbind, eval, store.
    cbn [py_get fst snd].
    destruct (extract_abstract_of _) as [s|]; [|exact Hpd].
    cbn [snd]. fixed_hashable. }
  unfold_blocks include_abstract;
    repeat first
      [ apply Habs | rewrite Hnames | apply Hcodes | rewrite Hgrants | apply Hoa
      | rewrite Hperc | apply Hdate | apply Hloc
      | apply Hcount; [vm_compute; tauto|] | apply Hapc | apply Hids
      | apply Hbasic; [vm_compute; tauto|] | apply Forall_nil ].
Qed.

(** On a record without nesting nothing is merged, and [parse_work]
    returns [parsed_data] as it is. *)
Lemma parse_work_flat_record (wd : list (string * value)) (include_abstract : bool) :
  flat_record wd ->
  parse_work (VDict wd) include_abstract
  = Ok (parsed_fields (VDict wd) include_abstract).
Proof.
  intros Hflat. pose proof (flat_record_blocks wd include_abstract Hflat) as Hpd.
  destruct (parsed_fields_keys (VDict wd) include_abstract) as [_ Hnd].
  unfold parse_work, merge_and_deduplicate.
  rewrite (merge_loop_index_free (parsed_fields (VDict wd) include_abstract)).
  - cbn [app bind]. apply merge_finish_singletons.
  - intros k Hk. apply fixed_keys_index_free. unfold keys in Hk.
    apply in_map_iff in Hk. destruct Hk as [kv [<- Hkv]].
    rewrite Forall_forall in Hpd. now apply Hpd.
  - exact Hnd.
  - eapply Forall_impl; [|exact Hpd]. now intros kv [_ H].
  - intros k _ [].
Qed.

(** ** The cost and the publication date in parsed_data *)



Lemma parse_publication_date_get (wd : list (string * value)) (pd : dict value) :
  dict_get "publication_date" pd = None ->
  dict_get "publication_date" (try_except (parse_publication_date (VDict wd)) pd)
  = match dict_get "publication_date" wd with
    | Some v => publication_date_of v
    | None => None
    end.
Proof.
  intros Hpd. unfold try_except, parse_publication_date, publication_date_of. cbn.
  destruct (dict_get "publication_date" wd) as [v|]; [|exact Hpd].
  destruct (truthy v); [|exact Hpd]. cbn.
  destruct (convert_publication_date v); cbn; [apply dict_get_set_same | exact Hpd].
Qed.

Lemma parsed_fields_publication_date (wd : list (string * value))
  (include_abstract : bool) :
  dict_get "publication_date" (parsed_fields (VDict wd) include_abstract)
  = match dict_get "publication_date" wd with
    | Some v => publication_date_of v
    | None => None
    end.
Proof.
  unfold_blocks include_abstract; repeat peel_block;
    (rewrite parse_publication_date_get; [reflexivity|]);
    repeat peel_block; reflexivity.
Qed.

Lemma plain_key_basic (field : string) : In field basic_fields -> plain_key field.
Proof.
  intros H. cbn in H.
  repeat (destruct H as [<-|H]; [vm_compute; tauto|]). destruct H.
Qed.


Lemma plain_key_publication_date : plain_key "publication_date".
Proof. vm_compute. tauto. Qed.

(** C8, as amended.  For every input record and each of the enumerated
    top-level fields (id, doi, title, publication_year, language, type),
    [parse_work] either raises a [TypeError] in its final merge or returns
    a mapping in which the field is present: with the value of the input,
    copied verbatim, when the input has the field, and otherwise with
    [None], or the empty string for [doi].  On a record without nesting
    (every value a scalar, no key containing display_name) it returns, and
    the output holds the field so. *)
Theorem parse_work_basic_fields (wd : list (string * value))
  (include_abstract : bool) (field : string) :
  In field basic_fields ->
  match parse_work (VDict wd) include_abstract with
  | Ok out =>
      dict_get field out
      = Some match dict_get field wd with
             | Some v => v
             | None => if String.eqb field "doi" then VStr "" else VNone
             end
  | Raise e => e = TypeError
  end
  /\ (flat_record wd ->
      exists out,
        parse_work (VDict wd) include_abstract = Ok out
        /\ dict_get field out
           = Some match dict_get field wd with
                  | Some v => v
                  | None => if String.eqb field "doi" then VStr "" else VNone
                  end).
Proof.
  intros Hin.
  pose proof (parse_work_plain_key (VDict wd) include_abstract field
                (plain_key_basic field Hin)) as H.
  split.
  - destruct (parse_work (VDict wd) include_abstract) as [out|e]; [|exact H].
    rewrite H. now apply parsed_fields_basic.
  - intros Hflat. rewrite (parse_work_flat_record wd include_abstract Hflat).
    eexists. split; [reflexivity|]. now apply parsed_fields_basic.
Qed.


(** C4, as amended.  For every record whose [publication_date] is a
    string, [parse_work] either raises a [TypeError] in its final merge or
    returns a mapping in which
    - the field is the date suffixed with T00:00:00Z when the string is a
      date of the calendar written YYYY-MM-DD;
    - the field is present with the value [None] when the string is not
      empty and [strptime] rejects it;
    - the field is absent when the string is empty.
    [strptime] accepts or rejects every string with a [ValueError], and an
    accepted string gives the ISO form of the date it was read as.  On a
    record without nesting (every value a scalar, no key containing
    display_name) [parse_work] returns. *)
Theorem parse_work_publication_date (wd : list (string * value))
  (include_abstract : bool) (s : string) :
  dict_get "publication_date" wd = Some (VStr s) ->
  match parse_work (VDict wd) include_abstract with
  | Ok out =>
      (forall y m d, valid_date y m d -> s = date_string y m d ->
         dict_get "publication_date" out = Some (VStr (s ++ "T00:00:00Z")))
      /\ (s <> "" -> strptime_ymd (VStr s) = Raise ValueError ->
          dict_get "publication_date" out = Some VNone)
      /\ (s = "" -> dict_get "publication_date" out = None)
      /\ (forall dt, s <> "" -> strptime_ymd (VStr s) = Ok dt ->
            dict_get "publication_date" out = Some (VStr (isoformat dt ++ "Z")))
      /\ ((exists dt, strptime_ymd (VStr s) = Ok dt)
          \/ strptime_ymd (VStr s) = Raise ValueError)
  | Raise e => e = TypeError
  end
  /\ (flat_record wd ->
      exists out, parse_work (VDict wd) include_abstract = Ok out).
Proof.
  intros Hs.
  pose proof (parse_work_plain_key (VDict wd) include_abstract "publication_date"
                plain_key_publication_date) as H.
  split;
    [|intros Hflat; rewrite (parse_work_flat_record wd include_abstract Hflat);
      eauto].
  destruct (parse_work (VDict wd) include_abstract) as [out|e]; [|exact H].
  rewrite H, parsed_fields_publication_date, Hs.
  unfold publication_date_of, convert_publication_date. cbn [truthy].
  assert (Hne : s <> "" -> negb (String.eqb s "") = true).
  { intros Hne. apply negb_true_iff. now apply String.eqb_neq. }
  repeat split.
  - intros y m d Hv ->.
    assert (Hd : date_string y m d <> "") by (unfold date_string, pad4; discriminate).
    rewrite (Hne Hd), (strptime_ymd_date_string y m d Hv).
    now rewrite isoformat_date_string.
  - intros Hs0 Hraise. now rewrite (Hne Hs0), Hraise.
  - intros ->. reflexivity.
  - intros dt Hs0 Hok. now rewrite (Hne Hs0), Hok.
  - apply strptime_ymd_str.
Qed.

(** ** extract_abstract *)

Lemma set_nth_length {A : Type} (n : nat) (x : A) (l : list A) :
  List.length (set_nth n x l) = List.length l.
Proof.
  revert n. induction l as [|y l IH]; intros [|n]; simpl; auto.
Qed.

Lemma set_nth_nth {A : Type} (n j : nat) (x d : A) (l : list A) :
  (n < List.length l)%nat ->
  nth j (set_nth n x l) d = if Nat.eqb j n then x else nth j l d.
Proof.
  revert n j. induction l as [|y l IH]; intros n j Hn; simpl in Hn; [lia|].
  destruct n as [|n], j as [|j]; simpl; try reflexivity.
  apply IH. lia.
Qed.

Lemma fold_max_spec (l : list Z) :
  forall b,
    (b <= fold_left Z.max l b)%Z
    /\ (forall p, In p l -> (p <= fold_left Z.max l b)%Z)
    /\ (fold_left Z.max l b = b \/ In (fold_left Z.max l b) l).
Proof.
  induction l as [|x l IH]; intros b; simpl.
  - split; [lia|]. split; [intros p []|now left].
  - destruct (IH (Z.max b x)) as [H1 [H2 H3]]. split; [lia|]. split.
    + intros p [<-|Hp]; [lia | now apply H2].
    + destruct H3 as [H3|H3]; [|now right; right].
      rewrite H3.
      destruct (Z.max_spec b x) as [[_ E]|[_ E]]; rewrite E; auto.
Qed.

Lemma max_positions_spec (values : list (list Z)) :
  Forall (fun pos => pos <> []) values ->
  forall best, exists m,
    max_positions values best = Ok m
    /\ (best <= m)%Z
    /\ (forall p, In p (List.concat values) -> (p <= m)%Z)
    /\ (m = best \/ In m (List.concat values)).
Proof.
  induction 1 as [|pos values Hpos Hv IH]; intros best; simpl.
  - exists best. split; [reflexivity|]. split; [lia|].
    split; [intros p []|now left].
  - destruct pos as [|p0 pos]; [congruence|]. simpl.
    destruct (fold_max_spec pos p0) as [F1 [F2 F3]].
    destruct (IH (Z.max best (fold_left Z.max pos p0))) as [m [Hm [M1 [M2 M3]]]].
    exists m. split; [exact Hm|]. split; [lia|]. split.
    + intros p [<-|Hp]; [lia|].
      apply in_app_or in Hp. destruct Hp as [Hp|Hp].
      * specialize (F2 p Hp). lia.
      * now apply M2.
    + destruct M3 as [M3|M3].
      * destruct (Z.max_spec best (fold_left Z.max pos p0)) as [[_ E]|[_ E]];
          rewrite E in M3; [|now left].
        right. subst m.
        destruct F3 as [F3|F3]; [left; now rewrite F3|].
        right. apply in_or_app. now left.
      * right. right. apply in_or_app. now right.
Qed.

Lemma place_word_spec (word : string) (positions : list Z) :
  forall words,
    Forall (fun p => (0 <= p < Z.of_nat (List.length words))%Z) positions ->
    exists words',
      place_word word positions words = Ok words'
      /\ List.length words' = List.length words
      /\ forall i, (0 <= i)%Z ->
           nth (Z.to_nat i) words' ""
           = if existsb (Z.eqb i) positions then word
             else nth (Z.to_nat i) words "".
Proof.
  induction positions as [|p positions IH]; intros words Hp; simpl.
  - exists words. auto.
  - inversion Hp as [|? ? Hp0 Hps]; subst.
    unfold list_assign.
    replace ((0 <=? p)%Z && (p <? Z.of_nat (List.length words))%Z) with true
      by (symmetry; apply andb_true_intro; split;
          [apply Z.leb_le | apply Z.ltb_lt]; lia).
    simpl.
    destruct (IH (set_nth (Z.to_nat p) word words)) as [words' [Hw [Hl Hn]]].
    { rewrite set_nth_length. exact Hps. }
    exists words'. split; [exact Hw|]. split.
    + now rewrite Hl, set_nth_length.
    + intros i Hi. rewrite (Hn i Hi), set_nth_nth by lia.
      destruct (Z.eqb i p) eqn:E.
      * apply Z.eqb_eq in E. subst i. rewrite Nat.eqb_refl. simpl.
        now destruct (existsb _ positions).
      * assert (Hne : Nat.eqb (Z.to_nat i) (Z.to_nat p) = false).
        { apply Nat.eqb_neq. apply Z.eqb_neq in E. lia. }
        now rewrite Hne.
Qed.

Lemma place_words_spec (items : inverted_index) :
  forall words,
    Forall (fun wp => Forall (fun p => (0 <= p < Z.of_nat (List.length words))%Z)
                        (snd wp)) items ->
    exists words',
      place_words items words = Ok words'
      /\ List.length words' = List.length words
      /\ forall i, (0 <= i)%Z ->
           nth (Z.to_nat i) words' ""
           = fold_left (fun cur wp => if occurs_at i wp then fst wp else cur)
               items (nth (Z.to_nat i) words "").
Proof.
  induction items as [|[word positions] items IH]; intros words Hp; simpl.
  - exists words. auto.
  - inversion Hp as [|? ? Hp0 Hps]; subst. simpl in Hp0.
    destruct (place_word_spec word positions words Hp0) as [w1 [Hw1 [Hl1 Hn1]]].
    rewrite Hw1. simpl.
    destruct (IH w1) as [words' [Hw [Hl Hn]]].
    { rewrite Hl1. exact Hps. }
    exists words'. split; [exact Hw|]. split; [congruence|].
    intros i Hi. rewrite (Hn i Hi), (Hn1 i Hi). reflexivity.
Qed.

Lemma nth_repeat_empty (n i : nat) : nth i (repeat "" n) "" = "".
Proof.
  revert i. induction n as [|n IH]; intros [|i]; simpl; auto.
Qed.

(** The step of the reconstruction on a non-empty, well-formed index. *)
Lemma extract_abstract_words (index : inverted_index) :
  index <> [] -> well_formed_index index ->
  exists m words,
    In m (all_positions index)
    /\ (forall p, In p (all_positions index) -> (p <= m)%Z)
    /\ List.length words = Z.to_nat (m + 1)
    /\ (forall i, (0 <= i <= m)%Z -> nth (Z.to_nat i) words "" = word_at index i)
    /\ extract_abstract (Some index)
       = Ok (concat " " (filter non_empty words)).
Proof.
  intros Hne Hwf. destruct index as [|[w0 pos0] rest]; [congruence|].
  inversion Hwf as [|? ? [Hpos0 Hnn0] Hrest]; subst. simpl in Hpos0, Hnn0.
  destruct pos0 as [|p0 pos0]; [congruence|].
  destruct (fold_max_spec pos0 p0) as [F1 [F2 F3]].
  destruct (max_positions_spec (map snd rest)) with
    (best := fold_left Z.max pos0 p0) as [m [Hm [M1 [M2 M3]]]].
  { rewrite Forall_map. eapply Forall_impl; [|exact Hrest]. now intros wp [H _]. }
  assert (Hall : forall p, In p (all_positions ((w0, p0 :: pos0) :: rest)) ->
                           (0 <= p <= m)%Z).
  { unfold all_positions. simpl. intros p Hp.
    assert (Hnn : (0 <= p)%Z).
    { destruct Hp as [<-|Hp]; [now inversion Hnn0|].
      apply in_app_or in Hp. destruct Hp as [Hp|Hp].
      - inversion Hnn0 as [|? ? _ Hnn1]; subst.
        rewrite Forall_forall in Hnn1. now apply Hnn1.
      - apply in_concat in Hp. destruct Hp as [ps [Hps Hp]].
        apply in_map_iff in Hps. destruct Hps as [wp [<- Hwp]].
        rewrite Forall_forall in Hrest. destruct (Hrest wp Hwp) as [_ Hnn].
        rewrite Forall_forall in Hnn. now apply Hnn. }
    split; [exact Hnn|].
    destruct Hp as [<-|Hp]; [lia|].
    apply in_app_or in Hp. destruct Hp as [Hp|Hp].
    - specialize (F2 p Hp). lia.
    - now apply M2. }
  assert (Hin : In m (all_positions ((w0, p0 :: pos0) :: rest))).
  { unfold all_positions. simpl. destruct M3 as [->|M3].
    - destruct F3 as [->|F3]; [now left | right; apply in_or_app; now left].
    - right. apply in_or_app. now right. }
  destruct (place_words_spec ((w0, p0 :: pos0) :: rest)
              (repeat "" (Z.to_nat (m + 1)))) as [words [Hw [Hl Hn]]].
  { rewrite repeat_length. apply Forall_forall. intros [w ps] Hwp.
    apply Forall_forall. intros p Hp. simpl in Hp.
    assert (Hp' : In p (all_positions ((w0, p0 :: pos0) :: rest))).
    { unfold all_positions. apply in_concat. exists ps. split; [|exact Hp].
      apply in_map_iff. now exists (w, ps). }
    specialize (Hall p Hp'). lia. }
  exists m, words. split; [exact Hin|]. split; [intros p Hp; now apply Hall|].
  split; [now rewrite Hl, repeat_length|]. split.
  - intros i Hi. rewrite (Hn i) by lia. now rewrite nth_repeat_empty.
  - unfold extract_abstract. cbn [max_list bind].
    rewrite Hm. cbn [bind].
    rewrite Hw. reflexivity.
Qed.

Lemma word_at_last (pre post : inverted_index) (wp : string * list Z) (i : Z) :
  occurs_at i wp = true ->
  Forall (fun wp' => occurs_at i wp' = false) post ->
  word_at (pre ++ wp :: post) i = fst wp.
Proof.
  intros Hwp Hpost. unfold word_at. rewrite fold_left_app. simpl. rewrite Hwp.
  induction Hpost as [|wp' post Hwp' Hpost IH]; simpl; [reflexivity|].
  now rewrite Hwp'.
Qed.

(** C6, as amended.  [extract_abstract] returns the sentinel on an absent
    and on an empty index.  On any other index in which every word has a
    position and no position is negative, it fills a sequence of length
    (maximum position) + 1, in which each position holds the word that
    lists it (the last such word of the index, should several list it; the
    empty string when none does), and returns the slots that are not the
    empty string, joined by single spaces in positional order; when no
    position is listed twice, every word is at each of its positions. *)
Theorem extract_abstract_reconstructs :
  extract_abstract None = Ok "No abstract available"
  /\ extract_abstract (Some []) = Ok "No abstract available"
  /\ forall index : inverted_index,
       index <> [] -> well_formed_index index ->
       exists m words,
         In m (all_positions index)
         /\ (forall p, In p (all_positions index) -> (p <= m)%Z)
         /\ List.length words = Z.to_nat (m + 1)
         /\ (forall i, (0 <= i <= m)%Z ->
               nth (Z.to_nat i) words "" = word_at index i)
         /\ (disjoint_positions index ->
             forall word positions p,
               In (word, positions) index -> In p positions ->
               nth (Z.to_nat p) words "" = word)
         /\ extract_abstract (Some index)
            = Ok (concat " "
                    (filter (fun word => negb (String.eqb word "")) words)).
Proof.
  split; [reflexivity|]. split; [reflexivity|].
  intros index Hne Hwf.
  destruct (extract_abstract_words index Hne Hwf) as [m [words [H1 [H2 [H3 [H4 H5]]]]]].
  exists m, words.
  split; [exact H1|]. split; [exact H2|]. split; [exact H3|]. split; [exact H4|].
  split; [|exact H5].
  intros Hdis word positions p Hin Hp.
  assert (Hp' : In p (all_positions index)).
  { unfold all_positions. apply in_concat. exists positions. split; [|exact Hp].
    apply in_map_iff. now exists (word, positions). }
  assert (Hp0 : (0 <= p)%Z).
  { unfold well_formed_index in Hwf. rewrite Forall_forall in Hwf.
    destruct (Hwf _ Hin) as [_ Hnn]. rewrite Forall_forall in Hnn. now apply Hnn. }
  rewrite H4 by (split; [exact Hp0 | now apply H2]).
  apply in_split in Hin. destruct Hin as [pre [post ->]].
  assert (Hocc : occurs_at p (word, positions) = true).
  { unfold occurs_at. apply existsb_exists. exists p. split; [exact Hp|].
    apply Z.eqb_refl. }
  apply (word_at_last pre post (word, positions) p Hocc).
  now apply (Hdis pre (word, positions) post p).
Qed.
(** ** find_display_names *)

Lemma find_display_names_dict (d : list (string * value)) (path : string) :
  find_display_names (VDict d) path
  = flat_map (fun kv =>
                if contains "display_name" (fst kv)
                then [(key_path path (fst kv), snd kv)]
                else find_display_names (snd kv) (key_path path (fst kv))) d.
Proof.
  induction d as [|[key v] d IH]; [reflexivity|].
  simpl in *. now rewrite <- IH.
Qed.

Lemma find_display_names_list (l : list value) (path : string) :
  find_display_names (VList l) path
  = flat_map (fun iv => find_display_names (snd iv) (index_path path (fst iv)))
      (enumerate l).
Proof.
  unfold enumerate. simpl. generalize 0%nat.
  induction l as [|item l IH]; intros n; [reflexivity|].
  simpl. now rewrite IH.
Qed.

Lemma in_enumerate {A : Type} (l : list A) (i : nat) (x : A) :
  In (i, x) (enumerate l) <-> nth_error l i = Some x.
Proof.
  unfold enumerate.
  assert (H : forall n, In (i, x) (combine (seq n (List.length l)) l)
                        <-> (n <= i)%nat /\ nth_error l (i - n) = Some x).
  { induction l as [|y l IH]; intros n; simpl.
    - split; [intros [] | intros [_ H]]. now destruct (i - n)%nat.
    - rewrite IH. split.
      + intros [[= <- <-]|[Hle Hn]].
        * rewrite Nat.sub_diag. auto.
        * split; [lia|]. replace (i - n)%nat with (S (i - S n)) by lia. exact Hn.
      + intros [Hle Hn]. destruct (i - n)%nat as [|k] eqn:E.
        * left. injection Hn as <-. f_equal. lia.
        * right. split; [lia|]. replace (i - S n)%nat with k by lia. exact Hn. }
  rewrite H, Nat.sub_0_r. intuition lia.
Qed.

(** The pairs the traversal yields are the values of the topmost keys
    that contain display_name, under their paths. *)
Lemma find_display_names_topmost (obj : value) :
  forall path p v,
    In (p, v) (find_display_names obj path) <->
    exists steps k,
      contains "display_name" k = true
      /\ Forall (fun s => names_display s = false) steps
      /\ reaches obj (steps ++ [Key k]) v
      /\ p = render path (steps ++ [Key k]).
Proof.
  induction obj as [| | | | |l IH|d IH] using value_ind_nested; intros path p v.
  1-5: split; [intros [] | intros [[|st steps] [k [_ [_ [[mid [[] _]] _]]]]]].
  - rewrite find_display_names_list, in_flat_map. split.
    + intros [[i item] [Hin Hy]]. simpl in Hy. apply in_enumerate in Hin.
      rewrite Forall_forall in IH.
      apply (IH item (nth_error_In _ _ Hin)) in Hy.
      destruct Hy as [steps [k [Hk [Hs [Hr ->]]]]].
      exists (Index i :: steps), k. repeat split; auto.
      simpl. eauto.
    + intros [steps [k [Hk [Hs [Hr ->]]]]].
      destruct steps as [|s steps]; simpl in Hr; destruct Hr as [mid [Hc Hr]].
      * destruct Hc.
      * destruct s as [key|i]; [destruct Hc|]. simpl in Hc.
        exists (i, mid). split; [now apply in_enumerate|]. simpl.
        rewrite Forall_forall in IH. apply (IH mid (nth_error_In _ _ Hc)).
        inversion Hs; subst. exists steps, k. auto.
  - rewrite find_display_names_dict, in_flat_map. split.
    + intros [[key value] [Hin Hy]]. simpl in Hy.
      destruct (contains "display_name" key) eqn:Hkey.
      * destruct Hy as [[= <- <-]|[]]. exists [], key. repeat split; auto.
        simpl. eauto.
      * rewrite Forall_forall in IH. apply (IH (key, value) Hin) in Hy.
        destruct Hy as [steps [k [Hk [Hs [Hr ->]]]]].
        exists (Key key :: steps), k. repeat split; auto.
        simpl. eauto.
    + intros [steps [k [Hk [Hs [Hr ->]]]]].
      destruct steps as [|s steps]; simpl in Hr; destruct Hr as [mid [Hc Hr]].
      * simpl in Hc. subst v. exists (k, mid). split; [exact Hc|].
        simpl. rewrite Hk. now left.
      * destruct s as [key|i]; [|destruct Hc]. simpl in Hc.
        inversion Hs as [|? ? Hkey Hs']; subst. simpl in Hkey.
        exists (key, mid). split; [exact Hc|]. simpl. rewrite Hkey.
        rewrite Forall_forall in IH. apply (IH (key, mid) Hc).
        exists steps, k. auto.
Qed.


(** ** list_all_resources *)

Lemma list_resources_log (self : OpenAlexClient) (api_endpoint : string)
  (digest abstract : bool) (per_page page : Z) (kwargs : dict value)
  (log : list request) :
  list_resources self api_endpoint digest abstract
    (page_kwargs page per_page kwargs) log
  = (fst (list_resources self api_endpoint digest abstract
            (page_kwargs page per_page kwargs) []),
     log ++ [page_request self api_endpoint per_page kwargs page]).
Proof.
  unfold list_resources, page_request, endpoint_url, sbind, get_json.
  cbn [page_kwargs dict_get String.eqb Ascii.eqb Bool.eqb app].
  change (dict_get "per_page" (page_kwargs page per_page kwargs))
    with (Some (@VInt F per_page)).
  cbv iota.
  destruct (transport self _ _) as [data|e]; [|reflexivity].
  destruct (digest && String.eqb api_endpoint WORKS); unfold eval, sret;
    repeat match goal with
      | |- context [match ?r with Ok _ => _ | Raise _ => _ end] => destruct r
      end; reflexivity.
Qed.

Lemma get_total_count_log (self : OpenAlexClient) (api_endpoint : string)
  (kwargs : dict value) (log : list request) :
  get_total_count self api_endpoint kwargs log
  = (fst (get_total_count self api_endpoint kwargs []),
     log ++ [count_request self api_endpoint kwargs]).
Proof.
  unfold get_total_count, count_request, endpoint_url, sbind, get_json, eval.
  destruct (transport self _ _) as [data|e].
  - repeat match goal with
      | |- context [match ?r with Ok _ => _ | Raise _ => _ end] => destruct r
      end; try reflexivity;
      match goal with |- context [match ?e with TypeError => _ | _ => _ end] =>
        destruct e end; reflexivity.
  - destruct e; reflexivity.
Qed.

(** The loop over the pages: it goes through the pages that answer with
    records, and stops at the first page that fails or answers with
    nothing, keeping what it has. *)
Lemma fetch_pages_run (self : OpenAlexClient) (api_endpoint : string)
  (digest abstract : bool) (per_page : Z) (kwargs : dict value)
  (recs : Z -> list value) (good rest : list Z) :
  let outcome page :=
    fst (list_resources self api_endpoint digest abstract
           (page_kwargs page per_page kwargs) []) in
  (forall page, In page good ->
     outcome page = Ok (VList (recs page)) /\ recs page <> []) ->
  match rest with
  | [] => True
  | page :: _ =>
      outcome page = Raise OpenAlexClientError
      \/ exists v, outcome page = Ok v /\ truthy v = false
  end ->
  forall all_records log,
    fetch_pages self api_endpoint digest abstract per_page kwargs
      (good ++ rest) all_records log
    = (Ok (all_records ++ flat_map recs good),
       log ++ map (page_request self api_endpoint per_page kwargs)
                (good ++ firstn 1 rest)).
Proof.
  intros outcome Hgood Hrest.
  induction good as [|page good IH]; intros all_records log.
  - simpl. rewrite app_nil_r. destruct rest as [|page rest]; simpl.
    + now rewrite app_nil_r.
    + rewrite list_resources_log. fold (outcome page).
      destruct Hrest as [->|[v [-> Hv]]]; [reflexivity|]. now rewrite Hv.
  - cbn [app fetch_pages]. rewrite list_resources_log. fold (outcome page).
    destruct (Hgood page (or_introl eq_refl)) as [-> Hne].
    assert (Ht : truthy (VList (recs page)) = true).
    { simpl. now destruct (recs page). }
    rewrite Ht. cbn [py_iter].
    rewrite IH by (intros q Hq; apply Hgood; now right).
    cbn [flat_map map]. now rewrite <- !app_assoc.
Qed.

Lemma ceil_div (total p : Z) :
  (0 < p)%Z ->
  (p * ((total + p - 1) / p - 1) < total <= p * ((total + p - 1) / p))%Z.
Proof.
  intros Hp.
  pose proof (Z.div_mod (total + p - 1) p ltac:(lia)) as Hdm.
  pose proof (Z.mod_pos_bound (total + p - 1) p Hp) as Hmod.
  nia.
Qed.

Lemma pages_upto_split (k n : nat) :
  (k <= n)%nat ->
  pages_upto n = pages_upto k ++ map Z.of_nat (seq (S k) (n - k)).
Proof.
  intros Hle. unfold pages_upto. rewrite <- map_app. f_equal.
  replace n with (k + (n - k))%nat at 1 by lia. apply seq_app.
Qed.

(** ** The parameters of the requests *)

Lemma fold_params_get (kwargs : dict value) (k : string) :
  NoDup (keys kwargs) ->
  forall params,
    dict_get k (fold_left (fun params kv =>
                             if is_none (snd kv) then params
                             else dict_set (fst kv) (snd kv) params)
                  kwargs params)
    = match dict_get k kwargs with
      | Some v => if is_none v then dict_get k params else Some v
      | None => dict_get k params
      end.
Proof.
  induction kwargs as [|[k' v'] kwargs IH]; intros Hnd params; [reflexivity|].
  inversion Hnd as [|? ? Hnin Hnd']; subst.
  cbn [fold_left fst snd dict_get]. rewrite (IH Hnd').
  destruct (String.eqb k' k) eqn:E.
  - apply String.eqb_eq in E. subst k'.
    rewrite (proj2 (dict_get_None k kwargs) Hnin).
    destruct (is_none v'); [reflexivity | apply dict_get_set_same].
  - apply String.eqb_neq in E.
    assert (Hsame : dict_get k (if is_none v' then params else dict_set k' v' params)
                    = dict_get k params).
    { destruct (is_none v'); [reflexivity | now apply dict_get_set_other]. }
    now rewrite Hsame.
Qed.

Lemma fold_params_fresh (kwargs : dict value) (k : string) :
  ~ In k (keys kwargs) ->
  forall params,
    dict_get k (fold_left (fun params kv =>
                             if is_none (snd kv) then params
                             else dict_set (fst kv) (snd kv) params)
                  kwargs params)
    = dict_get k params.
Proof.
  induction kwargs as [|[k' v'] kwargs IH]; intros Hk params; [reflexivity|].
  cbn [fold_left fst snd]. rewrite IH by (intros H; apply Hk; now right).
  destruct (is_none v'); [reflexivity|].
  apply dict_get_set_other. intros ->. apply Hk. now left.
Qed.

Lemma dict_pop_absent {V : Type} (k : string) (d : dict V) :
  NoDup (keys d) -> ~ In k (keys (dict_pop k d)).
Proof.
  unfold keys. induction d as [|[k' v] d IH]; intros Hnd; [intros []|].
  inversion Hnd as [|? ? Hnin Hnd']; subst. cbn [dict_pop].
  destruct (String.eqb k' k) eqn:E.
  - apply String.eqb_eq in E. now subst k'.
  - apply String.eqb_neq in E. cbn [map fst]. intros [H|H]; [contradiction|].
    now apply IH.
Qed.

Lemma dict_pop_keys {V : Type} (k k' : string) (d : dict V) :
  In k' (keys (dict_pop k d)) -> In k' (keys d).
Proof.
  unfold keys. induction d as [|[k0 v] d IH]; [intros []|]. cbn [dict_pop].
  destruct (String.eqb k0 k); cbn [map fst]; [now right|].
  intros [H|H]; [now left | right; now apply IH].
Qed.

Lemma NoDup_dict_pop {V : Type} (k : string) (d : dict V) :
  NoDup (keys d) -> NoDup (keys (dict_pop k d)).
Proof.
  unfold keys. induction d as [|[k0 v] d IH]; intros Hnd; [constructor|].
  inversion Hnd as [|? ? Hnin Hnd']; subst. cbn [dict_pop].
  destruct (String.eqb k0 k); [exact Hnd'|]. cbn [map fst]. constructor.
  - intros H. apply Hnin. now apply (dict_pop_keys k k0 d).
  - now apply IH.
Qed.

(** The count request asks for one result per page and names no page. *)
Lemma count_request_params (self : OpenAlexClient) (api_endpoint : string)
  (kwargs : dict value) :
  NoDup (keys kwargs) -> ~ In "page" (keys kwargs) ->
  dict_get "page" (snd (count_request self api_endpoint kwargs)) = None
  /\ dict_get "per_page" (snd (count_request self api_endpoint kwargs))
     = Some (VInt 1).
Proof.
  intros Hnd Hpage. unfold count_request, _build_params. cbn [snd]. split.
  - rewrite fold_params_fresh; [reflexivity|].
    intros H. apply keys_dict_set in H. destruct H as [H|H];
      [discriminate H | contradiction].
  - rewrite fold_params_get by now apply NoDup_keys_dict_set.
    now rewrite dict_get_set_same.
Qed.

(** The request of a page names the page and the page size. *)
Lemma page_request_params (self : OpenAlexClient) (api_endpoint : string)
  (per_page : Z) (kwargs : dict value) (page : Z) :
  ~ In "page" (keys kwargs) -> ~ In "per_page" (keys kwargs) ->
  dict_get "page" (snd (page_request self api_endpoint per_page kwargs page))
  = Some (VInt page)
  /\ dict_get "per_page" (snd (page_request self api_endpoint per_page kwargs page))
     = Some (VInt per_page).
Proof.
  intros Hpage Hpp. unfold page_request, _build_params, page_kwargs.
  cbn [snd fold_left fst is_none]. split.
  - now rewrite fold_params_fresh.
  - now rewrite fold_params_fresh.
Qed.

(** The loop over the pages, when a page fails with another exception than
    [OpenAlexClientError]: the exception leaves the loop, and the records
    of the pages before are not returned. *)
Lemma fetch_pages_fails (self : OpenAlexClient) (api_endpoint : string)
  (digest abstract : bool) (per_page : Z) (kwargs : dict value)
  (recs : Z -> list value) (good : list Z) (bad : Z) (rest : list Z) (e : exn) :
  let outcome page :=
    fst (list_resources self api_endpoint digest abstract
           (page_kwargs page per_page kwargs) []) in
  (forall page, In page good ->
     outcome page = Ok (VList (recs page)) /\ recs page <> []) ->
  outcome bad = Raise e -> e <> OpenAlexClientError ->
  forall all_records log,
    fetch_pages self api_endpoint digest abstract per_page kwargs
      (good ++ bad :: rest) all_records log
    = (Raise e,
       log ++ map (page_request self api_endpoint per_page kwargs) (good ++ [bad])).
Proof.
  intros outcome Hgood Hbad He.
  induction good as [|page good IH]; intros all_records log.
  - cbn [app fetch_pages map]. rewrite list_resources_log. fold (outcome bad).
    rewrite Hbad. destruct e; try reflexivity. contradiction.
  - cbn [app fetch_pages]. rewrite list_resources_log. fold (outcome page).
    destruct (Hgood page (or_introl eq_refl)) as [-> Hne].
    assert (Ht : truthy (VList (recs page)) = true).
    { simpl. now destruct (recs page). }
    rewrite Ht. cbn [py_iter].
    rewrite IH by (intros q Hq; apply Hgood; now right).
    cbn [map app]. now rewrite <- !app_assoc.
Qed.

(** C7, as amended.  With a count query that answers [total] (0 when it fails with
    [OpenAlexClientError]) and a positive page size [per_page],
    [list_all_resources] derives the page count ceil(total / per_page).
    The count request names no page and asks for one result per page; the
    request of a page names that page and the page size, whatever page the
    caller passed.  When the pages 1 to [k] answer with records:
    - if [k] is the page count, or the page [k + 1] fails with
      [OpenAlexClientError] or answers with nothing, the call returns the
      records of the pages 1 to [k], concatenated in page order, after one
      count request and the page requests 1 to [k] (and [k + 1] when that
      is the page that stopped the loop), sent in this order;
    - if the page [k + 1] fails with any other exception, the call raises
      that exception after the same requests, and the records of the
      pages 1 to [k] are not returned. *)
Theorem list_all_resources_pages (self : OpenAlexClient) (api_endpoint : string)
  (digest abstract : bool) (per_page : option Z) (kwargs : dict value)
  (total : Z) (recs : Z -> list value) (k : nat) :
  let p := match per_page with Some n => n | None => default_per_page self end in
  let kw := dict_pop "page" kwargs in
  let n := ((total + p - 1) / p)%Z in
  let outcome page :=
    fst (list_resources self api_endpoint digest abstract
           (page_kwargs page p kw) []) in
  let count := count_request self api_endpoint kw in
  let request page := page_request self api_endpoint p kw page in
  NoDup (keys kwargs) -> ~ In "per_page" (keys kwargs) ->
  (0 < p)%Z -> (0 <= total)%Z ->
  fst (get_total_count self api_endpoint kw []) = Ok (VInt total) ->
  (k <= Z.to_nat n)%nat ->
  (forall page, In page (pages_upto k) ->
     outcome page = Ok (VList (recs page)) /\ recs page <> []) ->
  (p * (n - 1) < total <= p * n)%Z
  /\ (dict_get "page" (snd count) = None
      /\ dict_get "per_page" (snd count) = Some (VInt 1))
  /\ (forall page,
        dict_get "page" (snd (request page)) = Some (VInt page)
        /\ dict_get "per_page" (snd (request page)) = Some (VInt p))
  /\ (k = Z.to_nat n
      \/ outcome (Z.of_nat (S k)) = Raise OpenAlexClientError
      \/ (exists v, outcome (Z.of_nat (S k)) = Ok v /\ truthy v = false) ->
      list_all_resources self api_endpoint digest abstract per_page kwargs []
      = (Ok (flat_map recs (pages_upto k)),
         count :: map request (pages_upto (Nat.min (S k) (Z.to_nat n)))))
  /\ (forall e,
        (k < Z.to_nat n)%nat ->
        outcome (Z.of_nat (S k)) = Raise e -> e <> OpenAlexClientError ->
        list_all_resources self api_endpoint digest abstract per_page kwargs []
        = (Raise e, count :: map request (pages_upto (S k)))).
Proof.
  intros p kw n outcome count request Hnd Hpp Hp Htotal Hcount Hk Hgood.
  assert (Hpage : ~ In "page" (keys kw)) by now apply dict_pop_absent.
  assert (Hkw : NoDup (keys kw)) by now apply NoDup_dict_pop.
  assert (Hppkw : ~ In "per_page" (keys kw)).
  { intros H. apply Hpp. now apply (dict_pop_keys "page" "per_page" kwargs). }
  split; [now apply ceil_div|].
  split; [now apply count_request_params|].
  split; [intros page; now apply page_request_params|].
  split.
  - intros Hstop.
    unfold list_all_resources. fold p kw. unfold sbind at 1.
    rewrite get_total_count_log, Hcount. cbn [app].
    destruct (Z.eq_dec total 0) as [Hzero|Hpos].
    { assert (Hn : n = 0%Z).
      { unfold n. rewrite Hzero. apply Z.div_small. lia. }
      rewrite Hn in Hk. cbn in Hk. assert (k = 0%nat) by lia. subst k.
      rewrite Hzero, Hn. reflexivity. }
    assert (Hz : py_eq (VInt total) (VInt 0) = false).
    { simpl. apply Z.eqb_neq. lia. }
    rewrite Hz. unfold sbind, eval, total_pages_of.
    assert (Hp0 : (p =? 0)%Z = false) by (apply Z.eqb_neq; lia).
    rewrite Hp0. fold n. unfold page_range. fold (pages_upto (Z.to_nat n)).
    rewrite (pages_upto_split k (Z.to_nat n) Hk).
    rewrite (fetch_pages_run self api_endpoint digest abstract p kw recs).
    + cbn [app]. f_equal. f_equal. f_equal.
      destruct (Nat.eq_dec k (Z.to_nat n)) as [->|Hne].
      * rewrite Nat.sub_diag. cbn [seq map firstn]. rewrite app_nil_r.
        f_equal. lia.
      * replace (Z.to_nat n - k)%nat with (S (Z.to_nat n - S k)) by lia.
        cbn [seq map firstn].
        replace (Nat.min (S k) (Z.to_nat n)) with (S k) by lia.
        unfold pages_upto. rewrite seq_S, map_app. reflexivity.
    + exact Hgood.
    + destruct (Nat.eq_dec k (Z.to_nat n)) as [->|Hne].
      * now rewrite Nat.sub_diag.
      * replace (Z.to_nat n - k)%nat with (S (Z.to_nat n - S k)) by lia.
        cbn [seq map]. destruct Hstop as [->|Hstop]; [congruence | exact Hstop].
  - intros e Hlt Hbad He.
    unfold list_all_resources. fold p kw. unfold sbind at 1.
    rewrite get_total_count_log, Hcount. cbn [app].
    assert (Hpos : (0 < total)%Z).
    { pose proof (ceil_div total p Hp) as Hc. fold n in Hc.
      assert (1 <= n)%Z by lia. nia. }
    assert (Hz : py_eq (VInt total) (VInt 0) = false).
    { simpl. apply Z.eqb_neq. lia. }
    rewrite Hz. unfold sbind, eval, total_pages_of.
    assert (Hp0 : (p =? 0)%Z = false) by (apply Z.eqb_neq; lia).
    rewrite Hp0. fold n. unfold page_range. fold (pages_upto (Z.to_nat n)).
    rewrite (pages_upto_split k (Z.to_nat n)) by lia.
    replace (Z.to_nat n - k)%nat with (S (Z.to_nat n - S k)) by lia.
    cbn [seq map].
    rewrite (fetch_pages_fails self api_endpoint digest abstract p kw recs
               (pages_upto k) (Z.of_nat (S k)) _ e Hgood Hbad He).
    cbn [app]. f_equal. f_equal.
    unfold pages_upto, request. rewrite seq_S, !map_app. reflexivity.
Qed.
(** ** The display-name block of parse_work *)

Lemma collect_display_names_get (found : list (string * value)) :
  forall display_names p,
    dict_get p (collect_display_names found display_names)
    = match dict_get p display_names,
            (if retained p
             then map snd (filter (fun pv => String.eqb (fst pv) p) found)
             else []) with
      | None, [] => None
      | None, new => Some new
      | Some old, new => Some (old ++ new)
      end.
Proof.
  induction found as [|[path v] found IH]; intros dn p.
  - simpl. destruct (dict_get p dn) as [old|]; destruct (retained p);
      now rewrite ?app_nil_r.
  - cbn [collect_display_names filter fst].
    destruct (String.eqb path p) eqn:E.
    + apply String.eqb_eq in E. subst path.
      destruct (retained p) eqn:Hr.
      * rewrite IH, dict_get_set_same, Hr. cbn [map snd].
        destruct (dict_get p dn) as [old|].
        -- now rewrite <- app_assoc.
        -- reflexivity.
      * rewrite IH, Hr. reflexivity.
    + apply String.eqb_neq in E. destruct (retained path).
      * rewrite IH, dict_get_set_other by exact E. reflexivity.
      * rewrite IH. reflexivity.
Qed.

Lemma collect_display_names_NoDup (found : list (string * value)) :
  forall display_names,
    NoDup (keys display_names) ->
    NoDup (keys (collect_display_names found display_names)).
Proof.
  induction found as [|[path v] found IH]; intros dn Hnd; simpl; [exact Hnd|].
  destruct (retained path); [|now apply IH].
  apply IH. now apply NoDup_keys_dict_set.
Qed.

Lemma cap_display_names_get (display_names : dict (list value)) (p : string) :
  dict_get p (cap_display_names display_names)
  = option_map (firstn 10) (dict_get p display_names).
Proof.
  unfold cap_display_names.
  induction display_names as [|[q vs] dn IH]; [reflexivity|].
  cbn [map dict_get fst snd].
  destruct (Nat.ltb 10 (List.length vs)) eqn:E; cbn [fst snd dict_get];
    destruct (String.eqb q p); try exact IH; cbn [option_map].
  - reflexivity.
  - apply Nat.ltb_ge in E. now rewrite firstn_all2.
Qed.

(** The groups of the block: one per retained path, holding the first ten
    of the values of the path, in encounter order. *)
Lemma display_groups_get (w : value) (p : string) :
  dict_get p
    (cap_display_names (collect_display_names (find_display_names w "") []))
  = if retained p
    then match path_values w p with
         | [] => None
         | vs => Some (firstn 10 vs)
         end
    else None.
Proof.
  rewrite cap_display_names_get, collect_display_names_get. cbn [dict_get].
  unfold path_values. destruct (retained p); [|reflexivity].
  now destruct (map snd _).
Qed.

Lemma display_groups_NoDup (w : value) :
  NoDup (keys (cap_display_names
                 (collect_display_names (find_display_names w "") []))).
Proof.
  rewrite cap_display_names_keys. apply collect_display_names_NoDup. constructor.
Qed.

Lemma all_strs_firstn (n : nat) (vs : list value) (ss : list string) :
  all_strs vs = Some ss -> all_strs (firstn n vs) = Some (firstn n ss).
Proof.
  revert vs ss. induction n as [|n IH]; intros vs ss H; [reflexivity|].
  destruct vs as [|v vs]; [now injection H as <-|].
  destruct v; try discriminate H. cbn [all_strs] in H.
  destruct (all_strs vs) as [ss'|] eqn:E; [|discriminate H].
  injection H as <-. cbn [firstn all_strs]. now rewrite (IH vs ss' E).
Qed.

Lemma all_strs_Forall (vs : list value) :
  Forall (fun v => is_str v = true) vs <-> exists ss, all_strs vs = Some ss.
Proof.
  split; [apply all_strs_is_str|].
  intros [ss H]. revert ss H. induction vs as [|v vs IH]; intros ss H; [constructor|].
  destruct v; try discriminate H. cbn [all_strs] in H.
  destruct (all_strs vs) as [ss'|] eqn:E; [|discriminate H].
  constructor; [reflexivity | now apply (IH ss')].
Qed.

(** The loop that stores the groups, when every group can be joined *)
Lemma store_groups_get (groups : dict (list value)) :
  forall pd p vs ss,
    NoDup (keys groups) ->
    Forall (fun pv => exists ss, all_strs (snd pv) = Some ss) groups ->
    (forall q, In q (keys groups) -> replace_dots q = replace_dots p -> q = p) ->
    In (p, vs) groups -> all_strs vs = Some ss ->
    dict_get (replace_dots p)
      (snd (for_each groups
              (fun pv => s <~ eval (join_pipe (snd pv)) ;;
                         store (replace_dots (fst pv)) (VStr s)) pd))
    = Some (VStr (concat "|" ss)).
Proof.
  induction groups as [|[q ws] groups IH]; intros pd p vs ss Hnd Hjoin Hinj Hin Hss;
    [destruct Hin|].
  inversion Hnd as [|? ? Hq Hnd']; subst.
  inversion Hjoin as [|? ? [ss0 Hws] Hjoin']; subst. cbn [snd fst] in Hws.
  cbn [for_each]. unfold sbind at 1. unfold sbind at 1. unfold eval at 1.
  unfold join_pipe at 1. cbn [snd fst]. rewrite Hws. unfold store at 1.
  destruct Hin as [[= -> ->]|Hin].
  - rewrite Hss in Hws. injection Hws as <-.
    set (body := fun pv : string * list value => _).
    assert (Hrest : stores_only
              (fun k => exists q, In q (keys groups) /\ k = replace_dots q)
              (for_each groups body)).
    { apply stores_only_for_each. intros [q ws'] Hq'. unfold body. stores.
      exists q. split; [|reflexivity]. now apply (in_map fst) in Hq'. }
    destruct (Hrest (dict_set (replace_dots p) (VStr (concat "|" ss)) pd))
      as [Hframe _].
    rewrite Hframe; [apply dict_get_set_same|].
    intros [q' [Hq' Heq]]. apply Hq.
    rewrite <- (Hinj q'); [exact Hq' | now right | now symmetry].
  - apply (IH _ p vs ss); auto.
    intros q' Hq'. apply Hinj. now right.
Qed.

Lemma prefix_length (a b : string) :
  prefix a b = true -> (String.length a <= String.length b)%nat.
Proof.
  revert b. induction a as [|c a IH]; intros b H; simpl; [lia|].
  destruct b as [|c' b]; [discriminate H|]. cbn [prefix] in H.
  destruct (ascii_dec c c'); [|discriminate H].
  specialize (IH b H). simpl. lia.
Qed.

Lemma contains_length (sub s : string) :
  contains sub s = true -> (String.length sub <= String.length s)%nat.
Proof.
  induction s as [|c s IH]; cbn [contains]; intros H;
    apply orb_prop in H; destruct H as [H|H].
  - now apply prefix_length.
  - discriminate H.
  - now apply prefix_length.
  - specialize (IH H). simpl. lia.
Qed.

Lemma replace_dots_length (s : string) :
  String.length (replace_dots s) = String.length s.
Proof. induction s as [|c s IH]; simpl; [reflexivity | now rewrite IH]. Qed.

Lemma retained_not_abstract (p : string) :
  retained p = true -> replace_dots p <> "abstract".
Proof.
  unfold retained. intros H. apply andb_prop in H. destruct H as [_ H].
  apply contains_length in H. intros Heq.
  apply (f_equal String.length) in Heq. rewrite replace_dots_length in Heq.
  simpl in *. lia.
Qed.

Lemma path_values_In (w : value) (p : string) (v : value) :
  In v (path_values w p) <-> In (p, v) (find_display_names w "").
Proof.
  unfold path_values. rewrite in_map_iff. split.
  - intros [[q v'] [Hv Hin]]. simpl in Hv. subst v'.
    apply filter_In in Hin. destruct Hin as [Hin Hq]. simpl in Hq.
    apply String.eqb_eq in Hq. now subst q.
  - intros Hin. exists (p, v). split; [reflexivity|].
    apply filter_In. split; [exact Hin|]. simpl. apply String.eqb_refl.
Qed.

Lemma display_groups_In (w : value) (p : string) (vs : list value) :
  In (p, vs) (cap_display_names
                (collect_display_names (find_display_names w "") [])) ->
  retained_path w p /\ vs = firstn 10 (path_values w p).
Proof.
  intros Hin.
  apply (NoDup_keys_In_get _ _ _ (display_groups_NoDup w)) in Hin.
  rewrite display_groups_get in Hin. unfold retained_path.
  destruct (retained p); [|discriminate Hin].
  destruct (path_values w p) as [|v0 vs0] eqn:E; [discriminate Hin|].
  injection Hin as <-. repeat split. discriminate.
Qed.

Lemma parsed_fields_display_name (w : value) (include_abstract : bool) (p : string) :
  (forall p v, In (p, v) (find_display_names w "") -> retained p = true ->
               is_str v = true) ->
  (forall p q, retained_path w p -> retained_path w q ->
               replace_dots p = replace_dots q -> p = q) ->
  retained_path w p ->
  exists ss,
    all_strs (path_values w p) = Some ss
    /\ dict_get (replace_dots p) (parsed_fields w include_abstract)
       = Some (VStr (concat "|" (firstn 10 ss))).
Proof.
  intros Hstr Hinj Hp.
  assert (Hall : forall q, retained_path w q ->
                   exists ss, all_strs (path_values w q) = Some ss).
  { intros q [Hq _]. apply all_strs_Forall, Forall_forall.
    intros v Hv. apply path_values_In in Hv. now apply (Hstr q). }
  destruct (Hall p Hp) as [ss Hss]. exists ss. split; [exact Hss|].
  set (groups := cap_display_names
                   (collect_display_names (find_display_names w "") [])).
  assert (Hget : forall pd,
             dict_get (replace_dots p) (try_except (parse_display_names w) pd)
             = Some (VStr (concat "|" (firstn 10 ss)))).
  { intros pd. unfold try_except, parse_display_names. fold groups.
    apply store_groups_get with (vs := firstn 10 (path_values w p)).
    - apply display_groups_NoDup.
    - apply Forall_forall. intros [q ws] Hq. cbn [snd].
      apply display_groups_In in Hq. destruct Hq as [Hq ->].
      destruct (Hall q Hq) as [ss' Hss']. exists (firstn 10 ss').
      now apply all_strs_firstn.
    - intros q Hq. apply in_map_iff in Hq. destruct Hq as [[q' ws] [<- Hq]].
      apply display_groups_In in Hq. destruct Hq as [Hq _]. cbn [fst].
      intros Heq. now apply Hinj.
    - apply dict_get_In. unfold groups. rewrite display_groups_get.
      destruct Hp as [-> Hne]. now destruct (path_values w p).
    - now apply all_strs_firstn. }
  unfold parsed_fields, blocks. rewrite !app_assoc.
  rewrite fold_left_app.
  destruct include_abstract; cbn [fold_left].
  - rewrite (try_except_frame _ _ _ _ (stores_only_parse_abstract w)).
    + rewrite <- !app_assoc. rewrite !fold_left_app. cbn [fold_left]. apply Hget.
    + apply retained_not_abstract, Hp.
  - rewrite <- !app_assoc. rewrite !fold_left_app. cbn [fold_left]. apply Hget.
Qed.

(** Display names in the output.  For every input record whose retained display names
    are strings and whose retained paths have flat keys of their own:
    - each retained path, array indices included, is stored under its flat
      key with the first ten of its values joined by pipes in encounter
      order, with no sorting and no deduplication;
    - the final merge then treats these fields like all others: an output
      name that only indexed keys normalize to holds the one distinct
      value of their fields, or the pipe-joined string of their sorted
      distinct values. *)
Theorem parse_work_display_names (w : value) (include_abstract : bool) :
  (forall p v, In (p, v) (find_display_names w "") -> retained p = true ->
               is_str v = true) ->
  (forall p q, retained_path w p -> retained_path w q ->
               replace_dots p = replace_dots q -> p = q) ->
  (forall p, retained_path w p ->
     exists ss,
       all_strs (path_values w p) = Some ss
       /\ dict_get (replace_dots p) (parsed_fields w include_abstract)
          = Some (VStr (concat "|" (firstn 10 ss))))
  /\ (forall out, parse_work w include_abstract = Ok out ->
      forall K,
        (forall kv, In kv (parsed_fields w include_abstract) ->
                    strip_indices (fst kv) = K -> has_index (fst kv) = true) ->
        group_values (parsed_fields w include_abstract) K <> [] ->
        exists x,
          dict_get K out = Some x
          /\ merged_of (distinct (group_values (parsed_fields w include_abstract) K)) x).
Proof.
  intros Hstr Hinj. split.
  - intros p Hp. now apply parsed_fields_display_name.
  - intros out Hout K Hidx Hne.
    destruct (merge_and_deduplicate_char _ out Hout) as [_ [_ [Hmerge _]]].
    now apply Hmerge.
Qed.

(** ** Indices written in decimal *)

Lemma append_assoc (a b c : string) : ((a ++ b) ++ c = a ++ (b ++ c))%string.
Proof. induction a as [|x a IH]; simpl; [reflexivity | now rewrite IH]. Qed.

Lemma str_of_nat_digits (i : nat) : all_digits (str_of_nat i) = true.
Proof.
  unfold str_of_nat. generalize (Nat.to_uint i). intros d.
  induction d; simpl; auto.
Qed.

Lemma str_of_nat_nonempty (i : nat) : str_of_nat i <> "".
Proof.
  unfold str_of_nat. intros H.
  assert (Hnil : Nat.to_uint i = Decimal.Nil) by (now destruct (Nat.to_uint i)).
  pose proof (DecimalNat.Unsigned.to_of (Nat.to_uint i)) as Hto.
  rewrite DecimalNat.Unsigned.of_to, Hnil in Hto. now apply (DecimalFacts.unorm_nonnil Decimal.Nil).
Qed.

Lemma str_of_nat_inj (i j : nat) : str_of_nat i = str_of_nat j -> i = j.
Proof.
  unfold str_of_nat. intros H. apply DecimalNat.Unsigned.to_uint_inj.
  apply (f_equal NilEmpty.uint_of_string) in H.
  rewrite !NilEmpty.usu in H. now injection H.
Qed.

Lemma is_digit_not (c x : ascii) :
  is_digit c = true -> is_digit x = false -> Ascii.eqb c x = false.
Proof.
  intros Hc Hx. destruct (Ascii.eqb c x) eqn:E; [|reflexivity].
  apply Ascii.eqb_eq in E. subst. congruence.
Qed.

Lemma replace_dots_digits (s : string) :
  all_digits s = true -> replace_dots s = s.
Proof.
  induction s as [|c s IH]; simpl; intros H; [reflexivity|].
  apply andb_prop in H. destruct H as [Hc Hs].
  rewrite (is_digit_not c "." Hc eq_refl). now rewrite IH.
Qed.

Lemma replace_dots_app (a b : string) :
  replace_dots (a ++ b) = (replace_dots a ++ replace_dots b)%string.
Proof. induction a as [|x a IH]; simpl; [reflexivity | now rewrite IH]. Qed.

Lemma digits_close_app (s rest : string) :
  all_digits s = true ->
  forall seen, (0 < seen + String.length s)%nat ->
    digits_close (s ++ String "]" rest) seen = Some (S (seen + String.length s)).
Proof.
  induction s as [|c s IH]; simpl; intros H seen Hpos.
  - replace (Nat.ltb 0 seen) with true by (symmetry; apply Nat.ltb_lt; lia).
    simpl. f_equal. lia.
  - apply andb_prop in H. destruct H as [Hc Hs]. rewrite Hc.
    rewrite IH by (auto; lia). f_equal. lia.
Qed.

Lemma strip_from_skip (s rest : string) :
  strip_from (S (String.length s)) (s ++ String "]" rest) = strip_from 0 rest.
Proof. induction s as [|c s IH]; simpl; [reflexivity | exact IH]. Qed.

Lemma index_match_group (s rest : string) :
  all_digits s = true -> s <> "" ->
  index_match (String "[" (s ++ String "]" rest))
  = Some (S (S (String.length s))).
Proof.
  intros Hd Hne. cbn [index_match Ascii.eqb Bool.eqb].
  change (Ascii.eqb "[" "[") with true. cbv iota.
  rewrite digits_close_app; [reflexivity | exact Hd |].
  destruct s; [congruence | simpl; lia].
Qed.

Lemma strip_from_group (s rest : string) :
  all_digits s = true -> s <> "" ->
  strip_from 0 (String "[" (s ++ String "]" rest)) = strip_from 0 rest.
Proof.
  intros Hd Hne. cbn [strip_from]. rewrite (index_match_group s rest Hd Hne).
  apply strip_from_skip.
Qed.

Lemma has_index_group (s rest : string) :
  all_digits s = true -> s <> "" ->
  has_index (String "[" (s ++ String "]" rest)) = true.
Proof.
  intros Hd Hne. cbn [has_index]. now rewrite (index_match_group s rest Hd Hne).
Qed.

Lemma has_index_cons (c : ascii) (s : string) :
  has_index s = true -> has_index (String c s) = true.
Proof. intros H. cbn [has_index]. now destruct (index_match (String c s)). Qed.

Lemma digits_bracket_inj (a b r r' : string) :
  all_digits a = true -> all_digits b = true ->
  (a ++ String "]" r = b ++ String "]" r')%string -> a = b.
Proof.
  revert b. induction a as [|x a IH]; intros [|y b] Ha Hb H; simpl in *.
  - reflexivity.
  - injection H as <- _. discriminate Hb.
  - injection H as -> _. discriminate Ha.
  - injection H as <- H. apply andb_prop in Ha, Hb. f_equal.
    apply IH; tauto.
Qed.

Lemma author_key_normalizes (i : nat) :
  strip_indices (author_key i) = "authorships_author_display_name"
  /\ has_index (author_key i) = true.
Proof.
  unfold strip_indices, author_key. split.
  - cbn. fold (strip_from 0). 
    apply (f_equal (fun s => ("authorships" ++ s)%string)).
    apply (strip_from_group (str_of_nat i) "_author_display_name"
             (str_of_nat_digits i) (str_of_nat_nonempty i)).
  - cbn [append]. do 11 apply has_index_cons.
    apply (has_index_group (str_of_nat i) "_author_display_name"
             (str_of_nat_digits i) (str_of_nat_nonempty i)).
Qed.

(** ** A record with a list of authors *)

Lemma author_display_name (name : string) (i : nat) :
  find_display_names (author name) (index_path "authorships" i)
  = [(author_path i, VStr name)].
Proof.
  unfold author. rewrite find_display_names_dict. cbn [flat_map fst snd].
  change (contains "display_name" "author") with false. cbv iota.
  rewrite find_display_names_dict. cbn [flat_map fst snd].
  change (contains "display_name" "display_name") with true. cbv iota.
  cbn [app]. do 2 f_equal.
  unfold key_path, index_path, author_path. cbn [append String.eqb Ascii.eqb Bool.eqb].
  cbn. now rewrite !append_assoc.
Qed.

Lemma authors_display_names (names : list string) :
  find_display_names (authors_record names) ""
  = map (fun iv => (author_path (fst iv), VStr (snd iv))) (enumerate names).
Proof.
  unfold authors_record. rewrite find_display_names_dict. cbn [flat_map fst snd].
  change (contains "display_name" "authorships") with false. cbv iota.
  change (key_path "" "authorships") with "authorships".
  rewrite app_nil_r, find_display_names_list. unfold enumerate.
  rewrite length_map. generalize 0%nat.
  induction names as [|name names IH]; intros n; [reflexivity|].
  cbn [map List.length seq combine flat_map fst snd].
  now rewrite author_display_name, IH.
Qed.

Lemma collect_display_names_fresh (found : list (string * value)) :
  forall display_names,
    Forall (fun pv => retained (fst pv) = true) found ->
    NoDup (keys display_names ++ map fst found) ->
    collect_display_names found display_names
    = display_names ++ map (fun pv => (fst pv, [snd pv])) found.
Proof.
  induction found as [|[path v] found IH]; intros dn Hret Hnd; simpl.
  - now rewrite app_nil_r.
  - inversion Hret as [|? ? Hp Hret']; subst. simpl in Hp. rewrite Hp.
    assert (Hfresh : ~ In path (keys dn)).
    { simpl in Hnd. apply NoDup_remove_2 in Hnd. intros Hin. apply Hnd.
      apply in_or_app. now left. }
    rewrite (proj2 (dict_get_None path dn) Hfresh). cbn [app].
    rewrite (dict_set_fresh path [v] dn Hfresh), IH; auto.
    + now rewrite <- app_assoc.
    + rewrite keys_app, <- app_assoc. exact Hnd.
Qed.

Lemma cap_display_names_short (display_names : dict (list value)) :
  Forall (fun pv => (List.length (snd pv) <= 10)%nat) display_names ->
  cap_display_names display_names = display_names.
Proof.
  unfold cap_display_names. induction 1 as [|pv dn Hpv Hdn IH]; [reflexivity|].
  cbn [map]. rewrite IH.
  replace (Nat.ltb 10 (List.length (snd pv))) with false; [reflexivity|].
  symmetry. apply Nat.ltb_ge. exact Hpv.
Qed.

Lemma store_display_names_fresh (l : list (string * string)) :
  forall pd,
    NoDup (keys pd ++ map (fun ps => replace_dots (fst ps)) l) ->
    for_each (map (fun ps => (fst ps, [VStr (snd ps)])) l)
      (fun pv => s <~ eval (join_pipe (snd pv)) ;;
                 store (replace_dots (fst pv)) (VStr s)) pd
    = (Ok tt, pd ++ map (fun ps => (replace_dots (fst ps), VStr (snd ps))) l).
Proof.
  induction l as [|[p s] l IH]; intros pd Hnd; simpl.
  - now rewrite app_nil_r.
  - assert (Hfresh : ~ In (replace_dots p) (keys pd)).
    { simpl in Hnd. apply NoDup_remove_2 in Hnd. intros Hin. apply Hnd.
      apply in_or_app. now left. }
    unfold sbind at 1. unfold sbind at 1. unfold eval at 1. cbn [join_pipe all_strs
      option_map concat snd fst]. unfold store at 1.
    rewrite (dict_set_fresh _ _ pd Hfresh), IH.
    + now rewrite <- app_assoc.
    + rewrite keys_app, <- app_assoc. exact Hnd.
Qed.

Lemma author_path_flat_key (i : nat) : replace_dots (author_path i) = author_key i.
Proof.
  unfold author_path, author_key.
  rewrite !replace_dots_app, (replace_dots_digits _ (str_of_nat_digits i)).
  reflexivity.
Qed.

Lemma author_path_retained (i : nat) : retained (author_path i) = true.
Proof.
  assert (Happ : forall sub s t, contains sub t = true -> contains sub (s ++ t) = true).
  { intros sub s t Ht. induction s as [|c s IH]; [exact Ht|].
    cbn [append contains]. rewrite IH. apply orb_true_r. }
  unfold retained. apply andb_true_intro. split.
  - unfold author_path. cbn [append contains]. reflexivity.
  - unfold author_path. rewrite <- append_assoc. apply Happ. reflexivity.
Qed.

Lemma author_path_inj (i j : nat) : author_path i = author_path j -> i = j.
Proof.
  unfold author_path. intros H. cbn [append] in H.
  repeat match type of H with String _ _ = String _ _ => injection H as H end.
  apply str_of_nat_inj.
  apply (digits_bracket_inj _ _ ".author.display_name" ".author.display_name");
    auto using str_of_nat_digits.
Qed.

Lemma author_key_inj (i j : nat) : author_key i = author_key j -> i = j.
Proof.
  unfold author_key. intros H. cbn [append] in H.
  repeat match type of H with String _ _ = String _ _ => injection H as H end.
  apply str_of_nat_inj.
  apply (digits_bracket_inj _ _ "_author_display_name" "_author_display_name");
    auto using str_of_nat_digits.
Qed.

Lemma enumerate_fst {A : Type} (l : list A) :
  map fst (enumerate l) = seq 0 (List.length l).
Proof.
  unfold enumerate. generalize 0%nat.
  induction l as [|x l IH]; intros n; simpl; [reflexivity | now rewrite IH].
Qed.

Lemma enumerate_snd {A : Type} (l : list A) : map snd (enumerate l) = l.
Proof.
  unfold enumerate. generalize 0%nat.
  induction l as [|x l IH]; intros n; simpl; [reflexivity | now rewrite IH].
Qed.

Lemma country_codes_loop_authors (names : list string) (country_codes : pyset) :
  country_codes_loop (map author names) country_codes = Ok country_codes.
Proof.
  induction names as [|name names IH]; [reflexivity|]. cbn. exact IH.
Qed.

Lemma author_keys_NoDup (pd : dict value) (names : list string) :
  NoDup (keys pd) ->
  (forall i, ~ In (author_key i) (keys pd)) ->
  NoDup (keys pd ++ map author_key (seq 0 (List.length names))).
Proof.
  intros Hpd Hfresh. apply NoDup_app; [exact Hpd | |].
  - apply Finite.Injective_map_NoDup; [|apply seq_NoDup].
    intros i j. apply author_key_inj.
  - intros k Hk Hin. apply in_map_iff in Hin. destruct Hin as [i [<- _]].
    now apply (Hfresh i).
Qed.

Lemma author_key_not_default (i : nat) :
  ~ In (author_key i) (keys default_fields)
  /\ author_key i <> "abstract".
Proof.
  unfold author_key. cbn. split; [|discriminate].
  intros H. repeat (destruct H as [H|H]; [discriminate H|]). exact H.
Qed.

(** [parsed_data] of a record that has a list of authors and nothing else *)
Lemma parsed_fields_authors (names : list string) (include_abstract : bool) :
  parsed_fields (authors_record names) include_abstract
  = default_fields ++ author_fields names
    ++ (if include_abstract then [("abstract", VStr "No abstract available")]
        else []).
Proof.
  assert (Hdisplay : forall pd,
             NoDup (keys pd) -> (forall i, ~ In (author_key i) (keys pd)) ->
             try_except (parse_display_names (authors_record names)) pd
             = pd ++ author_fields names).
  { intros pd Hpd Hfresh. unfold try_except, parse_display_names.
    rewrite authors_display_names.
    rewrite collect_display_names_fresh.
    - cbn [app]. rewrite map_map. cbn [fst snd].
      rewrite cap_display_names_short
        by (apply Forall_forall; intros pv Hin; apply in_map_iff in Hin;
            destruct Hin as [iv [<- _]]; simpl; lia).
      rewrite <- (map_map (fun iv : nat * string => (author_path (fst iv), snd iv))
                    (fun ps => (fst ps, [VStr (snd ps)]))).
      rewrite store_display_names_fresh.
      + cbn [snd]. rewrite map_map. cbn [fst snd]. unfold author_fields.
        f_equal. apply map_ext. intros iv. now rewrite author_path_flat_key.
      + rewrite map_map. cbn [fst].
        rewrite (map_ext _ (fun iv : nat * string => author_key (fst iv)))
          by (intros iv; apply author_path_flat_key).
        rewrite <- (map_map fst author_key), enumerate_fst.
        now apply author_keys_NoDup.
    - apply Forall_forall. intros pv Hin. apply in_map_iff in Hin.
      destruct Hin as [iv [<- _]]. apply author_path_retained.
    - cbn [keys map app]. rewrite map_map. cbn [fst].
      rewrite <- (map_map fst author_path), enumerate_fst.
      apply Finite.Injective_map_NoDup; [|apply seq_NoDup].
      intros i j. apply author_path_inj. }
  assert (Hcountries : forall pd,
             try_except (parse_countries_codes (authors_record names)) pd
             = dict_set "countries_codes" (VStr "") pd).
  { intros pd. unfold try_except, parse_countries_codes, authors_record.
    unfold sbind, eval, store, extract_unique_country_codes. cbn [py_get dict_get
      String.eqb Ascii.eqb Bool.eqb py_iter bind].
    change (dict_get "authorships" [("authorships", VList (map author names))])
      with (Some (VList (map author names))).
    cbn [py_iter bind]. rewrite country_codes_loop_authors. reflexivity. }
  assert (Hnd : NoDup (keys default_fields)).
  { unfold keys. cbn [map fst default_fields].
    repeat (constructor; [cbn; intros H;
      repeat (destruct H as [H|H]; [discriminate H|]); exact H|]).
    constructor. }
  unfold parsed_fields, blocks.
  cbn [map app fold_left basic_fields count_fields].
  match goal with
  | |- context [try_except (parse_countries_codes _) ?inner] =>
      set (before := inner)
  end.
  assert (Hbefore : before = removelast default_fields)
    by (subst before; vm_compute; reflexivity).
  rewrite Hbefore, Hcountries.
  change (dict_set "countries_codes" (VStr "") (removelast default_fields))
    with default_fields.
  rewrite Hdisplay; [|exact Hnd | intros i; apply author_key_not_default].
  destruct include_abstract; cbn [fold_left]; [|now rewrite app_nil_r].
  unfold try_except, parse_abstract, authors_record, sbind, eval.
  change (py_get (VDict [("authorships", VList (map author names))])
            "abstract_inverted_index" VNone) with (@Ok value VNone).
  cbn [extract_abstract_of truthy negb store snd].
  rewrite dict_set_fresh; [now rewrite <- app_assoc|].
  rewrite keys_app. intros Hin. apply in_app_or in Hin. destruct Hin as [Hin|Hin].
  - cbn in Hin. repeat (destruct Hin as [Hin|Hin]; [discriminate Hin|]). exact Hin.
  - unfold author_fields, keys in Hin. rewrite map_map in Hin. cbn [fst] in Hin.
    apply in_map_iff in Hin. destruct Hin as [iv [Heq _]].
    now apply (proj2 (author_key_not_default (fst iv))).
Qed.

(** ** The merge on the fields of an authors record *)

Lemma merge_loop_app (d1 d2 : dict value) :
  forall md, merge_loop (d1 ++ d2) md
             = (md1 <- merge_loop d1 md ;; merge_loop d2 md1).
Proof.
  induction d1 as [|[k v] d1 IH]; intros md; [reflexivity|].
  cbn [app merge_loop]. destruct (has_index k).
  - destruct (set_add v _) as [s|e]; simpl; [apply IH | reflexivity].
  - destruct (set_add v []) as [s|e]; simpl; [apply IH | reflexivity].
Qed.

Lemma merge_finish_app (m1 m2 : dict pyset) :
  merge_finish (m1 ++ m2)
  = (o1 <- merge_finish m1 ;; o2 <- merge_finish m2 ;; Ok (o1 ++ o2)).
Proof.
  induction m1 as [|[k s] m1 IH]; cbn [app merge_finish].
  - simpl. now destruct (merge_finish m2).
  - destruct (merged_value s) as [x|e]; simpl; [|reflexivity].
    rewrite IH. destruct (merge_finish m1) as [o1|e]; simpl; [|reflexivity].
    now destruct (merge_finish m2).
Qed.

Lemma dict_set_twice {V : Type} (k : string) (v v' : V) (d : dict V) :
  dict_set k v' (dict_set k v d) = dict_set k v' d.
Proof.
  induction d as [|[k0 v0] d IH]; simpl.
  - now rewrite String.eqb_refl.
  - destruct (String.eqb k0 k) eqn:E; simpl.
    + now rewrite String.eqb_refl.
    + now rewrite E, IH.
Qed.

Lemma merge_loop_author_fields (ivs : list (nat * string)) :
  forall md,
    merge_loop (map (fun iv => (author_key (fst iv), VStr (snd iv))) ivs) md
    = Ok match ivs with
         | [] => md
         | _ =>
             dict_set "authorships_author_display_name"
               (fold_left add_distinct (map (fun iv => VStr (snd iv)) ivs)
                  match dict_get "authorships_author_display_name" md with
                  | Some s => s
                  | None => []
                  end) md
         end.
Proof.
  induction ivs as [|[i name] ivs IH]; intros md; [reflexivity|].
  cbn [map merge_loop fst snd].
  destruct (author_key_normalizes i) as [-> ->].
  rewrite set_add_hashable by reflexivity. cbn [bind].
  rewrite IH. f_equal. destruct ivs as [|iv ivs]; [reflexivity|].
  now rewrite dict_get_set_same, dict_set_twice.
Qed.

Lemma distinct_strs (l : list string) :
  distinct (map VStr l) = map VStr (distinct_strings l).
Proof.
  unfold distinct, distinct_strings.
  assert (H : forall seen,
             fold_left add_distinct (map VStr l) (map VStr seen)
             = map VStr (fold_left (fun seen x =>
                   if existsb (String.eqb x) seen then seen else seen ++ [x])
                   l seen)).
  { induction l as [|x l IH]; intros seen; [reflexivity|].
    cbn [map fold_left]. unfold add_distinct at 2.
    replace (existsb (py_eq (VStr x)) (map VStr seen))
      with (existsb (String.eqb x) seen)
      by (clear; induction seen as [|y seen IH]; simpl; [reflexivity | now rewrite IH]).
    destruct (existsb (String.eqb x) seen); [apply IH|].
    rewrite <- IH. now rewrite map_app. }
  apply (H []).
Qed.

Lemma distinct_strings_nonempty (l : list string) :
  l <> [] -> distinct_strings l <> [].
Proof.
  unfold distinct_strings. destruct l as [|x l]; [congruence|]. intros _.
  cbn [fold_left existsb app].
  assert (H : forall seen, seen <> [] ->
             fold_left (fun seen x =>
               if existsb (String.eqb x) seen then seen else seen ++ [x]) l seen <> []).
  { induction l as [|y l IH]; intros seen Hs; [exact Hs|].
    cbn [fold_left]. apply IH. destruct (existsb _ seen); [exact Hs|].
    now destruct seen. }
  apply H. discriminate.
Qed.

Lemma all_strs_map_VStr (l : list string) : all_strs (map VStr l) = Some l.
Proof.
  induction l as [|x l IH]; [reflexivity|]. cbn [map all_strs]. now rewrite IH.
Qed.

Lemma merged_value_strs (l : list string) :
  l <> [] ->
  merged_value (map VStr l) = Ok (VStr (concat "|" (sort_strings l))).
Proof.
  intros Hne. destruct l as [|x [|y l]]; [congruence | reflexivity |].
  change (map VStr (x :: y :: l)) with (VStr x :: VStr y :: map VStr l).
  rewrite merged_value_many.
  change (VStr x :: VStr y :: map VStr l) with (map VStr (x :: y :: l)).
  now rewrite all_strs_map_VStr.
Qed.

(** The whole output of [parse_work] for a record that has a list of
    authors and nothing else: the defaults, then the names of all the
    authors, each once and sorted, joined by pipes. *)
Lemma parse_work_authors (names : list string) (include_abstract : bool) :
  names <> [] ->
  parse_work (authors_record names) include_abstract
  = Ok (default_fields
        ++ [("authorships_author_display_name",
             VStr (concat "|" (sort_strings (distinct_strings names))))]
        ++ (if include_abstract
            then [("abstract", VStr "No abstract available")]
            else [])).
Proof.
  intros Hne. unfold parse_work. rewrite parsed_fields_authors.
  unfold merge_and_deduplicate. rewrite merge_loop_app.
  change (merge_loop default_fields [])
    with (Ok (map (fun kv : string * value => (fst kv, [snd kv])) default_fields)).
  cbn [bind]. rewrite merge_loop_app.
  unfold author_fields. rewrite merge_loop_author_fields. cbn [bind].
  assert (Hivs : enumerate names <> []).
  { intros H. apply (f_equal (map snd)) in H. rewrite enumerate_snd in H.
    now apply Hne. }
  destruct (enumerate names) as [|iv ivs] eqn:Hen; [congruence|].
  rewrite <- Hen. clear iv ivs Hen Hivs.
  rewrite <- (map_map snd VStr), enumerate_snd.
  change (dict_get "authorships_author_display_name"
            (map (fun kv : string * value => (fst kv, [snd kv])) default_fields))
    with (@None pyset).
  change (fold_left add_distinct (map VStr names)
            match @None pyset with Some s => s | None => [] end)
    with (distinct (map VStr names)).
  rewrite distinct_strs.
  rewrite dict_set_fresh
    by (cbn; intros H; repeat (destruct H as [H|H]; [discriminate H|]); exact H).
  destruct include_abstract.
  - cbn [merge_loop has_index index_match Ascii.eqb Bool.eqb].
    change (has_index "abstract") with false. cbv iota.
    rewrite set_add_hashable by reflexivity. cbn [bind merge_loop add_distinct existsb app].
    rewrite dict_set_fresh
      by (cbn; intros H; repeat (destruct H as [H|H]; [discriminate H|]); exact H).
    rewrite !merge_finish_app.
    change (merge_finish (map (fun kv : string * value => (fst kv, [snd kv]))
                            default_fields)) with (Ok default_fields).
    cbn [bind merge_finish].
    rewrite (merged_value_strs _ (distinct_strings_nonempty names Hne)).
    cbn [bind merged_value List.length Nat.ltb Nat.leb app].
    now rewrite <- app_assoc.
  - cbn [merge_loop bind]. rewrite !merge_finish_app.
    change (merge_finish (map (fun kv : string * value => (fst kv, [snd kv]))
                            default_fields)) with (Ok default_fields).
    cbn [bind merge_finish].
    rewrite (merged_value_strs _ (distinct_strings_nonempty names Hne)).
    cbn [bind app]. reflexivity.
Qed.

(** * Further properties *)

(** ** Substrings that survive the normalization of keys *)

Lemma is_digit_not_plain (c : ascii) : is_digit c = true -> plain_char c = false.
Proof.
  unfold plain_char. intros ->. now rewrite !orb_true_r.
Qed.

Lemma digits_close_skipped (s : string) :
  forall seen n, digits_close s seen = Some n -> skipped_prefix (n - seen) s.
Proof.
  induction s as [|c s IH]; intros seen n H; simpl in H; [discriminate|].
  destruct (is_digit c) eqn:Hd.
  - pose proof (IH _ _ H) as Hs.
    destruct (n - seen)%nat as [|k] eqn:Hk; simpl; [exact I|].
    split; [now apply is_digit_not_plain|].
    replace k with (n - S seen)%nat by lia. exact Hs.
  - destruct (Ascii.eqb c "]" && Nat.ltb 0 seen) eqn:E; [|discriminate].
    injection H as <-. replace (S seen - seen)%nat with 1%nat by lia. simpl.
    apply andb_prop in E. destruct E as [E _]. apply Ascii.eqb_eq in E. subst c.
    auto.
Qed.

Lemma index_match_skipped (c : ascii) (s : string) (k : nat) :
  index_match (String c s) = Some (S k) ->
  plain_char c = false /\ skipped_prefix k s.
Proof.
  simpl. destruct (Ascii.eqb c "[") eqn:E; [|discriminate].
  apply Ascii.eqb_eq in E. subst c.
  destruct (digits_close s 0) as [n|] eqn:Hn; simpl; [|discriminate].
  intros [= <-]. split; [reflexivity|].
  apply digits_close_skipped in Hn. now rewrite Nat.sub_0_r in Hn.
Qed.

Lemma index_match_plain (c : ascii) (s : string) :
  plain_char c = true -> index_match (String c s) = None.
Proof.
  unfold plain_char. intros H. simpl.
  destruct (Ascii.eqb c "["); [discriminate H | reflexivity].
Qed.

Lemma prefix_cons (a b : ascii) (sub s : string) :
  prefix (String a sub) (String b s) = true <-> a = b /\ prefix sub s = true.
Proof.
  cbn [prefix]. destruct (ascii_dec a b) as [->|Hne].
  - tauto.
  - split; [discriminate | intros [H _]; contradiction].
Qed.

Lemma prefix_strip (sub : string) :
  plain sub = true ->
  forall s, prefix sub s = true -> prefix sub (strip_from 0 s) = true.
Proof.
  induction sub as [|a sub IH]; intros Hp s H.
  - now destruct (strip_from 0 s).
  - destruct s as [|b s]; [discriminate H|].
    apply prefix_cons in H. destruct H as [<- H].
    simpl in Hp. apply andb_prop in Hp. destruct Hp as [Ha Hsub].
    cbn [strip_from]. rewrite (index_match_plain a s Ha).
    apply prefix_cons. split; [reflexivity | now apply IH].
Qed.

Lemma prefix_not_plain (a c : ascii) (sub s : string) :
  plain_char a = true -> plain_char c = false ->
  prefix (String a sub) (String c s) = false.
Proof.
  intros Ha Hc. cbn [prefix]. destruct (ascii_dec a c) as [->|_]; [congruence | reflexivity].
Qed.

Lemma contains_strip_from (sub : string) :
  plain sub = true -> sub <> "" ->
  forall s k, skipped_prefix k s -> contains sub s = true ->
              contains sub (strip_from k s) = true.
Proof.
  intros Hp Hne. destruct sub as [|a sub]; [congruence|].
  pose proof Hp as Hp'. simpl in Hp'. apply andb_prop in Hp'. destruct Hp' as [Ha _].
  induction s as [|c s IH]; intros k Hk H; [discriminate H|].
  cbn [contains] in H. cbn [strip_from]. destruct k as [|k].
  - destruct (index_match (String c s)) as [[|n]|] eqn:Hm.
    + apply orb_prop in H. cbn [contains]. destruct H as [H|H].
      * apply prefix_cons in H. destruct H as [<- H].
        rewrite (index_match_plain a s Ha) in Hm. discriminate Hm.
      * rewrite (IH 0%nat I H). apply orb_true_r.
    + apply index_match_skipped in Hm. destruct Hm as [Hc Hn].
      rewrite (prefix_not_plain a c sub s Ha Hc) in H. simpl in H.
      now apply IH.
    + apply orb_prop in H. cbn [contains]. destruct H as [H|H].
      * apply prefix_cons in H. destruct H as [<- H].
        replace (prefix (String a sub) (String a (strip_from 0 s))) with true;
          [reflexivity|].
        symmetry. apply prefix_cons. split; [reflexivity|].
        apply prefix_strip; [|exact H].
        simpl in Hp. apply andb_prop in Hp. tauto.
      * rewrite (IH 0%nat I H). apply orb_true_r.
  - simpl in Hk. destruct Hk as [Hc Hk].
    rewrite (prefix_not_plain a c sub s Ha Hc) in H. simpl in H.
    now apply IH.
Qed.

Lemma contains_strip_indices (sub s : string) :
  plain sub = true -> sub <> "" -> contains sub s = true ->
  contains sub (strip_indices s) = true.
Proof.
  intros Hp Hne. apply (contains_strip_from sub Hp Hne s 0%nat I).
Qed.

Lemma plain_char_not_dot (c : ascii) :
  plain_char c = true -> Ascii.eqb c "." = false.
Proof.
  unfold plain_char. destruct (Ascii.eqb c "."); [|reflexivity].
  now rewrite !orb_true_r.
Qed.

Lemma prefix_replace_dots (sub : string) :
  plain sub = true ->
  forall s, prefix sub s = true -> prefix sub (replace_dots s) = true.
Proof.
  induction sub as [|a sub IH]; intros Hp s H.
  - now destruct (replace_dots s).
  - destruct s as [|b s]; [discriminate H|].
    apply prefix_cons in H. destruct H as [<- H].
    simpl in Hp. apply andb_prop in Hp. destruct Hp as [Ha Hsub].
    cbn [replace_dots]. rewrite (plain_char_not_dot a Ha).
    apply prefix_cons. split; [reflexivity | now apply IH].
Qed.

Lemma contains_replace_dots (sub s : string) :
  plain sub = true -> contains sub s = true ->
  contains sub (replace_dots s) = true.
Proof.
  intros Hp. induction s as [|c s IH]; intros H.
  - exact H.
  - cbn [contains] in H. apply orb_prop in H. destruct H as [H|H].
    + apply (prefix_replace_dots sub Hp) in H. cbn [replace_dots] in *.
      cbn [contains]. now rewrite H.
    + cbn [replace_dots contains]. rewrite (IH H). apply orb_true_r.
Qed.

(** A retained path is still recognized after dots are replaced and index
    groups removed: the markers and display_name survive. *)
Lemma retained_normalized (p : string) :
  retained p = true ->
  retained (replace_dots p) = true
  /\ retained (strip_indices (replace_dots p)) = true.
Proof.
  assert (Hkeep : forall sub, plain sub = true -> sub <> "" ->
            contains sub p = true ->
            contains sub (replace_dots p) = true
            /\ contains sub (strip_indices (replace_dots p)) = true).
  { intros sub Hp Hne H. split.
    - now apply contains_replace_dots.
    - apply contains_strip_indices; auto. now apply contains_replace_dots. }
  unfold retained. intros H. apply andb_prop in H. destruct H as [Hm Hd].
  destruct (Hkeep "display_name" eq_refl ltac:(discriminate) Hd) as [Hd1 Hd2].
  rewrite Hd1, Hd2, !andb_true_r.
  repeat (apply orb_prop in Hm; destruct Hm as [Hm|Hm]).
  - destruct (Hkeep "authorships" eq_refl ltac:(discriminate) Hm) as [-> ->]. auto.
  - destruct (Hkeep "topics" eq_refl ltac:(discriminate) Hm) as [-> ->].
    rewrite !orb_true_r. auto.
  - destruct (Hkeep "keywords" eq_refl ltac:(discriminate) Hm) as [-> ->].
    rewrite !orb_true_r. auto.
  - destruct (Hkeep "sustainable_development_goals" eq_refl ltac:(discriminate) Hm)
      as [-> ->].
    rewrite !orb_true_r. auto.
Qed.

(** ** Every field with a fixed name goes through the final merge *)

Lemma fixed_key_apart (t : string) :
  In t fixed_keys ->
  retained t = false /\ prefix "percentiles_" t = false /\ prefix "g" t = false.
Proof.
  intros H. vm_compute in H.
  repeat (destruct H as [<-|H]; [vm_compute; auto|]). destruct H.
Qed.

Lemma field_key_normalizes_fixed (t k : string) :
  In t fixed_keys -> field_key k -> strip_indices k = t -> k = t.
Proof.
  intros Ht Hk Hst. destruct (fixed_key_apart t Ht) as [Hr [Hp Hg]].
  destruct Hk as [k Hk|x|i|p Hp'].
  - now rewrite (strip_index_free k (fixed_keys_index_free k Hk)) in Hst.
  - exfalso. subst t. cbn in Hp. now destruct (strip_from 0 x).
  - exfalso. subst t. cbn in Hg. discriminate.
  - exfalso. subst t. rewrite (proj2 (retained_normalized p Hp')) in Hr.
    discriminate.
Qed.

Lemma parse_work_keeps_fixed (w : value) (include_abstract : bool)
  (out : dict value) (t : string) :
  In t fixed_keys -> parse_work w include_abstract = Ok out ->
  dict_get t out = dict_get t (parsed_fields w include_abstract).
Proof.
  intros Ht Hout. destruct (parsed_fields_keys w include_abstract) as [Hk Hnd].
  apply merge_keeps; auto using fixed_keys_index_free.
  intros k Hin. apply field_key_normalizes_fixed; auto.
Qed.

Lemma parse_work_fixed_key (w : value) (include_abstract : bool) (t : string) :
  In t fixed_keys ->
  match parse_work w include_abstract with
  | Ok out => dict_get t out = dict_get t (parsed_fields w include_abstract)
  | Raise e => e = TypeError
  end.
Proof.
  intros Ht. destruct (parse_work w include_abstract) as [out|e] eqn:H.
  - now apply parse_work_keeps_fixed.
  - now apply parse_work_Raise in H.
Qed.

Ltac key_apart :=
  first
    [ intros [? [Hret Heq]];
      apply (f_equal retained) in Heq;
      rewrite (proj1 (retained_normalized _ Hret)) in Heq;
      vm_compute in Heq; discriminate Heq
    | intros [? Heq]; cbn in Heq; discriminate Heq
    | intros [Heq|Heq]; discriminate Heq
    | intros Heq; discriminate Heq ].

Ltac skip_block :=
  match goal with
  | |- context [dict_get ?t (try_except (parse_abstract ?w) ?pd)] =>
      rewrite (try_except_frame _ _ pd t (stores_only_parse_abstract w)) by key_apart
  | |- context [dict_get ?t (try_except (parse_display_names ?w) ?pd)] =>
      rewrite (try_except_frame _ _ pd t (stores_only_parse_display_names w)) by key_apart
  | |- context [dict_get ?t (try_except (parse_countries_codes ?w) ?pd)] =>
      rewrite (try_except_frame _ _ pd t (stores_only_parse_countries_codes w)) by key_apart
  | |- context [dict_get ?t (try_except (parse_grants ?w) ?pd)] =>
      rewrite (try_except_frame _ _ pd t (stores_only_parse_grants w)) by key_apart
  | |- context [dict_get ?t (try_except (parse_open_access ?w) ?pd)] =>
      rewrite (try_except_frame _ _ pd t (stores_only_parse_open_access w)) by key_apart
  | |- context [dict_get ?t (try_except (parse_percentiles ?w) ?pd)] =>
      rewrite (try_except_frame _ _ pd t (stores_only_parse_percentiles w)) by key_apart
  | |- context [dict_get ?t (try_except (parse_publication_date ?w) ?pd)] =>
      rewrite (try_except_frame _ _ pd t (stores_only_parse_publication_date w)) by key_apart
  | |- context [dict_get ?t (try_except (parse_primary_location ?w) ?pd)] =>
      rewrite (try_except_frame _ _ pd t (stores_only_parse_primary_location w)) by key_apart
  | |- context [dict_get ?t (try_except (parse_count_field ?w ?f) ?pd)] =>
      rewrite (try_except_frame _ _ pd t (stores_only_parse_count_field w f)) by key_apart
  | |- context [dict_get ?t (try_except (parse_apc_paid ?w) ?pd)] =>
      rewrite (try_except_frame _ _ pd t (stores_only_parse_apc_paid w)) by key_apart
  | |- context [dict_get ?t (try_except (parse_ids ?w) ?pd)] =>
      rewrite (try_except_frame _ _ pd t (stores_only_parse_ids w)) by key_apart
  | |- context [dict_get ?t (try_except (parse_basic_field ?w ?f) ?pd)] =>
      rewrite (try_except_frame _ _ pd t (stores_only_parse_basic_field w f)) by key_apart
  end.

(** ** The count fields *)

Lemma parse_count_field_get (wd : list (string * value)) (field : string)
  (pd : dict value) :
  dict_get field (try_except (parse_count_field (VDict wd) field) pd)
  = Some (get_or wd field VNone).
Proof.
  unfold try_except, parse_count_field, get_or. cbn. apply dict_get_set_same.
Qed.

Lemma parsed_fields_count (wd : list (string * value)) (include_abstract : bool)
  (field : string) :
  In field count_fields ->
  dict_get field (parsed_fields (VDict wd) include_abstract)
  = Some (get_or wd field VNone).
Proof.
  intros Hin. cbn in Hin.
  unfold_blocks include_abstract;
    repeat (destruct Hin as [<-|Hin];
            [repeat skip_block; apply parse_count_field_get|]);
    destruct Hin.
Qed.

Lemma count_fields_fixed (field : string) :
  In field count_fields -> In field fixed_keys.
Proof.
  intros H. unfold fixed_keys. apply in_or_app. right.
  apply in_or_app. right. apply in_or_app. now left.
Qed.

(** X1.  For every input record, [parse_work] either raises a [TypeError]
    in its final merge or returns a mapping that holds each of the six
    count fields (referenced_works_count, cited_by_count,
    countries_distinct_count, institutions_distinct_count,
    locations_count, fwci): with the value of the input, copied verbatim,
    and with [None] when the input does not have the field. *)
Theorem parse_work_count_fields (wd : list (string * value))
  (include_abstract : bool) (field : string) :
  In field count_fields ->
  match parse_work (VDict wd) include_abstract with
  | Ok out => dict_get field out = Some (get_or wd field VNone)
  | Raise e => e = TypeError
  end.
Proof.
  intros Hin.
  pose proof (parse_work_fixed_key (VDict wd) include_abstract field
                (count_fields_fixed field Hin)) as H.
  destruct (parse_work (VDict wd) include_abstract) as [out|e]; [|exact H].
  rewrite H. now apply parsed_fields_count.
Qed.

(** ** Projections of nested mappings *)

Ltac run_block :=
  unfold try_except, sbind, eval, store, sret; cbn [py_get fst snd].

Lemma parse_ids_get (wd : list (string * value)) (pd : dict value) :
  dict_get "pmid" pd = None -> dict_get "mag" pd = None ->
  let pd' := try_except (parse_ids (VDict wd)) pd in
  match sub_mapping wd "ids" with
  | Some ids =>
      dict_get "pmid" pd' = Some (get_or ids "pmid" (VStr ""))
      /\ dict_get "mag" pd' = Some (get_or ids "mag" (VStr ""))
  | None => dict_get "pmid" pd' = None /\ dict_get "mag" pd' = None
  end.
Proof.
  intros Hp Hm. unfold parse_ids, sub_mapping, get_or. run_block.
  destruct (dict_get "ids" wd) as [[| | | | | |d]|]; cbn; auto;
    (split; [rewrite dict_get_set_other by discriminate|]; apply dict_get_set_same).
Qed.

Lemma parsed_fields_ids (wd : list (string * value)) (include_abstract : bool) :
  match sub_mapping wd "ids" with
  | Some ids =>
      dict_get "pmid" (parsed_fields (VDict wd) include_abstract)
      = Some (get_or ids "pmid" (VStr ""))
      /\ dict_get "mag" (parsed_fields (VDict wd) include_abstract)
         = Some (get_or ids "mag" (VStr ""))
  | None =>
      dict_get "pmid" (parsed_fields (VDict wd) include_abstract) = None
      /\ dict_get "mag" (parsed_fields (VDict wd) include_abstract) = None
  end.
Proof.
  unfold_blocks include_abstract; repeat skip_block;
    apply parse_ids_get; repeat skip_block; reflexivity.
Qed.

(** X2.  [parse_work] either raises a [TypeError] in its final merge or
    returns a mapping in which [pmid] and [mag] are the entries of the
    record's [ids] mapping, the empty string standing for a missing entry
    and for a missing [ids]; when [ids] is present but is not a mapping
    (null, say), both keys are absent. *)
Theorem parse_work_ids (wd : list (string * value)) (include_abstract : bool) :
  match parse_work (VDict wd) include_abstract with
  | Ok out =>
      match sub_mapping wd "ids" with
      | Some ids =>
          dict_get "pmid" out = Some (get_or ids "pmid" (VStr ""))
          /\ dict_get "mag" out = Some (get_or ids "mag" (VStr ""))
      | None => dict_get "pmid" out = None /\ dict_get "mag" out = None
      end
  | Raise e => e = TypeError
  end.
Proof.
  pose proof (parse_work_fixed_key (VDict wd) include_abstract "pmid"
                ltac:(vm_compute; tauto)) as Hp.
  pose proof (parse_work_fixed_key (VDict wd) include_abstract "mag"
                ltac:(vm_compute; tauto)) as Hm.
  destruct (parse_work (VDict wd) include_abstract) as [out|e]; [|exact Hp].
  rewrite Hp, Hm. apply parsed_fields_ids.
Qed.

Lemma parse_primary_location_get (wd : list (string * value)) (pd : dict value) :
  dict_get "primary_location_display_name" pd = None ->
  dict_get "primary_location_host_organization_name" pd = None ->
  let pd' := try_except (parse_primary_location (VDict wd)) pd in
  match primary_source wd with
  | Some source =>
      dict_get "primary_location_display_name" pd'
      = Some (get_or source "display_name" VNone)
      /\ dict_get "primary_location_host_organization_name" pd'
         = Some (get_or source "host_organization_name" VNone)
  | None =>
      dict_get "primary_location_display_name" pd' = None
      /\ dict_get "primary_location_host_organization_name" pd' = None
  end.
Proof.
  intros Hd Hh. unfold parse_primary_location, primary_source, sub_mapping, get_or.
  run_block.
  destruct (dict_get "primary_location" wd) as [[| | | | | |l]|]; cbn; auto.
  - destruct (dict_get "source" l) as [[| | | | | |s]|]; cbn; auto;
      (split; [rewrite dict_get_set_other by discriminate|]; apply dict_get_set_same).
  - split; [rewrite dict_get_set_other by discriminate|]; apply dict_get_set_same.
Qed.

Lemma parsed_fields_primary_location (wd : list (string * value))
  (include_abstract : bool) :
  match primary_source wd with
  | Some source =>
      dict_get "primary_location_display_name"
        (parsed_fields (VDict wd) include_abstract)
      = Some (get_or source "display_name" VNone)
      /\ dict_get "primary_location_host_organization_name"
           (parsed_fields (VDict wd) include_abstract)
         = Some (get_or source "host_organization_name" VNone)
  | None =>
      dict_get "primary_location_display_name"
        (parsed_fields (VDict wd) include_abstract) = None
      /\ dict_get "primary_location_host_organization_name"
           (parsed_fields (VDict wd) include_abstract) = None
  end.
Proof.
  unfold_blocks include_abstract; repeat skip_block;
    apply parse_primary_location_get; repeat skip_block; reflexivity.
Qed.

(** X3.  [parse_work] either raises a [TypeError] in its final merge or
    returns a mapping in which [primary_location_display_name] and
    [primary_location_host_organization_name] are the [display_name] and
    the [host_organization_name] of the source of the primary location,
    [None] standing for a missing entry, a missing source and a missing
    primary location; when the primary location or its source is present
    but is not a mapping (null, say), both keys are absent. *)
Theorem parse_work_primary_location (wd : list (string * value))
  (include_abstract : bool) :
  match parse_work (VDict wd) include_abstract with
  | Ok out =>
      match primary_source wd with
      | Some source =>
          dict_get "primary_location_display_name" out
          = Some (get_or source "display_name" VNone)
          /\ dict_get "primary_location_host_organization_name" out
             = Some (get_or source "host_organization_name" VNone)
      | None =>
          dict_get "primary_location_display_name" out = None
          /\ dict_get "primary_location_host_organization_name" out = None
      end
  | Raise e => e = TypeError
  end.
Proof.
  pose proof (parse_work_fixed_key (VDict wd) include_abstract
                "primary_location_display_name" ltac:(vm_compute; tauto)) as Hd.
  pose proof (parse_work_fixed_key (VDict wd) include_abstract
                "primary_location_host_organization_name"
                ltac:(vm_compute; tauto)) as Hh.
  destruct (parse_work (VDict wd) include_abstract) as [out|e]; [|exact Hd].
  rewrite Hd, Hh. apply parsed_fields_primary_location.
Qed.

Lemma parse_open_access_get (wd : list (string * value)) (pd : dict value) :
  dict_get "open_access_is_oa" pd = None ->
  dict_get "open_access_oa_status" pd = None ->
  let pd' := try_except (parse_open_access (VDict wd)) pd in
  match sub_mapping wd "open_access" with
  | Some open_access =>
      dict_get "open_access_is_oa" pd' = Some (get_or open_access "is_oa" VNone)
      /\ dict_get "open_access_oa_status" pd'
         = Some (get_or open_access "oa_status" VNone)
  | None =>
      dict_get "open_access_is_oa" pd' = None
      /\ dict_get "open_access_oa_status" pd' = None
  end.
Proof.
  intros Hi Hs. unfold parse_open_access, sub_mapping, get_or. run_block.
  destruct (dict_get "open_access" wd) as [[| | | | | |d]|]; cbn; auto;
    (split; [rewrite dict_get_set_other by discriminate|]; apply dict_get_set_same).
Qed.

Lemma parsed_fields_open_access (wd : list (string * value))
  (include_abstract : bool) :
  match sub_mapping wd "open_access" with
  | Some open_access =>
      dict_get "open_access_is_oa" (parsed_fields (VDict wd) include_abstract)
      = Some (get_or open_access "is_oa" VNone)
      /\ dict_get "open_access_oa_status" (parsed_fields (VDict wd) include_abstract)
         = Some (get_or open_access "oa_status" VNone)
  | None =>
      dict_get "open_access_is_oa" (parsed_fields (VDict wd) include_abstract) = None
      /\ dict_get "open_access_oa_status" (parsed_fields (VDict wd) include_abstract)
         = None
  end.
Proof.
  unfold_blocks include_abstract; repeat skip_block;
    apply parse_open_access_get; repeat skip_block; reflexivity.
Qed.

(** X4.  [parse_work] either raises a [TypeError] in its final merge or
    returns a mapping in which [open_access_is_oa] and
    [open_access_oa_status] are the [is_oa] and the [oa_status] of the
    record's [open_access] mapping, [None] standing for a missing entry
    and for a missing [open_access]; when [open_access] is present but is
    not a mapping, both keys are absent. *)
Theorem parse_work_open_access (wd : list (string * value))
  (include_abstract : bool) :
  match parse_work (VDict wd) include_abstract with
  | Ok out =>
      match sub_mapping wd "open_access" with
      | Some open_access =>
          dict_get "open_access_is_oa" out = Some (get_or open_access "is_oa" VNone)
          /\ dict_get "open_access_oa_status" out
             = Some (get_or open_access "oa_status" VNone)
      | None =>
          dict_get "open_access_is_oa" out = None
          /\ dict_get "open_access_oa_status" out = None
      end
  | Raise e => e = TypeError
  end.
Proof.
  pose proof (parse_work_fixed_key (VDict wd) include_abstract
                "open_access_is_oa" ltac:(vm_compute; tauto)) as Hi.
  pose proof (parse_work_fixed_key (VDict wd) include_abstract
                "open_access_oa_status" ltac:(vm_compute; tauto)) as Hs.
  destruct (parse_work (VDict wd) include_abstract) as [out|e]; [|exact Hi].
  rewrite Hi, Hs. apply parsed_fields_open_access.
Qed.

(** ** Country codes and abstract *)

Lemma parse_countries_codes_get (wd : list (string * value)) (pd : dict value) :
  dict_get "countries_codes" pd = None ->
  dict_get "countries_codes" (try_except (parse_countries_codes (VDict wd)) pd)
  = match extract_unique_country_codes (get_or wd "authorships" (VList [])) with
    | Ok codes => Some (VStr codes)
    | Raise _ => None
    end.
Proof.
  intros Hpd. unfold parse_countries_codes, get_or. run_block.
  destruct (extract_unique_country_codes _); cbn; [apply dict_get_set_same | exact Hpd].
Qed.

Lemma parsed_fields_countries_codes (wd : list (string * value))
  (include_abstract : bool) :
  dict_get "countries_codes" (parsed_fields (VDict wd) include_abstract)
  = match extract_unique_country_codes (get_or wd "authorships" (VList [])) with
    | Ok codes => Some (VStr codes)
    | Raise _ => None
    end.
Proof.
  unfold_blocks include_abstract; repeat skip_block;
    apply parse_countries_codes_get; repeat skip_block; reflexivity.
Qed.

(** X5.  [parse_work] either raises a [TypeError] in its final merge or
    returns a mapping in which [countries_codes] is the string that
    [extract_unique_country_codes] returns on the record's [authorships]
    (on the empty list when the record has none); when that call raises,
    the key is absent. *)
Theorem parse_work_countries_codes (wd : list (string * value))
  (include_abstract : bool) :
  match parse_work (VDict wd) include_abstract with
  | Ok out =>
      dict_get "countries_codes" out
      = match extract_unique_country_codes (get_or wd "authorships" (VList [])) with
        | Ok codes => Some (VStr codes)
        | Raise _ => None
        end
  | Raise e => e = TypeError
  end.
Proof.
  pose proof (parse_work_fixed_key (VDict wd) include_abstract
                "countries_codes" ltac:(vm_compute; tauto)) as H.
  destruct (parse_work (VDict wd) include_abstract) as [out|e]; [|exact H].
  rewrite H. apply parsed_fields_countries_codes.
Qed.

Lemma parse_abstract_get (wd : list (string * value)) (pd : dict value) :
  dict_get "abstract" pd = None ->
  dict_get "abstract" (try_except (parse_abstract (VDict wd)) pd)
  = option_map VStr
      (extract_abstract_of (get_or wd "abstract_inverted_index" VNone)).
Proof.
  intros Hpd. unfold parse_abstract, get_or. run_block.
  destruct (extract_abstract_of _); cbn; [apply dict_get_set_same | exact Hpd].
Qed.

Lemma parsed_fields_abstract (wd : list (string * value))
  (include_abstract : bool) :
  dict_get "abstract" (parsed_fields (VDict wd) include_abstract)
  = if include_abstract
    then option_map VStr
           (extract_abstract_of (get_or wd "abstract_inverted_index" VNone))
    else None.
Proof.
  unfold_blocks include_abstract.
  - apply parse_abstract_get; repeat skip_block; reflexivity.
  - repeat skip_block; reflexivity.
Qed.

(** X6.  [parse_work] either raises a [TypeError] in its final merge or
    returns a mapping that has no [abstract] key when [include_abstract]
    is false, whatever the record holds; when [include_abstract] is true,
    [abstract] is the text that [extract_abstract] returns on the record's
    [abstract_inverted_index] ([None] when the record has none), and the
    key is absent when that call raises. *)
Theorem parse_work_abstract (wd : list (string * value))
  (include_abstract : bool) :
  match parse_work (VDict wd) include_abstract with
  | Ok out =>
      dict_get "abstract" out
      = if include_abstract
        then option_map VStr
               (extract_abstract_of (get_or wd "abstract_inverted_index" VNone))
        else None
  | Raise e => e = TypeError
  end.
Proof.
  pose proof (parse_work_fixed_key (VDict wd) include_abstract
                "abstract" ltac:(vm_compute; tauto)) as H.
  destruct (parse_work (VDict wd) include_abstract) as [out|e]; [|exact H].
  rewrite H. apply parsed_fields_abstract.
Qed.

(** ** extract_unique_country_codes *)

Lemma existsb_py_eq_strs (x : string) (seen : list string) :
  existsb (py_eq (VStr x)) (map VStr seen) = existsb (String.eqb x) seen.
Proof.
  induction seen as [|y seen IH]; simpl; [reflexivity | now rewrite IH].
Qed.

Lemma set_update_strs (cs : list string) :
  forall seen,
    set_update (map VStr cs) (map VStr seen)
    = Ok (map VStr (fold_left (fun seen x =>
            if existsb (String.eqb x) seen then seen else seen ++ [x]) cs seen)).
Proof.
  induction cs as [|x cs IH]; intros seen; [reflexivity|].
  cbn [map set_update fold_left]. unfold set_add. cbn [hashable bind].
  rewrite existsb_py_eq_strs.
  destruct (existsb (String.eqb x) seen); [apply IH|].
  rewrite <- IH. now rewrite map_app.
Qed.

Lemma all_strs_Some (l : list value) :
  forall ss, all_strs l = Some ss -> l = map VStr ss.
Proof.
  induction l as [|v l IH]; intros ss H; simpl in H.
  - now injection H as <-.
  - destruct v; try discriminate H.
    destruct (all_strs l) as [ss'|]; [|discriminate H].
    injection H as <-. simpl. now rewrite (IH ss' eq_refl).
Qed.

Lemma country_codes_loop_strs (authors : list value) (codes : list (list string)) :
  Forall2 (fun author cs => countries_of author = Some cs) authors codes ->
  forall seen,
    country_codes_loop authors (map VStr seen)
    = Ok (map VStr (fold_left (fun seen x =>
            if existsb (String.eqb x) seen then seen else seen ++ [x])
            (List.concat codes) seen)).
Proof.
  induction 1 as [|author cs authors codes Hcs _ IH]; intros seen; [reflexivity|].
  cbn [country_codes_loop List.concat]. rewrite fold_left_app.
  destruct author as [| | | | | |d]; try discriminate Hcs.
  cbn [countries_of py_get bind] in *.
  destruct (dict_get "countries" d) as [[| | | | |l|]|]; try discriminate Hcs.
  - apply all_strs_Some in Hcs. subst l. cbn [py_iter bind].
    rewrite set_update_strs. cbn [bind]. apply IH.
  - injection Hcs as <-. cbn [py_iter bind set_update fold_left]. apply IH.
Qed.

Lemma existsb_eqb_In (x : string) (seen : list string) :
  existsb (String.eqb x) seen = true <-> In x seen.
Proof.
  rewrite existsb_exists. split.
  - intros [y [Hy E]]. apply String.eqb_eq in E. now subst.
  - intros H. exists x. split; [exact H | apply String.eqb_refl].
Qed.

Lemma fold_distinct_In (l : list string) :
  forall seen x,
    In x (fold_left (fun seen x =>
            if existsb (String.eqb x) seen then seen else seen ++ [x]) l seen)
    <-> In x seen \/ In x l.
Proof.
  induction l as [|y l IH]; intros seen x; cbn [fold_left].
  - simpl. tauto.
  - rewrite IH. destruct (existsb (String.eqb y) seen) eqn:E.
    + apply existsb_eqb_In in E. simpl. split; [tauto|].
      intros [H|[<-|H]]; auto.
    + rewrite in_app_iff. simpl. tauto.
Qed.

Lemma fold_distinct_NoDup (l : list string) :
  forall seen,
    NoDup seen ->
    NoDup (fold_left (fun seen x =>
             if existsb (String.eqb x) seen then seen else seen ++ [x]) l seen).
Proof.
  induction l as [|y l IH]; intros seen Hnd; cbn [fold_left]; [exact Hnd|].
  apply IH. destruct (existsb (String.eqb y) seen) eqn:E; [exact Hnd|].
  apply NoDup_app; [exact Hnd | repeat constructor; intros [] |].
  intros x Hx [<-|[]].
  apply existsb_eqb_In in Hx. congruence.
Qed.

(** X7.  On a list of authorships that are mappings whose [countries],
    when present, are lists of strings, [extract_unique_country_codes]
    returns the codes of all authorships joined by pipes, each code once,
    in increasing order; an authorship without [countries] adds nothing. *)
Theorem extract_unique_country_codes_sorted (authors : list value)
  (codes : list (list string)) :
  Forall2 (fun author cs => countries_of author = Some cs) authors codes ->
  exists out,
    extract_unique_country_codes (VList authors) = Ok (concat "|" out)
    /\ Sorted str_le out /\ NoDup out
    /\ forall c, In c out <-> In c (List.concat codes).
Proof.
  intros H. exists (sort_strings (distinct_strings (List.concat codes))).
  repeat split.
  - unfold extract_unique_country_codes. cbn [py_iter bind].
    change (@nil value) with (map VStr []).
    rewrite (country_codes_loop_strs authors codes H []). cbn [bind].
    unfold join_sorted. now rewrite all_strs_map_VStr.
  - apply sort_strings_sorted.
  - apply (Permutation_NoDup (sort_strings_perm _)).
    apply fold_distinct_NoDup. constructor.
  - intros Hc. apply (Permutation_in _ (Permutation_sym (sort_strings_perm _))) in Hc.
    apply fold_distinct_In in Hc. now destruct Hc as [[]|Hc].
  - intros Hc. apply (Permutation_in _ (sort_strings_perm _)).
    apply fold_distinct_In. now right.
Qed.

Lemma country_codes_loop_not_mapping (authors : list value) (author : value) :
  In author authors -> (forall d, author <> VDict d) ->
  forall country_codes, exists e, country_codes_loop authors country_codes = Raise e.
Proof.
  intros Hin Hnd. induction authors as [|a authors IH]; [destruct Hin|].
  intros country_codes. cbn [country_codes_loop].
  destruct (py_get a "countries" (VList [])) as [countries|e] eqn:Hget;
    cbn [bind]; [|eauto].
  destruct (py_iter countries) as [cs|e]; cbn [bind]; [|eauto].
  destruct (set_update cs country_codes) as [s|e]; cbn [bind]; [|eauto].
  destruct Hin as [->|Hin]; [|now apply IH].
  destruct author; try discriminate Hget. exfalso. now eapply Hnd.
Qed.

(** X8.  When one entry of [authorships] is not a mapping (null, say),
    [extract_unique_country_codes] raises and [parse_work], when it
    returns, returns a mapping without the key [countries_codes]: the
    codes of the other authorships are lost with it. *)
Theorem parse_work_countries_codes_lost (wd : list (string * value))
  (include_abstract : bool) (authors : list value) (author : value) :
  dict_get "authorships" wd = Some (VList authors) ->
  In author authors -> (forall d, author <> VDict d) ->
  (exists e, extract_unique_country_codes (VList authors) = Raise e)
  /\ match parse_work (VDict wd) include_abstract with
     | Ok out => dict_get "countries_codes" out = None
     | Raise e => e = TypeError
     end.
Proof.
  intros Hget Hin Hnd.
  destruct (country_codes_loop_not_mapping authors author Hin Hnd []) as [e He].
  assert (Hraise : extract_unique_country_codes (VList authors) = Raise e).
  { unfold extract_unique_country_codes. cbn [py_iter bind]. now rewrite He. }
  split; [eauto|].
  pose proof (parse_work_fixed_key (VDict wd) include_abstract
                "countries_codes" ltac:(vm_compute; tauto)) as H.
  destruct (parse_work (VDict wd) include_abstract) as [out|e']; [|exact H].
  rewrite H, parsed_fields_countries_codes. unfold get_or.
  now rewrite Hget, Hraise.
Qed.

(** ** convert_publication_date *)

Lemma in_range_bounds (lo hi c : ascii) :
  in_range lo hi c = true ->
  (nat_of_ascii lo <= nat_of_ascii c <= nat_of_ascii hi)%nat.
Proof.
  unfold in_range, Ascii.leb, Ascii.compare, nat_of_ascii. intros H.
  apply andb_prop in H. destruct H as [H1 H2].
  destruct (N.compare_spec (N_of_ascii lo) (N_of_ascii c));
    destruct (N.compare_spec (N_of_ascii c) (N_of_ascii hi));
    try discriminate; lia.
Qed.

Lemma is_digit_val (c : ascii) : is_digit c = true -> (digit_val c <= 9)%nat.
Proof.
  intros H. apply (in_range_bounds "0" "9" c) in H. unfold digit_val.
  change (nat_of_ascii "0") with 48%nat in H.
  change (nat_of_ascii "9") with 57%nat in H. lia.
Qed.

Lemma in_range_val (lo hi c : ascii) :
  in_range lo hi c = true ->
  (nat_of_ascii lo - 48 <= digit_val c <= nat_of_ascii hi - 48)%nat.
Proof. intros H. apply in_range_bounds in H. unfold digit_val. lia. Qed.

Lemma parse_year_bound (s rest : string) (year : nat) :
  parse_year s = Some (year, rest) -> (year < 100 * 100)%nat.
Proof.
  unfold parse_year.
  destruct s as [|a [|b [|c [|d r]]]]; try discriminate.
  destruct (is_digit a) eqn:Ha; [|discriminate].
  destruct (is_digit b) eqn:Hb; [|discriminate].
  destruct (is_digit c) eqn:Hc; [|discriminate].
  destruct (is_digit d) eqn:Hd; [|discriminate].
  cbn [andb]. intros [= <- _].
  apply is_digit_val in Ha, Hb, Hc, Hd. lia.
Qed.

Lemma parse_month_bound (s rest : string) (month : nat) :
  parse_month s = Some (month, rest) -> (1 <= month <= 12)%nat.
Proof.
  unfold parse_month. destruct s as [|a [|b r]]; [discriminate | |].
  - destruct (in_range "1" "9" a) eqn:Ha; [|discriminate].
    intros [= <- _]. apply in_range_val in Ha.
    change (nat_of_ascii "1") with 49%nat in Ha.
    change (nat_of_ascii "9") with 57%nat in Ha. lia.
  - destruct (Ascii.eqb a "1" && in_range "0" "2" b) eqn:E1.
    { apply andb_prop in E1. destruct E1 as [_ Hb]. intros [= <- _].
      apply in_range_val in Hb.
      change (nat_of_ascii "0") with 48%nat in Hb.
      change (nat_of_ascii "2") with 50%nat in Hb. lia. }
    destruct (Ascii.eqb a "0" && in_range "1" "9" b) eqn:E2.
    { apply andb_prop in E2. destruct E2 as [_ Hb]. intros [= <- _].
      apply in_range_val in Hb.
      change (nat_of_ascii "1") with 49%nat in Hb.
      change (nat_of_ascii "9") with 57%nat in Hb. lia. }
    destruct (in_range "1" "9" a) eqn:Ha; [|discriminate].
    intros [= <- _]. apply in_range_val in Ha.
    change (nat_of_ascii "1") with 49%nat in Ha.
    change (nat_of_ascii "9") with 57%nat in Ha. lia.
Qed.

Lemma parse_day_bound (s rest : string) (day : nat) :
  parse_day s = Some (day, rest) -> (1 <= day)%nat.
Proof.
  unfold parse_day. destruct s as [|a [|b r]]; [discriminate | |].
  - destruct (in_range "1" "9" a) eqn:Ha; [|discriminate].
    intros [= <- _]. apply in_range_val in Ha.
    change (nat_of_ascii "1") with 49%nat in Ha. lia.
  - destruct (Ascii.eqb a "3" && in_range "0" "1" b) eqn:E1.
    { intros [= <- _]. lia. }
    destruct (in_range "1" "2" a && is_digit b) eqn:E2.
    { apply andb_prop in E2. destruct E2 as [Ha _]. intros [= <- _].
      apply in_range_val in Ha.
      change (nat_of_ascii "1") with 49%nat in Ha. lia. }
    destruct (Ascii.eqb a "0" && in_range "1" "9" b) eqn:E3.
    { apply andb_prop in E3. destruct E3 as [_ Hb]. intros [= <- _].
      apply in_range_val in Hb.
      change (nat_of_ascii "1") with 49%nat in Hb. lia. }
    destruct (in_range "1" "9" a) eqn:Ha.
    { intros [= <- _]. apply in_range_val in Ha.
      change (nat_of_ascii "1") with 49%nat in Ha. lia. }
    destruct (Ascii.eqb a " " && in_range "1" "9" b) eqn:E5; [|discriminate].
    apply andb_prop in E5. destruct E5 as [_ Hb]. intros [= <- _].
    apply in_range_val in Hb.
    change (nat_of_ascii "1") with 49%nat in Hb. lia.
Qed.

(** X9.  [convert_publication_date] never raises on a string: it returns
    [None], or the timestamp [YYYY-MM-DDT00:00:00Z] of a date of the
    calendar (year 1 to 9999, month 1 to 12, a day that the month has),
    zero-padded whatever the spelling of the input was.  On a value that is
    not a string it raises [TypeError], which its [except ValueError] does
    not catch. *)
Theorem convert_publication_date_outcomes (publication_date_str : value) :
  match publication_date_str with
  | VStr s =>
      convert_publication_date publication_date_str = Ok VNone
      \/ exists year month day,
           valid_date year month day
           /\ convert_publication_date publication_date_str
              = Ok (VStr (date_string year month day ++ "T00:00:00Z"))
  | _ => convert_publication_date publication_date_str = Raise TypeError
  end.
Proof.
  destruct publication_date_str as [| | | |s| |]; try reflexivity.
  unfold convert_publication_date, strptime_ymd.
  destruct (parse_year s) as [[year s1]|] eqn:Hy; [|now left].
  destruct (expect_dash s1) as [s2|]; [|now left].
  destruct (parse_month s2) as [[month s3]|] eqn:Hm; [|now left].
  destruct (expect_dash s3) as [s4|]; [|now left].
  destruct (parse_day s4) as [[day s5]|] eqn:Hd; [|now left].
  destruct (negb (String.eqb s5 "")); [now left|].
  destruct (year =? 0)%nat eqn:E0; [now left|].
  destruct (days_in_month year month <? day)%nat eqn:E1; [now left|].
  right. exists year, month, day. split; [|reflexivity].
  apply parse_year_bound in Hy. apply parse_month_bound in Hm.
  apply parse_day_bound in Hd.
  apply Nat.eqb_neq in E0. apply Nat.ltb_ge in E1.
  unfold valid_date. lia.
Qed.

(** ** merge_and_deduplicate *)

(** X10.  [merge_and_deduplicate] returns its argument unchanged, in the
    same order, when no key holds an index group [\[digits\]] and every
    value is hashable (not a list and not a mapping). *)
Theorem merge_and_deduplicate_index_free (data : dict value) :
  NoDup (keys data) ->
  (forall k, In k (keys data) -> has_index k = false) ->
  Forall (fun kv => hashable (snd kv) = true) data ->
  merge_and_deduplicate data = Ok data.
Proof.
  intros Hnd Hidx Hh. unfold merge_and_deduplicate.
  rewrite (merge_loop_index_free data Hidx Hnd Hh []) by (intros k _ []).
  cbn [app bind]. apply merge_finish_singletons.
Qed.

Lemma merge_loop_unhashable (data : dict value) (key : string) (v : value) :
  In (key, v) data -> hashable v = false ->
  forall merged_data, merge_loop data merged_data = Raise TypeError.
Proof.
  intros Hin Hv. induction data as [|[k x] data IH]; [destruct Hin|].
  intros md. cbn [merge_loop].
  destruct Hin as [[= -> ->]|Hin].
  - unfold set_add. rewrite Hv. now destruct (has_index key).
  - destruct (has_index k).
    + destruct (set_add x _) as [s|e] eqn:Hadd; cbn [bind]; [now apply IH|].
      apply set_add_Raise in Hadd. now destruct Hadd as [-> _].
    + destruct (set_add x []) as [s|e] eqn:Hadd; cbn [bind]; [now apply IH|].
      apply set_add_Raise in Hadd. now destruct Hadd as [-> _].
Qed.

Lemma merge_and_deduplicate_unhashable_aux (data : dict value) (key : string)
  (v : value) :
  In (key, v) data -> hashable v = false ->
  merge_and_deduplicate data = Raise TypeError.
Proof.
  intros Hin Hv. unfold merge_and_deduplicate.
  now rewrite (merge_loop_unhashable data key v Hin Hv).
Qed.

(** X11.  [merge_and_deduplicate] raises [TypeError] on every mapping
    that holds a list or a mapping as a value, under whatever key: the
    value cannot be put into a set. *)
Theorem merge_and_deduplicate_unhashable (data : dict value) (key : string)
  (v : value) :
  In (key, v) data -> hashable v = false ->
  merge_and_deduplicate data = Raise TypeError.
Proof.
  intros Hin Hv. unfold merge_and_deduplicate.
  now rewrite (merge_loop_unhashable data key v Hin Hv).
Qed.

(** X12.  [parse_work] raises [TypeError] on every record in which a basic
    field or a count field holds a list or a mapping: the field is copied
    as it is, and the final merge cannot put it into a set. *)
Theorem parse_work_unhashable_field (wd : list (string * value))
  (include_abstract : bool) (field : string) (v : value) :
  In field (basic_fields ++ count_fields) ->
  dict_get field wd = Some v -> hashable v = false ->
  parse_work (VDict wd) include_abstract = Raise TypeError.
Proof.
  intros Hin Hget Hv. unfold parse_work.
  apply (merge_and_deduplicate_unhashable_aux _ field v); [|exact Hv].
  apply dict_get_In. apply in_app_or in Hin. destruct Hin as [Hin|Hin].
  - rewrite (parsed_fields_basic wd include_abstract field Hin). now rewrite Hget.
  - rewrite (parsed_fields_count wd include_abstract field Hin).
    unfold get_or. now rewrite Hget.
Qed.

(** ** find_display_names *)

Lemma contains_append (sub a s : string) :
  contains sub s = true -> contains sub (a ++ s) = true.
Proof.
  intros H. induction a as [|c a IH]; [exact H|].
  cbn [append contains]. rewrite IH. apply orb_true_r.
Qed.

Lemma contains_key_path (sub path key : string) :
  contains sub key = true -> contains sub (key_path path key) = true.
Proof.
  intros H. unfold key_path. destruct (String.eqb path ""); [exact H|].
  apply contains_append. now apply (contains_append sub ".").
Qed.

(** X13.  Every path that [find_display_names] yields contains
    [display_name], whatever the object and the starting path are; on these
    paths the test of [parse_work] comes down to its first part, whether
    the path names one of the four families. *)
Theorem find_display_names_paths (obj : value) (path p : string) (v : value) :
  In (p, v) (find_display_names obj path) ->
  contains "display_name" p = true
  /\ retained p
     = (contains "authorships" p || contains "topics" p
        || contains "keywords" p
        || contains "sustainable_development_goals" p).
Proof.
  intros Hin.
  assert (Hp : contains "display_name" p = true).
  { apply find_display_names_topmost in Hin.
    destruct Hin as [steps [k [Hk [_ [_ ->]]]]].
    unfold render. rewrite fold_left_app. cbn [fold_left render_step].
    now apply contains_key_path. }
  split; [exact Hp|]. unfold retained. rewrite Hp. apply andb_true_r.
Qed.

(** ** extract_abstract *)

Lemma max_list_Raise (pos : list Z) (e : exn) :
  max_list pos = Raise e -> e = ValueError.
Proof. destruct pos; simpl; congruence. Qed.

Lemma max_positions_empty (values : list (list Z)) :
  In [] values -> forall best, max_positions values best = Raise ValueError.
Proof.
  induction values as [|pos values IH]; intros Hin best; [destruct Hin|].
  cbn [max_positions]. destruct Hin as [->|Hin]; [reflexivity|].
  destruct (max_list pos) as [m|e] eqn:Hm; cbn [bind]; [now apply IH|].
  now apply max_list_Raise in Hm as ->.
Qed.

(** X14.  [extract_abstract] raises [ValueError] on every index in which
    some word has an empty list of positions, before any word is placed:
    [max] is taken of an empty list. *)
Theorem extract_abstract_word_without_position (index : inverted_index)
  (word : string) :
  In (word, []) index -> extract_abstract (Some index) = Raise ValueError.
Proof.
  intros Hin. destruct index as [|[w0 pos0] rest]; [destruct Hin|].
  cbn [extract_abstract].
  destruct Hin as [[= _ ->]|Hin]; [reflexivity|].
  destruct (max_list pos0) as [m0|e] eqn:Hm; cbn [bind].
  - rewrite max_positions_empty; [reflexivity|].
    apply in_map_iff. now exists (word, []).
  - now apply max_list_Raise in Hm as ->.
Qed.

(** ** parse_work on a value that is not a record *)

(** X15.  On a value that is neither a mapping nor a list (null, a number,
    a string), [parse_work] raises nothing and returns the empty mapping,
    with or without [include_abstract]: every block fails on its first
    [get] and is skipped, and nothing is yielded as a display name. *)
Theorem parse_work_scalar (work_data : value) (include_abstract : bool) :
  scalar work_data = true ->
  parse_work work_data include_abstract = Ok [].
Proof.
  intros H. destruct work_data; try discriminate H;
    destruct include_abstract; reflexivity.
Qed.

(** ** The percentile fields *)

Lemma stores_only_parse_percentiles_items (wd : list (string * value)) :
  stores_only (fun k => exists x, In x (keys (percentile_items wd))
                                  /\ k = ("percentiles_" ++ x)%string)
    (parse_percentiles (VDict wd)).
Proof.
  intros pd. unfold parse_percentiles, percentile_items, sub_mapping, sbind, eval.
  cbn [py_get].
  destruct (dict_get "citation_normalized_percentile" wd) as [[| | | | | |d]|];
    cbn [py_items]; try (simpl; now auto).
  apply (stores_only_for_each _ d). intros [k v] Hin. apply stores_only_store.
  exists k. split; [|reflexivity]. now apply (in_map fst) in Hin.
Qed.

Lemma blocks_record_keys (wd : list (string * value)) (include_abstract : bool) :
  Forall (stores_only (record_key (keys (percentile_items wd))))
    (blocks (VDict wd) include_abstract).
Proof.
  set (pc := keys (percentile_items wd)).
  assert (Hfix : forall k, In k fixed_keys -> record_key pc k)
    by (intros k Hk; now apply rk_fixed).
  assert (Hone : forall (b : stm (dict value) unit) k0,
             In k0 fixed_keys -> stores_only (fun k => k = k0) b ->
             stores_only (record_key pc) b).
  { intros b k0 Hk0. apply stores_only_weaken. intros k ->. auto. }
  assert (Htwo : forall (b : stm (dict value) unit) k0 k1,
             In k0 fixed_keys -> In k1 fixed_keys ->
             stores_only (fun k => k = k0 \/ k = k1) b ->
             stores_only (record_key pc) b).
  { intros b k0 k1 Hk0 Hk1. apply stores_only_weaken. intros k [->| ->]; auto. }
  unfold blocks. repeat rewrite Forall_app. repeat split.
  - apply Forall_forall. intros b Hb. apply in_map_iff in Hb.
    destruct Hb as [f [<- Hf]].
    apply (Hone _ f); [|apply stores_only_parse_basic_field].
    unfold fixed_keys. apply in_or_app. now left.
  - repeat apply Forall_cons; try apply Forall_nil.
    + apply (Htwo _ "pmid" "mag");
        [vm_compute; tauto | vm_compute; tauto | apply stores_only_parse_ids].
    + apply (Hone _ "apc_paid"); [vm_compute; tauto | apply stores_only_parse_apc_paid].
  - apply Forall_forall. intros b Hb. apply in_map_iff in Hb.
    destruct Hb as [f [<- Hf]].
    apply (Hone _ f); [|apply stores_only_parse_count_field].
    unfold fixed_keys. apply in_or_app. right.
    apply in_or_app. right. apply in_or_app. now left.
  - repeat apply Forall_cons; try apply Forall_nil.
    + apply (Htwo _ "primary_location_display_name"
               "primary_location_host_organization_name");
        [vm_compute; tauto | vm_compute; tauto
        | apply stores_only_parse_primary_location].
    + apply (Hone _ "publication_date");
        [vm_compute; tauto | apply stores_only_parse_publication_date].
    + eapply stores_only_weaken; [|apply stores_only_parse_percentiles_items].
      intros k [x [Hx ->]]. now apply rk_percentile.
    + apply (Htwo _ "open_access_is_oa" "open_access_oa_status");
        [vm_compute; tauto | vm_compute; tauto | apply stores_only_parse_open_access].
    + eapply stores_only_weaken; [|apply stores_only_parse_grants].
      intros k [i ->]. apply rk_grant.
    + apply (Hone _ "countries_codes");
        [vm_compute; tauto | apply stores_only_parse_countries_codes].
    + eapply stores_only_weaken; [|apply stores_only_parse_display_names].
      intros k [p [Hp ->]]. now apply rk_display.
  - destruct include_abstract; repeat apply Forall_cons; try apply Forall_nil.
    apply (Hone _ "abstract"); [vm_compute; tauto | apply stores_only_parse_abstract].
Qed.

Lemma parsed_fields_record_keys (wd : list (string * value))
  (include_abstract : bool) :
  (forall k, In k (keys (parsed_fields (VDict wd) include_abstract)) ->
             record_key (keys (percentile_items wd)) k)
  /\ NoDup (keys (parsed_fields (VDict wd) include_abstract)).
Proof.
  destruct (fold_blocks_keys _ _ (blocks_record_keys wd include_abstract) [])
    as [H1 H2].
  split.
  - intros k Hin. apply H1 in Hin. now destruct Hin as [[]|Hin].
  - apply H2. constructor.
Qed.

Lemma store_percentiles_get (pc : list (string * value)) (x : string) :
  NoDup (keys pc) ->
  forall pd,
    dict_get ("percentiles_" ++ x)
      (snd (for_each pc (fun kv => store ("percentiles_" ++ fst kv) (snd kv)) pd))
    = match dict_get x pc with
      | Some v => Some v
      | None => dict_get ("percentiles_" ++ x) pd
      end.
Proof.
  induction pc as [|[k v] pc IH]; intros Hnd pd; [reflexivity|].
  inversion Hnd as [|? ? Hnin Hnd']; subst.
  cbn [for_each]. unfold sbind at 1. unfold store at 1. cbn [fst snd].
  rewrite (IH Hnd'). cbn [dict_get].
  destruct (String.eqb k x) eqn:E.
  - apply String.eqb_eq in E. subst k.
    rewrite (proj2 (dict_get_None x pc) Hnin). apply dict_get_set_same.
  - destruct (dict_get x pc); [reflexivity|].
    apply dict_get_set_other. intros H. cbn in H. injection H as H.
    subst k. now rewrite String.eqb_refl in E.
Qed.

Lemma parse_percentiles_get (wd : list (string * value)) (x : string)
  (pd : dict value) :
  NoDup (keys (percentile_items wd)) ->
  dict_get ("percentiles_" ++ x) pd = None ->
  dict_get ("percentiles_" ++ x) (try_except (parse_percentiles (VDict wd)) pd)
  = dict_get x (percentile_items wd).
Proof.
  unfold try_except, parse_percentiles, percentile_items, sub_mapping, sbind, eval.
  cbn [py_get].
  destruct (dict_get "citation_normalized_percentile" wd) as [[| | | | | |d]|];
    cbn [py_items fst snd for_each sret dict_get]; intros Hnd Hpd; try exact Hpd.
  rewrite (store_percentiles_get d x Hnd). rewrite Hpd. now destruct (dict_get x d).
Qed.

Ltac skip_block_by side :=
  match goal with
  | |- context [dict_get ?t (try_except (parse_abstract ?w) ?pd)] =>
      rewrite (try_except_frame _ _ pd t (stores_only_parse_abstract w)) by side
  | |- context [dict_get ?t (try_except (parse_display_names ?w) ?pd)] =>
      rewrite (try_except_frame _ _ pd t (stores_only_parse_display_names w)) by side
  | |- context [dict_get ?t (try_except (parse_countries_codes ?w) ?pd)] =>
      rewrite (try_except_frame _ _ pd t (stores_only_parse_countries_codes w)) by side
  | |- context [dict_get ?t (try_except (parse_grants ?w) ?pd)] =>
      rewrite (try_except_frame _ _ pd t (stores_only_parse_grants w)) by side
  | |- context [dict_get ?t (try_except (parse_open_access ?w) ?pd)] =>
      rewrite (try_except_frame _ _ pd t (stores_only_parse_open_access w)) by side
  | |- context [dict_get ?t (try_except (parse_publication_date ?w) ?pd)] =>
      rewrite (try_except_frame _ _ pd t (stores_only_parse_publication_date w)) by side
  | |- context [dict_get ?t (try_except (parse_primary_location ?w) ?pd)] =>
      rewrite (try_except_frame _ _ pd t (stores_only_parse_primary_location w)) by side
  | |- context [dict_get ?t (try_except (parse_count_field ?w ?f) ?pd)] =>
      rewrite (try_except_frame _ _ pd t (stores_only_parse_count_field w f)) by side
  | |- context [dict_get ?t (try_except (parse_apc_paid ?w) ?pd)] =>
      rewrite (try_except_frame _ _ pd t (stores_only_parse_apc_paid w)) by side
  | |- context [dict_get ?t (try_except (parse_ids ?w) ?pd)] =>
      rewrite (try_except_frame _ _ pd t (stores_only_parse_ids w)) by side
  | |- context [dict_get ?t (try_except (parse_basic_field ?w ?f) ?pd)] =>
      rewrite (try_except_frame _ _ pd t (stores_only_parse_basic_field w f)) by side
  end.

Lemma parsed_fields_percentile (wd : list (string * value))
  (include_abstract : bool) (x : string) :
  NoDup (keys (percentile_items wd)) ->
  retained ("percentiles_" ++ x) = false ->
  dict_get ("percentiles_" ++ x) (parsed_fields (VDict wd) include_abstract)
  = dict_get x (percentile_items wd).
Proof.
  intros Hnd Hr.
  assert (Hdisplay : ~ exists p, retained p = true
                                 /\ ("percentiles_" ++ x)%string = replace_dots p).
  { intros [p [Hp Heq]]. rewrite Heq in Hr.
    rewrite (proj1 (retained_normalized p Hp)) in Hr. discriminate Hr. }
  unfold_blocks include_abstract;
    repeat skip_block_by
      ltac:(first [ exact Hdisplay
                  | intros [? Heq]; cbn in Heq; discriminate Heq
                  | intros [Heq|Heq]; cbn in Heq; discriminate Heq
                  | intros Heq; cbn in Heq; discriminate Heq ]);
    (apply parse_percentiles_get; [exact Hnd|]);
    repeat skip_block_by
      ltac:(first [ intros [Heq|Heq]; cbn in Heq; discriminate Heq
                  | intros Heq; cbn in Heq; discriminate Heq ]);
    reflexivity.
Qed.

(** X16.  For a record whose percentile keys hold no index group
    [\[digits\]], and a key that holds none and that no display-name
    field can be confused with: [parse_work] either raises a [TypeError]
    in its final merge or returns a mapping in which [percentiles_<key>]
    is the value of [key] in [citation_normalized_percentile]; the field
    is absent when the mapping has no such key, or when the record holds
    something other than a mapping there (null, say). *)
Theorem parse_work_percentiles (wd : list (string * value))
  (include_abstract : bool) (x : string) :
  NoDup (keys (percentile_items wd)) ->
  (forall k, In k (keys (percentile_items wd)) ->
             has_index ("percentiles_" ++ k) = false) ->
  has_index ("percentiles_" ++ x) = false ->
  retained ("percentiles_" ++ x) = false ->
  match parse_work (VDict wd) include_abstract with
  | Ok out => dict_get ("percentiles_" ++ x) out = dict_get x (percentile_items wd)
  | Raise e => e = TypeError
  end.
Proof.
  intros Hnd Hidx Hx Hr.
  destruct (parse_work (VDict wd) include_abstract) as [out|e] eqn:Hout;
    [|now apply parse_work_Raise in Hout].
  rewrite <- (parsed_fields_percentile wd include_abstract x Hnd Hr).
  destruct (parsed_fields_record_keys wd include_abstract) as [Hk Hnd'].
  apply merge_keeps; auto.
  intros k Hin Hst. destruct (Hk k Hin) as [k Hk'|x' Hx'|i|p Hp].
  - now rewrite (strip_index_free k (fixed_keys_index_free k Hk')) in Hst.
  - now rewrite (strip_index_free _ (Hidx x' Hx')) in Hst.
  - exfalso. cbn in Hst. discriminate Hst.
  - exfalso. rewrite <- Hst in Hr.
    rewrite (proj2 (retained_normalized p Hp)) in Hr. discriminate Hr.
Qed.

(** ** The grants *)

Lemma group_values_app (data data' : dict value) (K : string) :
  group_values (data ++ data') K = group_values data K ++ group_values data' K.
Proof. unfold group_values. now rewrite filter_app, map_app. Qed.

Lemma group_values_dict_set_other (k : string) (v : value) (pd : dict value)
  (K : string) :
  strip_indices k <> K -> group_values (dict_set k v pd) K = group_values pd K.
Proof.
  intros Hne. apply String.eqb_neq in Hne. unfold group_values.
  induction pd as [|[k' v'] pd IH]; cbn [dict_set filter fst map].
  - now rewrite Hne.
  - destruct (String.eqb k' k) eqn:E.
    + apply String.eqb_eq in E. subst k'. cbn [filter fst]. now rewrite Hne.
    + cbn [filter fst]. destruct (String.eqb (strip_indices k') K); cbn [map];
        now rewrite IH.
Qed.

Lemma group_values_fresh (pd : dict value) (K k : string) :
  group_values pd K = [] -> strip_indices k = K -> ~ In k (keys pd).
Proof.
  unfold group_values, keys. intros Hg Hk Hin.
  induction pd as [|[k' v'] pd IH]; [destruct Hin|].
  cbn [filter fst map] in *.
  destruct (String.eqb (strip_indices k') K) eqn:E; [discriminate Hg|].
  destruct Hin as [->|Hin]; [|now apply IH].
  subst K. now rewrite String.eqb_refl in E.
Qed.

Lemma keeps_group_sret {A : Type} (K : string) (a : A) : keeps_group K (sret a).
Proof. intros pd. reflexivity. Qed.

Lemma keeps_group_eval {A : Type} (K : string) (r : res A) : keeps_group K (eval r).
Proof. intros pd. reflexivity. Qed.

Lemma keeps_group_store (K k : string) (v : value) :
  strip_indices k <> K -> keeps_group K (store k v).
Proof. intros Hk pd. now apply group_values_dict_set_other. Qed.

Lemma keeps_group_sbind {A B : Type} (K : string)
  (m : stm (dict value) A) (k : A -> stm (dict value) B) :
  keeps_group K m -> (forall a, keeps_group K (k a)) -> keeps_group K (sbind m k).
Proof.
  intros Hm Hk pd. unfold sbind. specialize (Hm pd).
  destruct (m pd) as [[a|e] pd']; cbn [snd] in *; [|exact Hm].
  now rewrite (Hk a pd').
Qed.

Lemma keeps_group_for_each {A : Type} (K : string) (l : list A)
  (body : A -> stm (dict value) unit) :
  (forall x, In x l -> keeps_group K (body x)) -> keeps_group K (for_each l body).
Proof.
  induction l as [|x l IH]; intros Hb; cbn [for_each].
  - apply keeps_group_sret.
  - apply keeps_group_sbind; [apply Hb; now left|].
    intros _. apply IH. intros y Hy. apply Hb. now right.
Qed.

Lemma keeps_group_try_except (K : string) (block : stm (dict value) unit)
  (pd : dict value) :
  keeps_group K block -> group_values (try_except block pd) K = group_values pd K.
Proof. intros H. apply H. Qed.

Ltac keeps :=
  repeat first
    [ apply keeps_group_sret
    | apply keeps_group_eval
    | apply keeps_group_store
    | apply keeps_group_sbind; [|intros ?]
    | apply keeps_group_for_each; intros ? ? ].

Ltac other_name :=
  let H := fresh in intros H; cbn in H; discriminate H.

Lemma keeps_grants_parse_basic_field (w : value) (field : string) :
  In field basic_fields ->
  keeps_group "grants_funder_display_name" (parse_basic_field w field).
Proof.
  intros Hin. cbn in Hin. unfold parse_basic_field.
  repeat (destruct Hin as [<-|Hin];
          [cbn [String.eqb Ascii.eqb Bool.eqb]; keeps; other_name|]).
  destruct Hin.
Qed.

Lemma keeps_grants_parse_ids (w : value) :
  keeps_group "grants_funder_display_name" (parse_ids w).
Proof. unfold parse_ids. keeps; other_name. Qed.

Lemma keeps_grants_parse_apc_paid (w : value) :
  keeps_group "grants_funder_display_name" (parse_apc_paid w).
Proof.
  unfold parse_apc_paid. keeps.
  match goal with |- keeps_group _ (match ?v with _ => _ end) => destruct v end;
    keeps; other_name.
Qed.

Lemma keeps_grants_parse_count_field (w : value) (field : string) :
  In field count_fields ->
  keeps_group "grants_funder_display_name" (parse_count_field w field).
Proof.
  intros Hin. cbn in Hin. unfold parse_count_field.
  repeat (destruct Hin as [<-|Hin]; [keeps; other_name|]).
  destruct Hin.
Qed.

Lemma keeps_grants_parse_primary_location (w : value) :
  keeps_group "grants_funder_display_name" (parse_primary_location w).
Proof. unfold parse_primary_location. keeps; other_name. Qed.

Lemma keeps_grants_parse_publication_date (w : value) :
  keeps_group "grants_funder_display_name" (parse_publication_date w).
Proof.
  unfold parse_publication_date. keeps.
  match goal with |- keeps_group _ (if ?b then _ else _) => destruct b end;
    keeps; other_name.
Qed.

Lemma keeps_grants_parse_percentiles (w : value) :
  keeps_group "grants_funder_display_name" (parse_percentiles w).
Proof. unfold parse_percentiles. keeps. other_name. Qed.

Lemma keeps_grants_parse_open_access (w : value) :
  keeps_group "grants_funder_display_name" (parse_open_access w).
Proof. unfold parse_open_access. keeps; other_name. Qed.

Lemma keeps_grants_parse_countries_codes (w : value) :
  keeps_group "grants_funder_display_name" (parse_countries_codes w).
Proof. unfold parse_countries_codes. keeps; other_name. Qed.

Lemma keeps_grants_parse_display_names (w : value) :
  keeps_group "grants_funder_display_name" (parse_display_names w).
Proof.
  unfold parse_display_names. apply keeps_group_for_each. intros [p vs] Hin.
  keeps. cbn [fst]. intros Heq.
  assert (Hp : retained p = true).
  { apply (in_map fst) in Hin. change (In p (keys (cap_display_names
      (collect_display_names (find_display_names w "") [])))) in Hin.
    rewrite cap_display_names_keys in Hin.
    apply collect_display_names_keys in Hin. now destruct Hin as [[]|Hin]. }
  apply retained_normalized in Hp. destruct Hp as [_ Hp].
  unfold strip_indices in Heq. unfold strip_indices in Hp.
  rewrite Heq in Hp. discriminate Hp.
Qed.

Lemma keeps_grants_parse_abstract (w : value) :
  keeps_group "grants_funder_display_name" (parse_abstract w).
Proof.
  unfold parse_abstract. keeps.
  match goal with |- keeps_group _ (match ?v with _ => _ end) => destruct v end;
    keeps; other_name.
Qed.

Lemma grant_key_normalizes (i : nat) :
  strip_indices (grant_key i) = "grants_funder_display_name"
  /\ has_index (grant_key i) = true.
Proof.
  unfold strip_indices, grant_key. split.
  - cbn. fold (strip_from 0).
    apply (f_equal (fun s => ("grants" ++ s)%string)).
    apply (strip_from_group (str_of_nat i) "_funder_display_name"
             (str_of_nat_digits i) (str_of_nat_nonempty i)).
  - cbn [append]. do 6 apply has_index_cons.
    apply (has_index_group (str_of_nat i) "_funder_display_name"
             (str_of_nat_digits i) (str_of_nat_nonempty i)).
Qed.

Lemma grant_key_inj (i j : nat) : grant_key i = grant_key j -> i = j.
Proof.
  unfold grant_key. intros H. cbn [append] in H.
  repeat match type of H with String _ _ = String _ _ => injection H as H end.
  apply str_of_nat_inj.
  apply (digits_bracket_inj _ _ "_funder_display_name" "_funder_display_name");
    auto using str_of_nat_digits.
Qed.

Lemma stored_grants_funders (grants : list value) :
  forall i, group_values (stored_grants i grants) "grants_funder_display_name"
            = stored_funders grants.
Proof.
  induction grants as [|g grants IH]; intros i; [reflexivity|].
  destruct g; try reflexivity.
  cbn [stored_grants stored_funders]. unfold group_values. cbn [filter fst].
  rewrite (proj1 (grant_key_normalizes i)). cbn [String.eqb Ascii.eqb Bool.eqb map snd].
  f_equal. apply IH.
Qed.

(** The loop of the grants block: it appends one field per grant, and
    stops at the first grant that is not a mapping. *)
Lemma store_grants_state (grants : list value) :
  forall i pd,
    (forall j, (i <= j)%nat -> ~ In (grant_key j) (keys pd)) ->
    snd (for_each (combine (seq i (List.length grants)) grants)
           (fun ig => v <~ eval (py_get (snd ig) "funder_display_name" VNone) ;;
                      store (grant_key (fst ig)) v) pd)
    = pd ++ stored_grants i grants.
Proof.
  induction grants as [|g grants IH]; intros i pd Hfresh.
  - simpl. now rewrite app_nil_r.
  - cbn [List.length seq combine for_each]. unfold sbind at 1.
    unfold sbind at 1. unfold eval at 1. cbn [fst snd].
    destruct g as [| | | | | |d]; cbn [py_get stored_grants];
      try (cbn [snd]; now rewrite app_nil_r).
    unfold store at 1. cbn [snd].
    rewrite dict_set_fresh by (apply Hfresh; lia).
    rewrite IH.
    + unfold get_or. now rewrite <- app_assoc.
    + intros j Hj. rewrite keys_app, in_app_iff. intros [Hin|[Heq|[]]].
      * apply (Hfresh j); [lia | exact Hin].
      * cbn [fst] in Heq. apply grant_key_inj in Heq. lia.
Qed.

Lemma parse_grants_group (wd : list (string * value)) (pd : dict value) :
  group_values pd "grants_funder_display_name" = [] ->
  group_values (try_except (parse_grants (VDict wd)) pd) "grants_funder_display_name"
  = stored_funders (grant_items wd).
Proof.
  intros Hpd. unfold try_except, parse_grants, grant_items, get_or, sbind, eval.
  cbn [py_get].
  destruct (py_iter _) as [grants|e]; cbn [snd stored_funders]; [|exact Hpd].
  unfold enumerate. rewrite store_grants_state.
  - now rewrite group_values_app, Hpd, stored_grants_funders.
  - intros j _. apply (group_values_fresh pd _ _ Hpd).
    apply grant_key_normalizes.
Qed.

Ltac keeps_block :=
  match goal with
  | |- context [group_values (try_except (parse_abstract ?w) ?pd) _] =>
      rewrite (keeps_group_try_except _ _ pd (keeps_grants_parse_abstract w))
  | |- context [group_values (try_except (parse_display_names ?w) ?pd) _] =>
      rewrite (keeps_group_try_except _ _ pd (keeps_grants_parse_display_names w))
  | |- context [group_values (try_except (parse_countries_codes ?w) ?pd) _] =>
      rewrite (keeps_group_try_except _ _ pd (keeps_grants_parse_countries_codes w))
  | |- context [group_values (try_except (parse_open_access ?w) ?pd) _] =>
      rewrite (keeps_group_try_except _ _ pd (keeps_grants_parse_open_access w))
  | |- context [group_values (try_except (parse_percentiles ?w) ?pd) _] =>
      rewrite (keeps_group_try_except _ _ pd (keeps_grants_parse_percentiles w))
  | |- context [group_values (try_except (parse_publication_date ?w) ?pd) _] =>
      rewrite (keeps_group_try_except _ _ pd (keeps_grants_parse_publication_date w))
  | |- context [group_values (try_except (parse_primary_location ?w) ?pd) _] =>
      rewrite (keeps_group_try_except _ _ pd (keeps_grants_parse_primary_location w))
  | |- context [group_values (try_except (parse_count_field ?w ?f) ?pd) _] =>
      rewrite (keeps_group_try_except _ _ pd
                 (keeps_grants_parse_count_field w f ltac:(cbn; tauto)))
  | |- context [group_values (try_except (parse_apc_paid ?w) ?pd) _] =>
      rewrite (keeps_group_try_except _ _ pd (keeps_grants_parse_apc_paid w))
  | |- context [group_values (try_except (parse_ids ?w) ?pd) _] =>
      rewrite (keeps_group_try_except _ _ pd (keeps_grants_parse_ids w))
  | |- context [group_values (try_except (parse_basic_field ?w ?f) ?pd) _] =>
      rewrite (keeps_group_try_except _ _ pd
                 (keeps_grants_parse_basic_field w f ltac:(cbn; tauto)))
  end.

Lemma parsed_fields_grants (wd : list (string * value)) (include_abstract : bool) :
  group_values (parsed_fields (VDict wd) include_abstract) "grants_funder_display_name"
  = stored_funders (grant_items wd).
Proof.
  unfold_blocks include_abstract; repeat keeps_block;
    apply parse_grants_group; repeat keeps_block; reflexivity.
Qed.

Lemma group_values_In (data : dict value) (K k : string) :
  In k (keys data) -> strip_indices k = K -> group_values data K <> [].
Proof.
  intros Hin Hk Hg. now apply (group_values_fresh data K k Hg Hk).
Qed.

(** X17.  [parse_work] either raises a [TypeError] in its final merge or
    returns a mapping in which [grants_funder_display_name] merges the
    funder names of the grants of the record, taken up to the first grant
    that is not a mapping ([None] standing for a grant without a name):
    their one distinct value as it is, or, when there are several, which
    must then all be strings, these strings sorted and joined by pipes,
    each once.  Without such a grant the key is absent. *)
Theorem parse_work_grants (wd : list (string * value)) (include_abstract : bool) :
  match parse_work (VDict wd) include_abstract with
  | Ok out =>
      match stored_funders (grant_items wd) with
      | [] => dict_get "grants_funder_display_name" out = None
      | funders =>
          exists x, dict_get "grants_funder_display_name" out = Some x
                    /\ merged_of (distinct funders) x
      end
  | Raise e => e = TypeError
  end.
Proof.
  destruct (parse_work (VDict wd) include_abstract) as [out|e] eqn:Hout;
    [|now apply parse_work_Raise in Hout].
  destruct (merge_and_deduplicate_char _ out Hout) as [_ [Hkeys [Hgroup _]]].
  pose proof (parsed_fields_grants wd include_abstract) as Hg.
  destruct (stored_funders (grant_items wd)) as [|f funders] eqn:Hf.
  - apply dict_get_None. intros Hin. apply Hkeys in Hin.
    destruct Hin as [k [Hk Hst]].
    now apply (group_values_In _ _ k Hk Hst).
  - rewrite <- Hg. apply Hgroup; [|rewrite Hg; discriminate].
    intros [k v] Hin Hst. cbn [fst] in *.
    destruct (parsed_fields_keys (VDict wd) include_abstract) as [Hfk _].
    apply (in_map fst) in Hin. cbn [fst] in Hin.
    destruct (Hfk k Hin) as [k Hk|x|i|p Hp].
    + exfalso. rewrite (strip_index_free k (fixed_keys_index_free k Hk)) in Hst.
      subst k. vm_compute in Hk.
      repeat (destruct Hk as [Hk|Hk]; [discriminate Hk|]). destruct Hk.
    + exfalso. cbn in Hst. discriminate Hst.
    + apply grant_key_normalizes.
    + exfalso. apply retained_normalized in Hp. destruct Hp as [_ Hp].
      rewrite Hst in Hp. discriminate Hp.
Qed.

(** ** The parameters of a request *)

(** X18.  The parameters that [_build_params] returns are [mailto], set
    to the email of the client (also when that is [None]), updated with
    the keyword arguments whose value is not [None]: such an argument is
    in the result with its value, [mailto] included, and an argument whose
    value is [None] is left out. *)
Theorem build_params_get (self : OpenAlexClient) (kwargs : dict value)
  (k : string) :
  NoDup (keys kwargs) ->
  dict_get k (_build_params self kwargs)
  = match dict_get k kwargs with
    | Some v => if is_none v then dict_get k [("mailto", email self)] else Some v
    | None => dict_get k [("mailto", email self)]
    end.
Proof. intros Hnd. unfold _build_params. now apply fold_params_get. Qed.

(** ** list_resources *)

Lemma list_resources_request (self : OpenAlexClient) (api_endpoint : string)
  (digest abstract : bool) (kwargs : dict value) (log : list request) :
  list_resources self api_endpoint digest abstract kwargs log
  = (fst (list_resources self api_endpoint digest abstract kwargs []),
     log ++ [list_request self api_endpoint kwargs]).
Proof.
  unfold list_resources, list_request, endpoint_url, sbind, get_json.
  cbn [app].
  destruct (transport self _ _) as [data|e]; [|reflexivity].
  destruct (digest && String.eqb api_endpoint WORKS); unfold eval, sret;
    repeat match goal with
      | |- context [match ?r with Ok _ => _ | Raise _ => _ end] => destruct r
      end; reflexivity.
Qed.

Lemma NoDup_keys_default (kwargs : dict value) (v : value) :
  NoDup (keys kwargs) ->
  NoDup (keys match dict_get "per_page" kwargs with
              | Some _ => kwargs
              | None => dict_set "per_page" v kwargs
              end).
Proof.
  intros Hnd. destruct (dict_get "per_page" kwargs); [exact Hnd|].
  now apply NoDup_keys_dict_set.
Qed.

(** X19.  [list_resources] sends one request, to the URL of the endpoint,
    whatever the answer is.  Its [per_page] parameter is the page size of
    the caller, or the default page size of the client when the caller
    gives none; a caller that passes [per_page=None] gets a request
    without [per_page], because the key is present, so that the default is
    not put in, and [_build_params] then drops it. *)
Theorem list_resources_per_page (self : OpenAlexClient) (api_endpoint : string)
  (digest abstract : bool) (kwargs : dict value) (log : list request) :
  NoDup (keys kwargs) ->
  exists params,
    snd (list_resources self api_endpoint digest abstract kwargs log)
    = log ++ [(endpoint_url self api_endpoint, params)]
    /\ dict_get "per_page" params
       = match dict_get "per_page" kwargs with
         | Some v => if is_none v then None else Some v
         | None => Some (VInt (default_per_page self))
         end.
Proof.
  intros Hnd. rewrite list_resources_request. cbn [snd].
  unfold list_request. eexists. split; [reflexivity|].
  unfold _build_params.
  rewrite fold_params_get by now apply NoDup_keys_default.
  destruct (dict_get "per_page" kwargs) as [v|] eqn:Hpp.
  - rewrite Hpp. reflexivity.
  - rewrite dict_get_set_same. reflexivity.
Qed.

Lemma digest_all_Raise (works : list value) (abstract : bool) (work : value)
  (e : exn) :
  In work works -> parse_work work abstract = Raise e ->
  digest_all works abstract = Raise TypeError.
Proof.
  intros Hin Hraise. induction works as [|w works IH]; [destruct Hin|].
  cbn [digest_all].
  destruct (parse_work w abstract) as [d|e'] eqn:Hw; cbn [bind].
  - destruct Hin as [->|Hin]; [congruence|]. now rewrite (IH Hin).
  - now apply parse_work_Raise in Hw as ->.
Qed.

(** X20.  When a page of works is digested and [parse_work] raises on one
    of its records, [list_resources] raises [TypeError]: the records of
    the page that were digested before are not returned. *)
Theorem list_resources_bad_record (self : OpenAlexClient) (abstract : bool)
  (kwargs : dict value) (log : list request) (data : list (string * value))
  (works : list value) (work : value) (e : exn) :
  transport self (fst (list_request self WORKS kwargs))
    (snd (list_request self WORKS kwargs)) = Ok (VDict data) ->
  dict_get "results" data = Some (VList works) ->
  In work works -> parse_work work abstract = Raise e ->
  fst (list_resources self WORKS true abstract kwargs log) = Raise TypeError.
Proof.
  intros Ht Hres Hin Hraise. unfold list_resources, sbind, get_json.
  unfold list_request, endpoint_url in Ht. cbn [fst snd] in Ht. rewrite Ht.
  cbn [andb String.eqb Ascii.eqb Bool.eqb WORKS]. unfold eval. cbn [py_get].
  rewrite Hres. cbn [py_iter].
  now rewrite (digest_all_Raise works abstract work e Hin Hraise).
Qed.

(** ** get_total_count *)

(** X21.  [get_total_count] sends one request, to the URL of the endpoint,
    with [per_page] set to 1 whatever page size the caller passed, and it
    never raises [OpenAlexClientError]: a request that fails with it gives
    the count 0. *)
Theorem get_total_count_request (self : OpenAlexClient) (api_endpoint : string)
  (kwargs : dict value) (log : list request) :
  NoDup (keys kwargs) ->
  (exists params,
     snd (get_total_count self api_endpoint kwargs log)
     = log ++ [(endpoint_url self api_endpoint, params)]
     /\ dict_get "per_page" params = Some (VInt 1))
  /\ match transport self (fst (count_request self api_endpoint kwargs))
             (snd (count_request self api_endpoint kwargs)) with
     | Raise OpenAlexClientError =>
         fst (get_total_count self api_endpoint kwargs log) = Ok (VInt 0)
     | _ =>
         fst (get_total_count self api_endpoint kwargs log)
         <> Raise OpenAlexClientError
     end.
Proof.
  intros Hnd. split.
  - rewrite get_total_count_log. cbn [snd]. unfold count_request.
    eexists. split; [reflexivity|].
    unfold _build_params.
    rewrite fold_params_get by now apply NoDup_keys_dict_set.
    now rewrite dict_get_set_same.
  - unfold count_request, endpoint_url. cbn [fst snd].
    unfold get_total_count, sbind, get_json, eval.
    destruct (transport self _ _) as [data|e].
    + cbn [py_get]. destruct data; cbn; try discriminate.
      match goal with |- context [match ?x with Some _ => _ | None => _ end] =>
        destruct x as [[]|] end; cbn; discriminate.
    + destruct e; cbn; first [reflexivity | discriminate].
Qed.

(** ** list_all_resources *)

(** X22.  When the count request fails with [OpenAlexClientError],
    [list_all_resources] returns the empty list after that one request: no
    page is requested, and the caller cannot tell the failure from an
    empty result. *)
Theorem list_all_resources_failed_count (self : OpenAlexClient)
  (api_endpoint : string) (digest abstract : bool) (per_page : option Z)
  (kwargs : dict value) (log : list request) :
  let kw := dict_pop "page" kwargs in
  transport self (fst (count_request self api_endpoint kw))
    (snd (count_request self api_endpoint kw)) = Raise OpenAlexClientError ->
  list_all_resources self api_endpoint digest abstract per_page kwargs log
  = (Ok [], log ++ [count_request self api_endpoint kw]).
Proof.
  intros kw Ht. unfold list_all_resources. fold kw. unfold sbind at 1.
  rewrite get_total_count_log.
  assert (Hcount : fst (get_total_count self api_endpoint kw []) = Ok (VInt 0)).
  { unfold count_request, endpoint_url in Ht. cbn [fst snd] in Ht.
    unfold get_total_count, sbind, get_json, eval. now rewrite Ht. }
  rewrite Hcount. reflexivity.
Qed.

(** X23.  With a page size of 0 and a count that is not 0,
    [list_all_resources] raises [ZeroDivisionError] after the count
    request, before any page is requested. *)
Theorem list_all_resources_zero_page_size (self : OpenAlexClient)
  (api_endpoint : string) (digest abstract : bool) (per_page : option Z)
  (kwargs : dict value) (log : list request) (total : Z) :
  let kw := dict_pop "page" kwargs in
  match per_page with Some n => n | None => default_per_page self end = 0%Z ->
  fst (get_total_count self api_endpoint kw []) = Ok (VInt total) ->
  total <> 0%Z ->
  list_all_resources self api_endpoint digest abstract per_page kwargs log
  = (Raise ZeroDivisionError, log ++ [count_request self api_endpoint kw]).
Proof.
  intros kw Hp Hcount Htotal. unfold list_all_resources. fold kw.
  rewrite Hp. unfold sbind at 1. rewrite get_total_count_log, Hcount.
  assert (Hz : py_eq (VInt total) (VInt 0) = false).
  { cbn [py_eq]. now apply Z.eqb_neq. }
  rewrite Hz. reflexivity.
Qed.

Lemma get_total_count_not_client_error (self : OpenAlexClient)
  (api_endpoint : string) (kwargs : dict value) (log : list request) :
  fst (get_total_count self api_endpoint kwargs log) <> Raise OpenAlexClientError.
Proof.
  unfold get_total_count, sbind, get_json, eval.
  destruct (transport self _ _) as [data|e].
  - cbn [py_get]. destruct data; cbn; try discriminate.
    match goal with |- context [match ?x with Some _ => _ | None => _ end] =>
      destruct x as [[]|] end; cbn; discriminate.
  - destruct e; cbn; discriminate.
Qed.

Lemma py_iter_Raise (obj : value) (e : exn) : py_iter obj = Raise e -> e = TypeError.
Proof. destruct obj; simpl; congruence. Qed.

(** The loop over the pages, whatever the pages answer: it requests the
    pages in order, up to the one it stops at, and never raises
    [OpenAlexClientError]. *)
Lemma fetch_pages_requests (self : OpenAlexClient) (api_endpoint : string)
  (digest abstract : bool) (per_page : Z) (kwargs : dict value) (n : nat) :
  forall first all_records log,
    exists j,
      (j <= n)%nat
      /\ snd (fetch_pages self api_endpoint digest abstract per_page kwargs
                (map Z.of_nat (seq first n)) all_records log)
         = log ++ map (page_request self api_endpoint per_page kwargs)
                    (map Z.of_nat (seq first j))
      /\ fst (fetch_pages self api_endpoint digest abstract per_page kwargs
                (map Z.of_nat (seq first n)) all_records log)
         <> Raise OpenAlexClientError.
Proof.
  induction n as [|n IH]; intros first all_records log.
  - exists 0%nat. cbn. rewrite app_nil_r. repeat split; [lia | discriminate].
  - cbn [seq map fetch_pages]. rewrite list_resources_log.
    destruct (fst (list_resources self api_endpoint digest abstract
                     (page_kwargs (Z.of_nat first) per_page kwargs) []))
      as [response|e].
    + destruct (truthy response).
      * destruct (py_iter response) as [records|e] eqn:Hiter.
        -- destruct (IH (S first) (all_records ++ records)
                       (log ++ [page_request self api_endpoint per_page kwargs
                                  (Z.of_nat first)]))
             as [j [Hj [Hlog Hres]]].
           exists (S j). split; [lia|]. split; [|exact Hres].
           rewrite Hlog. cbn [seq map]. now rewrite <- app_assoc.
        -- exists 1%nat. split; [lia|]. split; [reflexivity|].
           apply py_iter_Raise in Hiter. subst e. discriminate.
      * exists 1%nat. split; [lia|]. split; [reflexivity | discriminate].
    + exists 1%nat. split; [lia|].
      destruct e; (split; [reflexivity | discriminate]).
Qed.

(** X24.  Whatever the server answers, [list_all_resources] never raises
    [OpenAlexClientError], and the requests it sends are the count
    request, which names no page, followed by the requests of the pages 1
    to [j], in this order, for some [j], the request of a page naming that
    page: no page is skipped or requested twice, and a page that the
    caller passes is not requested. *)
Theorem list_all_resources_requests (self : OpenAlexClient)
  (api_endpoint : string) (digest abstract : bool) (per_page : option Z)
  (kwargs : dict value) (log : list request) :
  let p := match per_page with Some n => n | None => default_per_page self end in
  let kw := dict_pop "page" kwargs in
  let count := count_request self api_endpoint kw in
  let request page := page_request self api_endpoint p kw page in
  NoDup (keys kwargs) ->
  fst (list_all_resources self api_endpoint digest abstract per_page kwargs log)
  <> Raise OpenAlexClientError
  /\ (exists j,
        snd (list_all_resources self api_endpoint digest abstract per_page kwargs log)
        = log ++ count :: map request (pages_upto j))
  /\ dict_get "page" (snd count) = None
  /\ (forall page, dict_get "page" (snd (request page)) = Some (VInt page)).
Proof.
  intros p kw count request Hnd.
  assert (Hpage : ~ In "page" (keys kw)) by now apply dict_pop_absent.
  assert (Hparams : dict_get "page" (snd count) = None
                    /\ forall page,
                         dict_get "page" (snd (request page)) = Some (VInt page)).
  { split.
    - apply count_request_params; [now apply NoDup_dict_pop | exact Hpage].
    - intros page. unfold request, page_request, _build_params, page_kwargs.
      cbn [snd fold_left fst is_none]. now rewrite fold_params_fresh. }
  destruct Hparams as [Hc Hr].
  assert (Hrun : fst (list_all_resources self api_endpoint digest abstract
                        per_page kwargs log) <> Raise OpenAlexClientError
                 /\ exists j,
                      snd (list_all_resources self api_endpoint digest abstract
                             per_page kwargs log)
                      = log ++ count :: map request (pages_upto j));
    [|destruct Hrun as [H1 H2]; auto].
  unfold count, request.
  unfold list_all_resources. fold p kw. unfold sbind at 1 3.
  rewrite get_total_count_log.
  pose proof (get_total_count_not_client_error self api_endpoint kw []) as Hcount.
  destruct (fst (get_total_count self api_endpoint kw [])) as [total_count|e].
  - destruct (py_eq total_count (VInt 0)).
    + split; [discriminate|]. exists 0%nat. reflexivity.
    + unfold sbind, eval.
      destruct (total_pages_of total_count p) as [total_pages|e] eqn:Hpages.
      * unfold page_range.
        destruct (fetch_pages_requests self api_endpoint digest abstract p kw
                    (Z.to_nat total_pages) 1 []
                    (log ++ [count_request self api_endpoint kw]))
          as [j [_ [Hlog Hres]]].
        split; [exact Hres|]. exists j. rewrite Hlog.
        unfold pages_upto. now rewrite <- app_assoc.
      * split.
        -- unfold total_pages_of in Hpages.
           destruct total_count; try (injection Hpages as <-; discriminate);
             destruct (p =? 0)%Z; try discriminate Hpages;
             injection Hpages as <-; discriminate.
        -- exists 0%nat. reflexivity.
  - split; [cbn [fst]; congruence|]. exists 0%nat. reflexivity.
Qed.

(** ** get_resource *)

(** X25.  [get_resource] sends one request, to the URL of the resource,
    with [mailto] as its only parameter.  It catches nothing: an error of
    the request is passed on as it is.  On an answer it returns the answer
    as it is, unless a digest is asked for on the works endpoint: then it
    returns what [parse_work] returns on the answer, and raises the
    [TypeError] that [parse_work] raises. *)
Theorem get_resource_outcome (self : OpenAlexClient)
  (api_endpoint resource_id : string) (digest abstract : bool)
  (log : list request) :
  let request := resource_request self api_endpoint resource_id in
  let outcome :=
    fst (get_resource self api_endpoint resource_id digest abstract log) in
  snd (get_resource self api_endpoint resource_id digest abstract log)
  = log ++ [request]
  /\ match transport self (fst request) (snd request) with
     | Raise e => outcome = Raise e
     | Ok data =>
         if digest && String.eqb api_endpoint WORKS then
           match parse_work data abstract with
           | Ok parsed => outcome = Ok (VDict parsed)
           | Raise _ => outcome = Raise TypeError
           end
         else outcome = Ok data
     end.
Proof.
  intros request outcome.
  unfold outcome, request, resource_request, get_resource, sbind, get_json.
  cbn [fst snd _build_params fold_left].
  destruct (transport self _ _) as [data|e]; [|split; reflexivity].
  destruct (digest && String.eqb api_endpoint WORKS) eqn:E.
  - unfold eval, sret.
    destruct (parse_work data abstract) as [d|e] eqn:Hd; cbn [fst snd].
    + split; reflexivity.
    + apply parse_work_Raise in Hd. subst e. split; reflexivity.
  - unfold sret. cbn [fst snd]. split; reflexivity.
Qed.

(** ** The keys of the output *)

Lemma prefix_append (a s : string) : prefix a (a ++ s) = true.
Proof.
  induction a as [|c a IH]; [now destruct s|].
  cbn [append]. apply prefix_cons. auto.
Qed.

(** X26.  Every key of a mapping that [parse_work] returns is one of the
    22 keys that the function writes by name, a key that starts with
    [percentiles_], the key [grants_funder_display_name], or a key that
    names one of the four display-name families and contains
    [display_name]: nothing else of the record gets into the output. *)
Theorem parse_work_keys (w : value) (include_abstract : bool)
  (out : dict value) (k : string) :
  parse_work w include_abstract = Ok out -> In k (keys out) ->
  In k fixed_keys \/ prefix "percentiles_" k = true
  \/ k = "grants_funder_display_name" \/ retained k = true.
Proof.
  intros Hout Hin.
  destruct (merge_and_deduplicate_char _ out Hout) as [_ [Hkeys _]].
  apply Hkeys in Hin. destruct Hin as [k0 [Hk0 <-]].
  destruct (parsed_fields_keys w include_abstract) as [Hfk _].
  destruct (Hfk k0 Hk0) as [k Hk|x|i|p Hp].
  - left. now rewrite strip_index_free by now apply fixed_keys_index_free.
  - right. left. apply prefix_strip; [reflexivity | apply prefix_append].
  - right. right. left. apply grant_key_normalizes.
  - right. right. right. now apply retained_normalized.
Qed.

(** ** Dates without zero padding *)

Lemma parse_month_unpadded (month : nat) (rest : string) :
  (1 <= month <= 12)%nat ->
  parse_month (str_of_nat month ++ String "-" rest) = Some (month, String "-" rest).
Proof.
  intros Hm.
  do 13 (destruct month as [|month]; [first [lia | reflexivity]|]). lia.
Qed.

Lemma parse_day_unpadded (day : nat) :
  (1 <= day <= 31)%nat -> parse_day (str_of_nat day) = Some (day, "").
Proof.
  intros Hd.
  do 32 (destruct day as [|day]; [first [lia | reflexivity]|]). lia.
Qed.

(** X27.  [convert_publication_date] also accepts a date whose month and
    day are written without a leading zero, and returns the same
    zero-padded timestamp as for the padded spelling: [2021-3-5] gives
    [2021-03-05T00:00:00Z]. *)
Theorem convert_publication_date_unpadded (year month day : nat) :
  valid_date year month day ->
  convert_publication_date (VStr (unpadded_date_string year month day))
  = Ok (VStr (date_string year month day ++ "T00:00:00Z")).
Proof.
  intros [Hy [Hm Hd]].
  unfold convert_publication_date, strptime_ymd, unpadded_date_string.
  rewrite parse_year_pad4 by lia. cbn [append].
  rewrite expect_dash_dash, parse_month_unpadded by lia.
  pose proof (days_in_month_le year month) as Hle.
  rewrite expect_dash_dash, parse_day_unpadded by lia.
  cbn [String.eqb negb].
  destruct (year =? 0)%nat eqn:E0; [apply Nat.eqb_eq in E0; lia|].
  destruct (days_in_month year month <? day)%nat eqn:E1;
    [apply Nat.ltb_lt in E1; lia|].
  reflexivity.
Qed.

(** ** The abstract in the output *)

Lemma parsed_fields_with_abstract (w : value) :
  parsed_fields w true
  = match stored_abstract w with
    | Some s => parsed_fields w false ++ [("abstract", VStr s)]
    | None => parsed_fields w false
    end.
Proof.
  assert (Hsplit : parsed_fields w true
                   = try_except (parse_abstract w) (parsed_fields w false)).
  { unfold parsed_fields, blocks. rewrite !app_assoc, app_nil_r.
    rewrite fold_left_app. reflexivity. }
  rewrite Hsplit. unfold try_except, parse_abstract, stored_abstract, sbind, eval.
  destruct (py_get w "abstract_inverted_index" VNone) as [v|e] eqn:Hget;
    [|reflexivity].
  destruct (extract_abstract_of v) as [s|]; [|reflexivity].
  unfold store. cbn [snd]. apply dict_set_fresh.
  destruct w as [| | | | | |wd]; try discriminate Hget.
  apply dict_get_None. apply (parsed_fields_abstract wd false).
Qed.

Lemma merge_and_deduplicate_append (data : dict value) (t : string) (s : string) :
  has_index t = false ->
  (forall k, In k (keys data) -> strip_indices k <> t) ->
  merge_and_deduplicate (data ++ [(t, VStr s)])
  = (out <- merge_and_deduplicate data ;; Ok (out ++ [(t, VStr s)])).
Proof.
  intros Ht Hfresh. unfold merge_and_deduplicate. rewrite merge_loop_app.
  destruct (merge_loop data []) as [md|e] eqn:Hloop; cbn [bind]; [|reflexivity].
  cbn [merge_loop]. rewrite Ht. unfold set_add. cbn [hashable existsb app bind].
  rewrite dict_set_fresh.
  - rewrite merge_finish_app. cbn [merge_finish]. unfold merged_value.
    cbn [List.length Nat.ltb Nat.leb bind].
    destruct (merge_finish md); reflexivity.
  - intros Hin. apply (merge_loop_keys data [] md Hloop) in Hin.
    destruct Hin as [[]|[k [Hk Hst]]]. now apply (Hfresh k).
Qed.

(** X28.  Asking for the abstract only adds one field at the end of the
    output: [parse_work] with [include_abstract] returns what it returns
    without it, followed by [abstract] when [extract_abstract] returns a
    text; it raises exactly when it raises without [include_abstract], and
    returns the same mapping when [extract_abstract] raises. *)
Theorem parse_work_include_abstract (w : value) :
  parse_work w true
  = match stored_abstract w with
    | Some s => out <- parse_work w false ;; Ok (out ++ [("abstract", VStr s)])
    | None => parse_work w false
    end.
Proof.
  unfold parse_work. rewrite parsed_fields_with_abstract.
  destruct (stored_abstract w) as [s|] eqn:Hs; [|reflexivity].
  apply merge_and_deduplicate_append; [reflexivity|].
  intros k Hin Hst.
  destruct (parsed_fields_keys w false) as [Hfk _].
  assert (Hk : k = "abstract").
  { apply field_key_normalizes_fixed; [vm_compute; tauto | now apply Hfk | exact Hst]. }
  subst k. revert Hin. apply dict_get_None.
  destruct w as [| | | | | |wd]; try discriminate Hs.
  apply (parsed_fields_abstract wd false).
Qed.


End OpenAlex.

Arguments VNone {F}.
Arguments VBool {F} b.
Arguments VInt {F} z.
Arguments VFloat {F} f.
Arguments VStr {F} s.
Arguments VList {F} l.
Arguments VDict {F} d.

(** * Concrete records

    The statements below are closed: floats are instantiated by the
    integers, which is enough for records whose numbers are integral. *)

(** Two indexed keys with different values are merged. *)
Lemma merge_and_deduplicate_merges_witness :
  exists out,
    merge_and_deduplicate Z Z.eqb Z.eqb
      [("a[0]_suffix", VStr "Y"); ("a[1]_suffix", VStr "X")] = Ok out
    /\ exists x, dict_get "a_suffix" out = Some x
                 /\ merged_of Z [VStr "Y"; VStr "X"] x.
Proof.
  pose (data := [("a[0]_suffix", VStr "Y"); ("a[1]_suffix", VStr "X")]
                : dict (value Z)).
  destruct (merge_and_deduplicate_merges Z Z.eqb Z.eqb data) as [Htot Hchar].
  destruct Htot as [out Hout]; [repeat constructor|].
  exists out. split; [exact Hout|].
  destruct (Hchar out Hout) as [_ [_ [Hidx _]]].
  apply (Hidx "a_suffix").
  - intros kv [<-|[<-|[]]] _; reflexivity.
  - discriminate.
Defined.

(** The merge as the specification states it fails on an index-free key
    that comes after an indexed key of the same name. *)
Lemma merge_claim_counterexample :
  ~ merge_claim Z Z.eqb Z.eqb [("a[0]", VStr "x"); ("a", VStr "y")].
Proof.
  intros [out [Hout [_ [_ Hm]]]].
  vm_compute in Hout. injection Hout as <-.
  specialize (Hm "a"). vm_compute in Hm.
  destruct Hm as [ss [Hss Hget]]. injection Hss as <-. discriminate.
Qed.

(** C5.  The merge depends on the order of the raw keys.  The branch for
    an indexed key adds its value to the set of its name; the branch for an
    index-free key assigns a new set.  An index-free key that comes after
    an indexed key of the same name so replaces what was collected, and
    the value of the indexed key is lost; in the other order the two
    values are merged. *)
Theorem merge_and_deduplicate_order_dependent :
  merge_and_deduplicate Z Z.eqb Z.eqb [("a[0]", VStr "x"); ("a", VStr "y")]
  = Ok [("a", VStr "y")]
  /\ merge_and_deduplicate Z Z.eqb Z.eqb [("a", VStr "y"); ("a[0]", VStr "x")]
     = Ok [("a", VStr "x|y")].
Proof. split; reflexivity. Qed.

(** The same through [parse_work]: the name of the author is lost when
    the record also has a field of the flat name. *)
Example parse_work_drops_indexed_name :
  match parse_work Z Z.eqb Z.eqb
          (VDict [("authorships",
                   VList [VDict [("author", VDict [("display_name", VStr "X")])]]);
                  ("authorships_author_display_name", VStr "Y")]) false with
  | Ok out => dict_get "authorships_author_display_name" out = Some (VStr "Y")
  | Raise _ => False
  end.
Proof. vm_compute. reflexivity. Qed.

(** The normalized key of a raw key with nested brackets still carries an
    index group. *)
Example merge_and_deduplicate_nested_brackets :
  merge_and_deduplicate Z Z.eqb Z.eqb [("a[[0]1]", VStr "x")]
  = Ok [("a[1]", VStr "x")]
  /\ has_index "a[1]" = true.
Proof. split; reflexivity. Qed.

(** C1: the final merge of [parse_work] is outside every [try] block.  Two
    grants, one with a funder name and one whose funder name is null, make
    it raise: the set of the two values cannot be sorted. *)
Theorem parse_work_final_merge_raises :
  parse_work Z Z.eqb Z.eqb (grants_record Z [VStr "NSF"; VNone]) false
  = Raise TypeError.
Proof. reflexivity. Qed.

(** The same happens on one field whose value is a list. *)
Example parse_work_unhashable_title :
  parse_work Z Z.eqb Z.eqb (VDict [("title", VList [VStr "a"])]) false
  = Raise TypeError.
Proof. reflexivity. Qed.

(** C3: fifteen authors.  Every display name has a path of its own,
    [authorships[i].author.display_name], so no path collects more than
    one value and the cut at ten never applies; the final merge then joins
    the fifteen names, sorted. *)
Theorem parse_work_fifteen_authors :
  match parse_work Z Z.eqb Z.eqb
          (authors_record Z
             ["A15"; "A14"; "A13"; "A12"; "A11"; "A10"; "A09"; "A08";
              "A07"; "A06"; "A05"; "A04"; "A03"; "A02"; "A01"]) false with
  | Ok out =>
      dict_get "authorships_author_display_name" out
      = Some (VStr "A01|A02|A03|A04|A05|A06|A07|A08|A09|A10|A11|A12|A13|A14|A15")
  | Raise _ => False
  end.
Proof. vm_compute. reflexivity. Qed.

(** C4: on the date 2021-03-05. *)
Lemma parse_work_publication_date_witness :
  exists out,
    parse_work Z Z.eqb Z.eqb (VDict [("publication_date", VStr "2021-03-05")]) false
    = Ok out
    /\ dict_get "publication_date" out = Some (VStr "2021-03-05T00:00:00Z").
Proof.
  destruct (parse_work_publication_date Z Z.eqb Z.eqb
              [("publication_date", VStr "2021-03-05")] false "2021-03-05"
              eq_refl) as [H Hflat].
  destruct Hflat as [out Hout].
  { repeat constructor. }
  exists out. split; [exact Hout|].
  rewrite Hout in H. destruct H as [H _]. apply (H 2021 3 5); [|reflexivity].
  unfold valid_date. cbn. lia.
Defined.

(** C4 fails as stated: a string that does not parse leaves the key in
    the output, with the value [None]. *)
Lemma publication_date_claim_counterexample :
  ~ publication_date_claim Z Z.eqb Z.eqb
      [("publication_date", VStr "not-a-date")] false.
Proof.
  intros H.
  destruct (parse_work Z Z.eqb Z.eqb
              (VDict [("publication_date", VStr "not-a-date")]) false)
    as [out|e] eqn:Hout; [|discriminate Hout].
  destruct (H out "not-a-date" Hout eq_refl) as [_ Habsent].
  specialize (Habsent eq_refl).
  vm_compute in Hout. injection Hout as <-. discriminate Habsent.
Qed.

(** [strptime] is lenient on the month and the day: one digit is enough. *)
Example strptime_ymd_short_month_day :
  convert_publication_date Z (VStr "2021-3-5") = Ok (VStr "2021-03-05T00:00:00Z").
Proof. reflexivity. Qed.

(** A day the month does not have is rejected. *)
Example strptime_ymd_february_30 :
  convert_publication_date Z (VStr "2021-02-30") = Ok VNone.
Proof. reflexivity. Qed.

(** C8: on the title of a record. *)
Lemma parse_work_basic_fields_witness :
  exists out,
    parse_work Z Z.eqb Z.eqb
      (VDict [("id", VStr "W1"); ("title", VStr "On merging")]) false = Ok out
    /\ dict_get "title" out = Some (VStr "On merging").
Proof.
  assert (Hin : In "title" basic_fields) by (cbn; tauto).
  apply (proj2 (parse_work_basic_fields Z Z.eqb Z.eqb
                  [("id", VStr "W1"); ("title", VStr "On merging")] false "title"
                  Hin)).
  repeat constructor.
Defined.

(** C8 fails as stated: the basic fields that the record does not have
    are present in the output. *)
Lemma basic_fields_claim_counterexample :
  ~ basic_fields_claim Z Z.eqb Z.eqb [] false.
Proof.
  intros H.
  destruct (parse_work Z Z.eqb Z.eqb (VDict []) false) as [out|e] eqn:Hout;
    [|discriminate Hout].
  assert (Hdoi : In "doi" basic_fields) by (cbn; tauto).
  pose proof (H out "doi" Hout Hdoi) as Habsent.
  vm_compute in Hout. injection Hout as <-. discriminate Habsent.
Qed.

(** What the output holds for the six fields of the empty record. *)
Example parse_work_empty_record_basic_fields :
  match parse_work Z Z.eqb Z.eqb (VDict []) false with
  | Ok out =>
      map (fun field => dict_get field out) basic_fields
      = [Some VNone; Some (VStr ""); Some VNone; Some VNone; Some VNone; Some VNone]
  | Raise _ => False
  end.
Proof. vm_compute. reflexivity. Qed.



(** A raw cost of 0 and a nested cost, on records that hold nothing else. *)
Example parse_work_apc_paid_zero :
  match parse_work Z Z.eqb Z.eqb (VDict [("apc_paid", VInt 0)]) false with
  | Ok out => dict_get "apc_paid" out = Some (VInt 0)
  | Raise _ => False
  end.
Proof. vm_compute. reflexivity. Qed.

Example parse_work_apc_paid_nested :
  match parse_work Z Z.eqb Z.eqb
          (VDict [("apc_paid", VDict [("value", VInt 1500); ("currency", VStr "EUR");
                                      ("value_usd", VInt 1620)])]) false with
  | Ok out => dict_get "apc_paid" out = Some (VInt 1620)
  | Raise _ => False
  end.
Proof. vm_compute. reflexivity. Qed.

(** The authors Bob, Alice, Bob: each display name is stored under its
    own indexed key. *)
Lemma parse_work_display_names_witness :
  exists ss,
    all_strs Z (path_values Z (authors_record Z ["Bob"; "Alice"; "Bob"])
                "authorships[1].author.display_name") = Some ss
    /\ dict_get "authorships[1]_author_display_name"
         (parsed_fields Z Z.eqb Z.eqb (authors_record Z ["Bob"; "Alice"; "Bob"]) false)
       = Some (VStr (concat "|" (firstn 10 ss))).
Proof.
  pose (w := authors_record Z ["Bob"; "Alice"; "Bob"]).
  assert (Hpaths : forall p, retained_path Z w p ->
            p = "authorships[0].author.display_name"
            \/ p = "authorships[1].author.display_name"
            \/ p = "authorships[2].author.display_name").
  { intros p [_ Hne]. unfold path_values in Hne.
    change (find_display_names Z w "")
      with [("authorships[0].author.display_name", @VStr Z "Bob");
            ("authorships[1].author.display_name", VStr "Alice");
            ("authorships[2].author.display_name", VStr "Bob")] in Hne.
    cbn [filter fst] in Hne.
    destruct (String.eqb "authorships[0].author.display_name" p) eqn:E0;
      [apply String.eqb_eq in E0; auto|].
    destruct (String.eqb "authorships[1].author.display_name" p) eqn:E1;
      [apply String.eqb_eq in E1; auto|].
    destruct (String.eqb "authorships[2].author.display_name" p) eqn:E2;
      [apply String.eqb_eq in E2; auto|].
    now destruct Hne. }
  destruct (parse_work_display_names Z Z.eqb Z.eqb w false) as [Hpath _].
  - intros p v Hin _. vm_compute in Hin.
    destruct Hin as [[= <- <-]|[[= <- <-]|[[= <- <-]|[]]]]; reflexivity.
  - intros p q Hp Hq.
    destruct (Hpaths p Hp) as [->|[->| ->]];
      destruct (Hpaths q Hq) as [->|[->| ->]];
      intros Heq; first [reflexivity | discriminate Heq].
  - apply (Hpath "authorships[1].author.display_name").
    split; [reflexivity | discriminate].
Defined.

(** C2.  The display names of the authors Bob, Alice, Bob, met in this
    order, come out sorted and without the second Bob: every name is stored
    under a key that carries its array index, so that the join in
    encounter order acts on one name at a time, and the final merge then
    sorts and deduplicates the names across the indices. *)
Theorem parse_work_sorts_display_names :
  match parse_work Z Z.eqb Z.eqb (authors_record Z ["Bob"; "Alice"; "Bob"]) false with
  | Ok out =>
      dict_get "authorships_author_display_name" out = Some (VStr "Alice|Bob")
  | Raise _ => False
  end.
Proof. vm_compute. reflexivity. Qed.

(** The display names as the specification states them, joined in
    encounter order: not so for the authors Bob and Alice, who come out as
    Alice|Bob. *)
Lemma display_names_claim_counterexample :
  ~ display_names_claim Z Z.eqb Z.eqb (authors_record Z ["Bob"; "Alice"]) false.
Proof.
  intros H.
  destruct (parse_work Z Z.eqb Z.eqb (authors_record Z ["Bob"; "Alice"]) false)
    as [out|e] eqn:Hout; [|discriminate Hout].
  assert (Hclaim : dict_get "authorships_author_display_name" out
                   = Some (VStr (concat "|" ["Bob"; "Alice"]))).
  { apply (H out "authorships_author_display_name" ["Bob"; "Alice"] Hout);
      [reflexivity | discriminate]. }
  vm_compute in Hout. injection Hout as <-. discriminate Hclaim.
Qed.

(** C6: the index of "The cat sat on The". *)
Lemma extract_abstract_reconstructs_witness :
  exists m words,
    In m (all_positions [("The", [0; 4]); ("cat", [1]); ("sat", [2]); ("on", [3])]%Z)
    /\ List.length words = Z.to_nat (m + 1)
    /\ (forall word positions p,
          In (word, positions)
             [("The", [0; 4]); ("cat", [1]); ("sat", [2]); ("on", [3])]%Z ->
          In p positions -> nth (Z.to_nat p) words "" = word)
    /\ extract_abstract
         (Some [("The", [0; 4]); ("cat", [1]); ("sat", [2]); ("on", [3])]%Z)
       = Ok (concat " " (filter (fun word => negb (String.eqb word "")) words)).
Proof.
  destruct extract_abstract_reconstructs as [_ [_ H]].
  destruct (H [("The", [0; 4]); ("cat", [1]); ("sat", [2]); ("on", [3])]%Z)
    as [m [words [H1 [_ [H3 [_ [H5 H6]]]]]]].
  - discriminate.
  - repeat constructor; cbn; try discriminate; lia.
  - exists m, words. split; [exact H1|]. split; [exact H3|]. split; [|exact H6].
    apply H5. intros pre wp post i Heq Hocc.
    destruct pre as [|e0 [|e1 [|e2 [|e3 [|e4 pre]]]]]; cbn in Heq;
      injection Heq as <-; intros; subst;
      repeat match goal with
        | H : _ :: _ = _ :: _ |- _ => injection H as <-; intros; subst
        | H : [] = _ :: _ |- _ => discriminate H
        | H : _ ++ _ :: _ = [] |- _ => destruct (app_cons_not_nil _ _ _ (eq_sym H))
        end;
      unfold occurs_at in Hocc; cbn in Hocc;
      repeat constructor; unfold occurs_at; cbn;
      repeat match goal with
        | H : context [(i =? ?z)%Z] |- _ => destruct (Z.eqb_spec i z); subst
        end; try discriminate; try reflexivity.
Defined.

(** C6 fails as stated: a word without a position makes the function
    raise, and a position that two words list cannot hold both. *)
Lemma abstract_claim_counterexample :
  ~ abstract_claim [("a", [0%Z]); ("b", [])]
  /\ ~ abstract_claim [("a", [0; 1]%Z); ("b", [1%Z])].
Proof.
  split; intros H.
  - destruct H as [m [words [_ [_ [_ [_ Hex]]]]]]; [discriminate|].
    vm_compute in Hex. discriminate Hex.
  - destruct H as [m [words [_ [_ [_ [Hat _]]]]]]; [discriminate|].
    assert (Ha : nth (Z.to_nat 1) words "" = "a").
    { apply (Hat "a" [0; 1]%Z); [now left | right; now left]. }
    assert (Hb : nth (Z.to_nat 1) words "" = "b").
    { apply (Hat "b" [1%Z]); [right; now left | now left]. }
    rewrite Ha in Hb. discriminate Hb.
Qed.

Example extract_abstract_the_cat :
  extract_abstract
    (Some [("The", [0; 4]); ("cat", [1]); ("sat", [2]); ("on", [3])]%Z)
  = Ok "The cat sat on The".
Proof. reflexivity. Qed.

(** A word without a position makes [max] raise. *)
Example extract_abstract_empty_positions :
  extract_abstract (Some [("word", [])]) = Raise ValueError.
Proof. reflexivity. Qed.

(** C7: 25 records, 10 per page.  Every page answers, and the caller
    passes a page of its own; then the second page fails with a
    [ValueError]. *)
Lemma list_all_resources_pages_witness :
  list_all_resources Z Z.eqb Z.eqb (example_client Z None) "works" false false
    (Some 10%Z) [("page", VInt 2)] []
  = (Ok (flat_map (example_page Z) (pages_upto 3)),
     count_request Z (example_client Z None) "works" []
       :: map (page_request Z (example_client Z None) "works" 10 [])
            (pages_upto 3))
  /\ (dict_get "page" (snd (count_request Z (example_client Z None) "works" []))
      = None
      /\ forall page,
           dict_get "page"
             (snd (page_request Z (example_client Z None) "works" 10 [] page))
           = Some (VInt page))
  /\ list_all_resources Z Z.eqb Z.eqb (faulty_client Z ValueError 2) "works"
       false false (Some 10%Z) [] []
     = (Raise ValueError,
        count_request Z (faulty_client Z ValueError 2) "works" []
          :: map (page_request Z (faulty_client Z ValueError 2) "works" 10 [])
               (pages_upto 2)).
Proof.
  assert (Hnd : NoDup (keys [("page", @VInt Z 2)])).
  { apply NoDup_cons; [intros [] | apply NoDup_nil]. }
  assert (Hpp : ~ In "per_page" (keys [("page", @VInt Z 2)])).
  { intros [H|[]]. discriminate H. }
  assert (Hp : (0 < 10)%Z) by lia.
  assert (Ht : (0 <= 25)%Z) by lia.
  assert (Hk : (3 <= Z.to_nat ((25 + 10 - 1) / 10))%nat) by (vm_compute; lia).
  assert (Hk1 : (1 <= Z.to_nat ((25 + 10 - 1) / 10))%nat) by (vm_compute; lia).
  destruct (list_all_resources_pages Z Z.eqb Z.eqb (example_client Z None)
              "works" false false (Some 10%Z) [("page", VInt 2)] 25%Z
              (example_page Z) 3 Hnd Hpp Hp Ht eq_refl Hk)
    as [_ [[Hc _] [Hr [Hrun _]]]].
  { intros page Hin. cbn in Hin.
    destruct Hin as [<-|[<-|[<-|[]]]]; (split; [reflexivity | discriminate]). }
  destruct (list_all_resources_pages Z Z.eqb Z.eqb (faulty_client Z ValueError 2)
              "works" false false (Some 10%Z) [] 25%Z
              (example_page Z) 1 (NoDup_nil _) (fun H => H) Hp Ht eq_refl Hk1)
    as [_ [_ [_ [_ Hfail]]]].
  { intros page Hin. cbn in Hin.
    destruct Hin as [<-|[]]; (split; [reflexivity | discriminate]). }
  split; [apply Hrun; left; reflexivity|].
  split; [split; [exact Hc | intros page; apply (Hr page)]|].
  apply Hfail; [vm_compute; lia | reflexivity | discriminate].
Defined.

(** C7 fails as stated: when the second page fails with a [ValueError],
    as on an answer that is not JSON, the call raises and the records of
    the first page are not returned. *)
Lemma partial_results_claim_counterexample :
  ~ partial_results_claim Z Z.eqb Z.eqb (faulty_client Z ValueError 2) "works" 10.
Proof.
  intros H.
  assert (Hraise : fst (list_all_resources Z Z.eqb Z.eqb
                          (faulty_client Z ValueError 2) "works" false false
                          (Some 10%Z) [] [])
                   = Raise ValueError) by (vm_compute; reflexivity).
  rewrite (H (example_page Z) 1%nat ValueError) in Hraise.
  - discriminate Hraise.
  - intros page Hin. cbn in Hin.
    destruct Hin as [<-|[]]; (split; [reflexivity | discriminate]).
  - reflexivity.
Qed.

(** Three page requests are sent, after the count request, and the 25
    records come back in page order. *)
Example list_all_resources_25_by_10 :
  match list_all_resources Z Z.eqb Z.eqb (example_client Z None) "works"
          false false (Some 10%Z) [] [] with
  | (Ok all_records, log) =>
      all_records = map (example_record Z) (seq 1 25)
      /\ map (fun r => dict_get "page" (snd r)) log
         = [None; Some (VInt 1); Some (VInt 2); Some (VInt 3)]
  | (Raise _, _) => False
  end.
Proof. vm_compute. split; reflexivity. Qed.

(** When page 2 fails, the records of page 1 are returned, and page 3 is
    not requested. *)
Example list_all_resources_page_2_fails :
  match list_all_resources Z Z.eqb Z.eqb (example_client Z (Some 2%Z)) "works"
          false false (Some 10%Z) [] [] with
  | (Ok all_records, log) =>
      all_records = map (example_record Z) (seq 1 10)
      /\ map (fun r => dict_get "page" (snd r)) log
         = [None; Some (VInt 1); Some (VInt 2)]
  | (Raise _, _) => False
  end.
Proof. vm_compute. split; reflexivity. Qed.


(** * Further properties on concrete records *)

(** X1: the citation count of a record. *)
Lemma parse_work_count_fields_witness :
  match parse_work Z Z.eqb Z.eqb (VDict [("cited_by_count", VInt 12)]) false with
  | Ok out => dict_get "cited_by_count" out = Some (VInt 12)
  | Raise e => e = TypeError
  end.
Proof.
  exact (parse_work_count_fields Z Z.eqb Z.eqb [("cited_by_count", VInt 12)]
           false "cited_by_count" ltac:(cbn; tauto)).
Defined.

(** X7: three authorships, the last one without countries. *)
Lemma extract_unique_country_codes_sorted_witness :
  exists out,
    extract_unique_country_codes Z Z.eqb Z.eqb
      (VList [VDict [("countries", VList [VStr "US"; VStr "FR"])];
              VDict [("countries", VList [VStr "FR"])];
              VDict []])
    = Ok (concat "|" out)
    /\ Sorted str_le out /\ NoDup out
    /\ forall c, In c out <-> In c ["US"; "FR"; "FR"].
Proof.
  apply (extract_unique_country_codes_sorted Z Z.eqb Z.eqb _
           [["US"; "FR"]; ["FR"]; []]).
  repeat constructor.
Defined.

(** X8: a null entry among the authorships. *)
Lemma parse_work_countries_codes_lost_witness :
  (exists e,
     extract_unique_country_codes Z Z.eqb Z.eqb
       (VList [VDict [("countries", VList [VStr "FR"])]; VNone]) = Raise e)
  /\ match parse_work Z Z.eqb Z.eqb
             (VDict [("authorships",
                      VList [VDict [("countries", VList [VStr "FR"])]; VNone])])
             false with
     | Ok out => dict_get "countries_codes" out = None
     | Raise e => e = TypeError
     end.
Proof.
  apply (parse_work_countries_codes_lost Z Z.eqb Z.eqb
           [("authorships", VList [VDict [("countries", VList [VStr "FR"])]; VNone])]
           false [VDict [("countries", VList [VStr "FR"])]; VNone] VNone).
  - reflexivity.
  - right. left. reflexivity.
  - discriminate.
Defined.

(** X10: a mapping without index groups. *)
Lemma merge_and_deduplicate_index_free_witness :
  merge_and_deduplicate Z Z.eqb Z.eqb [("id", VStr "W1"); ("cited_by_count", VInt 3)]
  = Ok [("id", VStr "W1"); ("cited_by_count", VInt 3)].
Proof.
  apply (merge_and_deduplicate_index_free Z Z.eqb Z.eqb).
  - apply NoDup_cons; [intros [H|[]]; discriminate H|].
    apply NoDup_cons; [intros [] | apply NoDup_nil].
  - intros k [<-|[<-|[]]]; reflexivity.
  - repeat constructor.
Defined.

(** X11: a list among the values. *)
Lemma merge_and_deduplicate_unhashable_witness :
  merge_and_deduplicate Z Z.eqb Z.eqb [("a", VStr "x"); ("b", VList [])]
  = Raise TypeError.
Proof.
  apply (merge_and_deduplicate_unhashable Z Z.eqb Z.eqb _ "b" (VList [])).
  - right. left. reflexivity.
  - reflexivity.
Defined.

(** X12: a title that is a list. *)
Lemma parse_work_unhashable_field_witness :
  parse_work Z Z.eqb Z.eqb (VDict [("id", VStr "W1"); ("title", VList [VStr "a"])])
    true
  = Raise TypeError.
Proof.
  apply (parse_work_unhashable_field Z Z.eqb Z.eqb _ true "title" (VList [VStr "a"])).
  - cbn. tauto.
  - reflexivity.
  - reflexivity.
Defined.

(** X13: the path of an author name. *)
Lemma find_display_names_paths_witness :
  contains "display_name" "authorships[0].author.display_name" = true
  /\ retained "authorships[0].author.display_name"
     = (contains "authorships" "authorships[0].author.display_name"
        || contains "topics" "authorships[0].author.display_name"
        || contains "keywords" "authorships[0].author.display_name"
        || contains "sustainable_development_goals"
             "authorships[0].author.display_name").
Proof.
  apply (find_display_names_paths Z
           (VDict [("authorships",
                    VList [VDict [("author", VDict [("display_name", VStr "Ann")])]])])
           "" "authorships[0].author.display_name" (VStr "Ann")).
  left. reflexivity.
Defined.

(** X14: a word without a position. *)
Lemma extract_abstract_word_without_position_witness :
  extract_abstract (Some [("a", [0%Z]); ("b", [])]) = Raise ValueError.
Proof.
  apply (extract_abstract_word_without_position _ "b").
  right. left. reflexivity.
Defined.

(** X15: a null record. *)
Lemma parse_work_scalar_witness :
  parse_work Z Z.eqb Z.eqb VNone true = Ok [].
Proof.
  apply (parse_work_scalar Z Z.eqb Z.eqb VNone true). reflexivity.
Defined.

(** X16: the percentile fields of a record. *)
Lemma parse_work_percentiles_witness :
  match parse_work Z Z.eqb Z.eqb
          (VDict [("citation_normalized_percentile",
                   VDict [("value", VInt 1); ("is_in_top_1_percent", VBool false)])])
          false with
  | Ok out => dict_get "percentiles_is_in_top_1_percent" out = Some (VBool false)
  | Raise e => e = TypeError
  end.
Proof.
  apply (parse_work_percentiles Z Z.eqb Z.eqb
           [("citation_normalized_percentile",
             VDict [("value", VInt 1); ("is_in_top_1_percent", VBool false)])]
           false "is_in_top_1_percent").
  - apply NoDup_cons; [intros [H|[]]; discriminate H|].
    apply NoDup_cons; [intros [] | apply NoDup_nil].
  - intros k [<-|[<-|[]]]; reflexivity.
  - reflexivity.
  - reflexivity.
Defined.

(** X18: a filter, and a page that is [None]. *)
Lemma build_params_get_witness :
  dict_get "page"
    (_build_params Z (example_client Z None) [("filter", VStr "x"); ("page", VNone)])
  = None
  /\ dict_get "filter"
       (_build_params Z (example_client Z None) [("filter", VStr "x"); ("page", VNone)])
     = Some (VStr "x").
Proof.
  assert (Hnd : NoDup (keys [("filter", VStr "x"); ("page", @VNone Z)])).
  { apply NoDup_cons; [intros [H|[]]; discriminate H|].
    apply NoDup_cons; [intros [] | apply NoDup_nil]. }
  split.
  - exact (build_params_get Z (example_client Z None) _ "page" Hnd).
  - exact (build_params_get Z (example_client Z None) _ "filter" Hnd).
Defined.

(** X19: a caller that passes [per_page=None]. *)
Lemma list_resources_per_page_witness :
  exists params,
    snd (list_resources Z Z.eqb Z.eqb (example_client Z None) "works" false false
           [("per_page", VNone)] [])
    = [(endpoint_url Z (example_client Z None) "works", params)]
    /\ dict_get "per_page" params = None.
Proof.
  apply (list_resources_per_page Z Z.eqb Z.eqb (example_client Z None) "works"
           false false [("per_page", VNone)] []).
  apply NoDup_cons; [intros [] | apply NoDup_nil].
Defined.

(** X20: a page of two works, the second with a title that is a list. *)
Lemma list_resources_bad_record_witness :
  fst (list_resources Z Z.eqb Z.eqb
         (constant_client Z
            (Ok (VDict [("results",
                         VList [VDict [("title", VStr "a")];
                                VDict [("title", VList [])]])])))
         "works" true false [] [])
  = Raise TypeError.
Proof.
  apply (list_resources_bad_record Z Z.eqb Z.eqb _ false [] []
           [("results", VList [VDict [("title", VStr "a")];
                               VDict [("title", VList [])]])]
           [VDict [("title", VStr "a")]; VDict [("title", VList [])]]
           (VDict [("title", VList [])]) TypeError).
  - reflexivity.
  - reflexivity.
  - right. left. reflexivity.
  - reflexivity.
Defined.

(** X21: a caller that passes a page size of 50. *)
Lemma get_total_count_request_witness :
  (exists params,
     snd (get_total_count Z (example_client Z None) "works"
            [("per_page", VInt 50)] [])
     = [(endpoint_url Z (example_client Z None) "works", params)]
     /\ dict_get "per_page" params = Some (VInt 1))
  /\ fst (get_total_count Z (example_client Z None) "works"
            [("per_page", VInt 50)] [])
     <> Raise OpenAlexClientError.
Proof.
  apply (get_total_count_request Z (example_client Z None) "works"
           [("per_page", VInt 50)] []).
  apply NoDup_cons; [intros [] | apply NoDup_nil].
Defined.

(** X22: a server that fails. *)
Lemma list_all_resources_failed_count_witness :
  list_all_resources Z Z.eqb Z.eqb (constant_client Z (Raise OpenAlexClientError))
    "works" false false None [] []
  = (Ok [],
     [count_request Z (constant_client Z (Raise OpenAlexClientError)) "works" []]).
Proof.
  apply (list_all_resources_failed_count Z Z.eqb Z.eqb
           (constant_client Z (Raise OpenAlexClientError))
           "works" false false None [] []).
  reflexivity.
Defined.

(** X23: five records and a page size of 0. *)
Lemma list_all_resources_zero_page_size_witness :
  list_all_resources Z Z.eqb Z.eqb
    (constant_client Z (Ok (VDict [("meta", VDict [("count", VInt 5)])])))
    "works" false false (Some 0%Z) [] []
  = (Raise ZeroDivisionError,
     [count_request Z
        (constant_client Z (Ok (VDict [("meta", VDict [("count", VInt 5)])])))
        "works" []]).
Proof.
  apply (list_all_resources_zero_page_size Z Z.eqb Z.eqb
           (constant_client Z (Ok (VDict [("meta", VDict [("count", VInt 5)])])))
           "works" false false (Some 0%Z) [] [] 5%Z).
  - reflexivity.
  - reflexivity.
  - discriminate.
Defined.

(** X24: a caller that passes a page of its own. *)
Lemma list_all_resources_requests_witness :
  fst (list_all_resources Z Z.eqb Z.eqb (example_client Z None) "works" false false
         (Some 10%Z) [("page", VInt 2)] [])
  <> Raise OpenAlexClientError
  /\ (exists j,
        snd (list_all_resources Z Z.eqb Z.eqb (example_client Z None) "works"
               false false (Some 10%Z) [("page", VInt 2)] [])
        = count_request Z (example_client Z None) "works" []
            :: map (page_request Z (example_client Z None) "works" 10 [])
                 (pages_upto j))
  /\ dict_get "page" (snd (count_request Z (example_client Z None) "works" []))
     = None
  /\ (forall page,
        dict_get "page"
          (snd (page_request Z (example_client Z None) "works" 10 [] page))
        = Some (VInt page)).
Proof.
  apply (list_all_resources_requests Z Z.eqb Z.eqb (example_client Z None) "works"
           false false (Some 10%Z) [("page", VInt 2)] []).
  apply NoDup_cons; [intros [] | apply NoDup_nil].
Defined.

(** X26: the key [id] of the output for the empty record. *)
Lemma parse_work_keys_witness :
  In "id" fixed_keys \/ prefix "percentiles_" "id" = true
  \/ "id" = "grants_funder_display_name" \/ retained "id" = true.
Proof.
  apply (parse_work_keys Z Z.eqb Z.eqb (VDict []) false (default_fields Z) "id").
  - reflexivity.
  - cbn. tauto.
Defined.

(** X27: the fifth of March 2021, written without padding. *)
Lemma convert_publication_date_unpadded_witness :
  convert_publication_date Z (VStr "2021-3-5") = Ok (VStr "2021-03-05T00:00:00Z").
Proof.
  apply (convert_publication_date_unpadded Z 2021 3 5).
  unfold valid_date. cbn. lia.
Defined.
